(** * Ledger and settlement subsystem of suban-ai-backend

    A shallow embedding of the price oracle, the balance tracker, the deposit
    transaction verifier, the deposit route and the settlement service, with
    the properties of their specification stated and proved over it.

    Conventions of the embedding.
    - A JavaScript [number] holding a token or USD amount is a rational
      ([Q]); equality of amounts is [Qeq] ([==]).  The code is embedded
      twice where its arithmetic matters.  In the modules [PriceOracle],
      [Ledger], [Settlement] and their companions [+], [-], [*] and [/]
      are the exact operations: these carry the properties that do not
      depend on rounding.  In the modules whose name ends in [64] the same
      lines are embedded with the operations of IEEE 754 binary64
      ([Binary64]: the exact result rounded to nearest, ties to even, on
      53 bits), which is what the JavaScript engine computes: these carry
      the properties on which rounding bears.  [NaN] is the [None] of an
      optional amount where the code can meet it ([parseFloat]);
      infinities are outside the model.
    - [Date.now()] and [new Date()] are an explicit argument [now], in
      milliseconds.
    - A thrown JavaScript error is the [Throw] case of [result]; each
      throw site of the modelled code has its own constructor of [Error].
    - An awaited call is run to completion where it stands, except in the
      task machine of the settlement service, where every [await] of
      [executeBatchSettlement] is a point at which other calls may run.
    - Answers of collaborators (chain RPC, price cache contents, store
      failures) are arguments of the functions that consume them. *)

From Stdlib Require Import ZArith QArith Qminmax Qabs Qround Lqa Lia.
From Stdlib Require Import Sorting.Permutation.
From Stdlib Require SpecFloat.
From stdpp Require Import gmap strings list fin_maps.

Open Scope Q_scope.

(** ** Errors and results *)

Inductive Error : Type :=
| InsufficientTokenBalance          (* 'Insufficient token balance' *)
| NoPriceData                       (* 'No price data available for TWAP calculation' *)
| InvalidTokenPrice                 (* 'Invalid token price' *)
| ValidationError (path : string)   (* mongoose validator of [path] failed *)
| TypeError                         (* property read on undefined *)
| BackendWalletNotLoaded            (* 'Backend wallet not loaded. Cannot execute settlement.' *)
| MintNotConfigured                 (* 'TOKEN_MINT_ADDRESS not configured' *)
| TreasuryNotConfigured             (* 'TREASURY_WALLET_ADDRESS not configured' *)
| BackendAccountNotFound            (* 'Backend token account not found or has no balance' *)
| InsufficientBackendBalance (need have : Q)
                                    (* `Insufficient balance. Need: ..., Have: ...` *)
| SettlementFailed (cause : Error)  (* `Settlement failed: ${error.message}` *)
| External (message : string).      (* raised by a collaborator: RPC, store, key parser *)

Inductive result (A : Type) : Type :=
| Ok (a : A)
| Throw (e : Error).
Arguments Ok {A} a.
Arguments Throw {A} e.

(** JavaScript comparisons on amounts. *)
Definition Qltb (a b : Q) : bool := negb (Qle_bool b a).
Definition Qgtb (a b : Q) : bool := Qltb b a.
Definition Qgeb (a b : Q) : bool := Qle_bool b a.

(** [array.reduce((acc, x) => acc + f(x), 0)] *)
Definition reduce_sum {A} (f : A -> Q) (l : list A) : Q :=
  fold_left (fun acc x => acc + f x) l 0.

(** The sum of a list the way a specification writes it. *)
Fixpoint Qsum (l : list Q) : Q :=
  match l with
  | [] => 0
  | x :: r => x + Qsum r
  end.

(** ** Price oracle (src/services/solana/price-oracle.service.ts) *)

Module PriceOracle.

Record PriceEntry : Type := { price : Q; timestamp : Z }.

Record PriceOracleService : Type := {
  priceCache : list PriceEntry;
  twapWindowMinutes : Z;
  burnFloor : Q;
  burnCeiling : Q
}.

(** The service as the constructor leaves it when the environment sets
    none of TWAP_WINDOW_MINUTES, BURN_FLOOR, BURN_CEILING. *)
Definition defaultService (cache : list PriceEntry) : PriceOracleService :=
  {| priceCache := cache; twapWindowMinutes := 10;
     burnFloor := 5 # 100; burnCeiling := 50 |}.

Definition windowMs (o : PriceOracleService) : Z :=
  (twapWindowMinutes o * 60 * 1000)%Z.

Definition inWindow (now : Z) (o : PriceOracleService) (entry : PriceEntry) : bool :=
  (now - timestamp entry <=? windowMs o)%Z.

Definition getTWAPPrice (now : Z) (o : PriceOracleService) : result Q :=
  if (length (priceCache o) =? 0)%nat then Throw NoPriceData
  else
    let relevantPrices := List.filter (inWindow now o) (priceCache o) in
    if (length relevantPrices =? 0)%nat then
      match last (priceCache o) with
      | Some entry => Ok (price entry)
      | None => Throw TypeError
      end
    else
      let sum := reduce_sum price relevantPrices in
      Ok (sum / inject_Z (Z.of_nat (length relevantPrices))).

Definition calculateTokenBurn (now : Z) (o : PriceOracleService) (usdCost : Q)
  : result Q :=
  match getTWAPPrice now o with
  | Throw e => Throw e
  | Ok tokenPrice =>
      if Qle_bool tokenPrice 0 then Throw InvalidTokenPrice
      else
        let rawBurn := usdCost / tokenPrice in
        Ok (Qmax (burnFloor o) (Qmin rawBurn (burnCeiling o)))
  end.

(** What the specification calls the mean and the clamp. *)
Definition mean (l : list Q) : Q := Qsum l / inject_Z (Z.of_nat (length l)).

Definition clamp (lo hi x : Q) : Q :=
  if Qltb x lo then lo else if Qltb hi x then hi else x.

(** The samples of the specification's example. *)
Definition threeSamples (t0 : Z) : list PriceEntry :=
  [ {| price := 1; timestamp := t0 |};
    {| price := 11 # 10; timestamp := t0 + 60000 |};
    {| price := 12 # 10; timestamp := t0 + 120000 |} ].

End PriceOracle.

(** ** A state and error monad for code that awaits the store

    [M S A] is a computation over a store of type [S] that returns an [A]
    or throws; a throw keeps the store as it was when the error was
    raised, which is what an uncaught rejection of an [await] does. *)

Definition M (S A : Type) : Type := S -> result A * S.

Definition ret {S A} (a : A) : M S A := fun s => (Ok a, s).
Definition throw {S A} (e : Error) : M S A := fun s => (Throw e, s).
Definition bind {S A B} (c : M S A) (k : A -> M S B) : M S B :=
  fun s => match c s with
           | (Ok a, s') => k a s'
           | (Throw e, s') => (Throw e, s')
           end.
Definition lift {S A} (r : result A) : M S A := fun s => (r, s).

Notation "'let*' x ':=' c 'in' k" := (bind c (fun x => k))
  (at level 10, x name, c at level 100, k at level 200).

(** ** Balance tracker (BalanceTrackerService) and its two collections *)

Module Ledger.

Inductive TransactionType : Type := deposit | usage | settlement.
Inductive RequestType : Type := chat | voice.

Record Metadata : Type := { md_requestType : RequestType; md_usdCost : Q }.

(** ITransaction: an entry of a wallet's transaction log. *)
Record ITransaction : Type := {
  tx_type : TransactionType;
  tx_amount : Q;
  tx_txHash : option string;
  tx_timestamp : Z;
  tx_metadata : option Metadata
}.

(** ITokenBalance: one document per wallet address (unique index). *)
Record ITokenBalance : Type := {
  walletAddress : string;
  depositedAmount : Q;
  consumedAmount : Q;
  currentBalance : Q;
  lastUpdated : Z;
  transactions : list ITransaction
}.

(** IUsageRecord; [_id] stands for the ObjectId the store assigns. *)
Record IUsageRecord : Type := {
  _id : nat;
  ur_walletAddress : string;
  requestType : RequestType;
  usdCost : Q;
  tokenPrice : Q;
  tokensBurned : Q;
  ur_timestamp : Z;
  settled : bool;
  ur_txHash : option string
}.

(** The two collections.  [TokenBalance] is keyed by [walletAddress];
    [UsageRecord] keeps insertion order. *)
Record Store : Type := {
  TokenBalance : gmap string ITokenBalance;
  UsageRecord : list IUsageRecord;
  nextId : nat
}.

Definition emptyStore : Store :=
  {| TokenBalance := ∅; UsageRecord := []; nextId := 0 |}.

Definition setTokenBalance (m : gmap string ITokenBalance) (st : Store) : Store :=
  {| TokenBalance := m; UsageRecord := UsageRecord st; nextId := nextId st |}.

(** Validators of TokenBalanceSchema: [walletAddress] is required (an
    empty string does not satisfy [required]); the three amounts have
    [min: 0]. *)
Definition validateTokenBalance (doc : ITokenBalance) : result unit :=
  if String.eqb (walletAddress doc) "" then Throw (ValidationError "walletAddress")
  else if Qltb (depositedAmount doc) 0 then Throw (ValidationError "depositedAmount")
  else if Qltb (consumedAmount doc) 0 then Throw (ValidationError "consumedAmount")
  else if Qltb (currentBalance doc) 0 then Throw (ValidationError "currentBalance")
  else Ok tt.

(** [doc.save()]: validate, run the pre-save hook that stamps
    [lastUpdated], and write the document under its wallet address. *)
Definition preSave (now : Z) (doc : ITokenBalance) : ITokenBalance :=
  {| walletAddress := walletAddress doc;
     depositedAmount := depositedAmount doc;
     consumedAmount := consumedAmount doc;
     currentBalance := currentBalance doc;
     lastUpdated := now;
     transactions := transactions doc |}.

Definition save (now : Z) (doc : ITokenBalance) : M Store ITokenBalance :=
  fun st =>
    match validateTokenBalance doc with
    | Throw e => (Throw e, st)
    | Ok _ =>
        let saved := preSave now doc in
        (Ok saved, setTokenBalance (<[walletAddress doc := saved]> (TokenBalance st)) st)
    end.

Definition findOne (walletAddress : string) : M Store (option ITokenBalance) :=
  fun st => (Ok (TokenBalance st !! walletAddress), st).

(** [new TokenBalance({ walletAddress, depositedAmount: 0, consumedAmount: 0,
                       currentBalance: 0, transactions: [] })] *)
Definition zeroBalance (now : Z) (walletAddress : string) : ITokenBalance :=
  {| walletAddress := walletAddress;
     depositedAmount := 0;
     consumedAmount := 0;
     currentBalance := 0;
     lastUpdated := now;
     transactions := [] |}.

Definition getBalance (now : Z) (walletAddress : string) : M Store ITokenBalance :=
  let* found := findOne walletAddress in
  match found with
  | Some balance => ret balance
  | None => save now (zeroBalance now walletAddress)
  end.

Definition recordDeposit (now : Z) (walletAddress : string) (amount : Q)
    (txHash : string) : M Store ITokenBalance :=
  let* balance := getBalance now walletAddress in
  save now
    {| walletAddress := Ledger.walletAddress balance;
       depositedAmount := depositedAmount balance + amount;
       consumedAmount := consumedAmount balance;
       currentBalance := currentBalance balance + amount;
       lastUpdated := lastUpdated balance;
       transactions := transactions balance ++
         [ {| tx_type := deposit; tx_amount := amount; tx_txHash := Some txHash;
              tx_timestamp := now; tx_metadata := None |} ] |}.

(** Validators of UsageRecordSchema that the created document can fail. *)
Definition validateUsageRecord (r : IUsageRecord) : result unit :=
  if String.eqb (ur_walletAddress r) "" then Throw (ValidationError "walletAddress")
  else if Qltb (usdCost r) 0 then Throw (ValidationError "usdCost")
  else if Qltb (tokenPrice r) 0 then Throw (ValidationError "tokenPrice")
  else if Qltb (tokensBurned r) 0 then Throw (ValidationError "tokensBurned")
  else Ok tt.

(** [UsageRecord.create({...})]: the store assigns [_id]; [timestamp]
    takes its default, [Date.now]. *)
Definition create (now : Z) (walletAddress : string) (requestType : RequestType)
    (usdCost tokenPrice tokensBurned : Q) (settled : bool) : M Store IUsageRecord :=
  fun st =>
    let r := {| _id := nextId st; ur_walletAddress := walletAddress;
                requestType := requestType; usdCost := usdCost;
                tokenPrice := tokenPrice; tokensBurned := tokensBurned;
                ur_timestamp := now; settled := settled; ur_txHash := None |} in
    match validateUsageRecord r with
    | Throw e => (Throw e, st)
    | Ok _ =>
        (Ok r, {| TokenBalance := TokenBalance st;
                  UsageRecord := UsageRecord st ++ [r];
                  nextId := S (nextId st) |})
    end.

Definition deductTokens (now : Z) (priceOracle : PriceOracle.PriceOracleService)
    (walletAddress : string) (amount : Q) (requestType : RequestType) (usdCost : Q)
  : M Store ITokenBalance :=
  let* balance := getBalance now walletAddress in
  if Qltb (currentBalance balance) amount then throw InsufficientTokenBalance
  else
    let* balance :=
      save now
        {| walletAddress := Ledger.walletAddress balance;
           depositedAmount := depositedAmount balance;
           consumedAmount := consumedAmount balance + amount;
           currentBalance := currentBalance balance - amount;
           lastUpdated := lastUpdated balance;
           transactions := transactions balance ++
             [ {| tx_type := usage; tx_amount := - amount; tx_txHash := None;
                  tx_timestamp := now;
                  tx_metadata := Some {| md_requestType := requestType;
                                         md_usdCost := usdCost |} |} ] |} in
    let* tokenPrice := lift (PriceOracle.getTWAPPrice now priceOracle) in
    let* _ := create now walletAddress requestType usdCost tokenPrice amount false in
    ret balance.

Definition hasSufficientBalance (now : Z) (walletAddress : string)
    (requiredAmount : Q) : M Store bool :=
  let* balance := getBalance now walletAddress in
  ret (Qgeb (currentBalance balance) requiredAmount).

(** [.sort({ timestamp: 1 })]: ascending by timestamp; records with equal
    timestamps keep their insertion order. *)
Fixpoint insertByTimestamp (r : IUsageRecord) (l : list IUsageRecord)
  : list IUsageRecord :=
  match l with
  | [] => [r]
  | x :: l' =>
      if (ur_timestamp r <=? ur_timestamp x)%Z then r :: l
      else x :: insertByTimestamp r l'
  end.

Definition sortByTimestamp (l : list IUsageRecord) : list IUsageRecord :=
  fold_right insertByTimestamp [] l.

Definition unsettled (l : list IUsageRecord) : list IUsageRecord :=
  List.filter (fun r => negb (settled r)) l.

(** [UsageRecord.find({ settled: false }).sort({ timestamp: 1 }).limit(limit)] *)
Definition getUnsettledRecords (limit : nat) : M Store (list IUsageRecord) :=
  fun st => (Ok (take limit (sortByTimestamp (unsettled (UsageRecord st)))), st).

(** [{ $set: { settled: true, txHash } }] *)
Definition settledWith (txHash : string) (r : IUsageRecord) : IUsageRecord :=
  {| _id := _id r; ur_walletAddress := ur_walletAddress r;
     requestType := requestType r; usdCost := usdCost r;
     tokenPrice := tokenPrice r; tokensBurned := tokensBurned r;
     ur_timestamp := ur_timestamp r; settled := true; ur_txHash := Some txHash |}.

Definition markOne (recordIds : list nat) (txHash : string) (r : IUsageRecord)
  : IUsageRecord :=
  if existsb (Nat.eqb (_id r)) recordIds then settledWith txHash r else r.

(** [UsageRecord.updateMany({ _id: { $in: recordIds } },
                            { $set: { settled: true, txHash } })] *)
Definition markAsSettled (recordIds : list nat) (txHash : string) : M Store unit :=
  fun st =>
    (Ok tt, {| TokenBalance := TokenBalance st;
               UsageRecord := map (markOne recordIds txHash) (UsageRecord st);
               nextId := nextId st |}).

(** [TokenBalance.findOne({ 'transactions.txHash': txHash })], as the
    truth value the routes test. *)
Definition hasTxHash (txHash : string) (doc : ITokenBalance) : bool :=
  existsb (fun t => match tx_txHash t with
                    | Some h => String.eqb h txHash
                    | None => false
                    end) (transactions doc).

Definition existingTransaction (txHash : string) (st : Store) : bool :=
  existsb (fun kv => hasTxHash txHash (snd kv)) (map_to_list (TokenBalance st)).

(** *** Sequences of operations and what the specification says of them *)

(** One call of an operation, with the clock and the oracle it ran
    against. *)
Inductive Op : Type :=
| GetBalance (now : Z) (walletAddress : string)
| RecordDeposit (now : Z) (walletAddress : string) (amount : Q) (txHash : string)
| DeductTokens (now : Z) (priceOracle : PriceOracle.PriceOracleService)
    (walletAddress : string) (amount : Q) (requestType : RequestType) (usdCost : Q).

Definition runOp (op : Op) (st : Store) : Store :=
  match op with
  | GetBalance now w => snd (getBalance now w st)
  | RecordDeposit now w amount txHash => snd (recordDeposit now w amount txHash st)
  | DeductTokens now oracle w amount requestType usdCost =>
      snd (deductTokens now oracle w amount requestType usdCost st)
  end.

Definition runOps (ops : list Op) (st : Store) : Store :=
  fold_left (fun s op => runOp op s) ops st.

Definition balanced (doc : ITokenBalance) : Prop :=
  currentBalance doc == depositedAmount doc - consumedAmount doc /\
  0 <= currentBalance doc.

Definition storeBalanced (st : Store) : Prop :=
  forall w doc, TokenBalance st !! w = Some doc -> balanced doc.

(** A deposit, a debit against a price of 0.10, and a deposit of a
    negative amount. *)
Definition sampleOps : list Op :=
  [ RecordDeposit 0 "W" 10 "T1";
    DeductTokens 1 (PriceOracle.defaultService
                      [ {| PriceOracle.price := 1 # 10;
                           PriceOracle.timestamp := 0 |} ])
      "W" (2 # 10) chat (2 # 100);
    RecordDeposit 2 "W" (-20) "T2" ].

(** The document [deductTokens] saves. *)
Definition debited (now : Z) (doc : ITokenBalance) (amount : Q)
    (rt : RequestType) (usd : Q) : ITokenBalance :=
  {| walletAddress := walletAddress doc;
     depositedAmount := depositedAmount doc;
     consumedAmount := consumedAmount doc + amount;
     currentBalance := currentBalance doc - amount;
     lastUpdated := now;
     transactions := transactions doc ++
       [ {| tx_type := usage; tx_amount := - amount; tx_txHash := None;
            tx_timestamp := now;
            tx_metadata := Some {| md_requestType := rt; md_usdCost := usd |} |} ] |}.

(** A store in which wallet W holds one deposit of 10 tokens. *)
Definition walletWithTen : Store := snd (recordDeposit 0 "W" 10 "T1" emptyStore).

(** Every document is stored under its own wallet address. *)
Definition wellKeyed (st : Store) : Prop :=
  forall w doc, TokenBalance st !! w = Some doc -> walletAddress doc = w.

(** [txHash] appears in some wallet's transaction log. *)
Definition inLog (txHash : string) (st : Store) : Prop :=
  exists w doc t,
    TokenBalance st !! w = Some doc /\ In t (transactions doc) /\
    tx_txHash t = Some txHash.

End Ledger.

(** ** Deposit transaction verifier (transaction-verifier.service.ts) *)

Module Verifier.

Definition TOKEN_PROGRAM_ID : string := "TokenkegQfeZyiNwAJbNbGKPFXCWuBvf9Ss623VQ5DA".

(** Shapes of [getParsedTransaction]'s answer, as far as the verifier
    reads them.  An optional property is an [option]; an amount the RPC
    sends as a decimal string is the number the string denotes. *)
Record TokenAmount : Type := { ta_amount : option Q; ta_decimals : option N }.

Record ParsedInfo : Type := {
  destination : option string;
  to : option string;
  amount : option Q;
  tokenAmount : option TokenAmount;
  mint : option string;
  mintAccount : option string;
  authority : option string;
  owner : option string;
  source : option string
}.

Record Parsed : Type := { type : string; info : option ParsedInfo }.

Record Instruction : Type := { programId : string; parsed : option Parsed }.

Record UiTokenAmount : Type := { uiAmount : option Q }.

Record TokenBalanceEntry : Type := {
  accountIndex : nat;
  tb_mint : string;
  tb_owner : option string;
  uiTokenAmount : UiTokenAmount
}.

Record Meta : Type := {
  err : option string;
  preTokenBalances : option (list TokenBalanceEntry);
  postTokenBalances : option (list TokenBalanceEntry)
}.

Record ParsedTransactionWithMeta : Type := {
  meta : option Meta;
  instructions : option (list Instruction)
}.

(** Reasons the verifier reports in [error]. *)
Inductive VerifyError : Type :=
| TransactionNotFound                           (* 'Transaction not found on blockchain' *)
| TransactionFailed (err : string)              (* `Transaction failed: ...` *)
| NoTokenTransferFound                          (* 'No token transfer found to recipient ...' *)
| SenderUndetermined                            (* 'Could not determine transfer sender ...' *)
| SenderMismatch (expected got : string)        (* `Transfer sender mismatch. ...` *)
| MintMismatch (expected : string) (got : option string)
                                                (* `Token mint mismatch. ...` *)
| AmountMismatch (expected got : Q)             (* `Amount mismatch. ...` *)
| VerificationFailed (e : Error).               (* `Verification failed: ${error.message}` *)

Record VerifyResult : Type := {
  isValid : bool;
  actualAmount : option Q;
  error : option VerifyError
}.

Definition invalid (e : VerifyError) : VerifyResult :=
  {| isValid := false; actualAmount := None; error := Some e |}.

(** JavaScript truthiness of an optional string, [a || b], [a ?? b] and
    [a === s]. *)
Definition truthy (a : option string) : bool :=
  match a with
  | Some s => negb (String.eqb s "")
  | None => false
  end.

Definition or_else (a b : option string) : option string :=
  if truthy a then a else b.

Definition nullish (a b : option string) : option string :=
  match a with
  | Some _ => a
  | None => b
  end.

Definition strictEq (a : option string) (s : string) : bool :=
  match a with
  | Some x => String.eqb x s
  | None => false
  end.

(** The function's local variables. *)
Record Locals : Type := {
  tokenTransferFound : bool;
  l_actualAmount : Q;
  tokenMint : option string;
  transferAuthority : option string
}.

Definition initialLocals : Locals :=
  {| tokenTransferFound := false; l_actualAmount := 0;
     tokenMint := None; transferAuthority := None |}.

Definition isTransferType (t : string) : bool :=
  String.eqb t "transfer" || String.eqb t "transferChecked".

(** The body of the branch taken when an instruction's destination is the
    recipient. *)
Definition readTransfer (i : ParsedInfo) : Locals :=
  let rawAmount :=
    match amount i with
    | Some a => a
    | None =>
        match tokenAmount i with
        | Some ta => match ta_amount ta with Some a => a | None => 0 end
        | None => 0
        end
    end in
  let decimals :=
    match tokenAmount i with
    | Some ta =>
        match ta_decimals ta with
        | Some d => if (d =? 0)%N then 9%N else d
        | None => 9%N
        end
    | None => 9%N
    end in
  {| tokenTransferFound := true;
     l_actualAmount := rawAmount / inject_Z (10 ^ Z.of_N decimals);
     tokenMint := or_else (or_else (mint i) (mintAccount i)) None;
     transferAuthority := nullish (authority i) (nullish (owner i) (nullish (source i) None)) |}.

(** The loop over [transaction.transaction.message.instructions], which
    breaks at the first transfer to the recipient. *)
Fixpoint scanInstructions (recipient : string) (l : list Instruction) (acc : Locals)
  : result Locals :=
  match l with
  | [] => Ok acc
  | instruction :: rest =>
      if String.eqb (programId instruction) TOKEN_PROGRAM_ID then
        match parsed instruction with
        | Some p =>
            if isTransferType (type p) then
              match info p with
              | None => Throw TypeError
              | Some i =>
                  if strictEq (or_else (destination i) (to i)) recipient
                  then Ok (readTransfer i)
                  else scanInstructions recipient rest acc
              end
            else scanInstructions recipient rest acc
        | None => scanInstructions recipient rest acc
        end
      else scanInstructions recipient rest acc
  end.

Definition preBalanceOf (pre : option (list TokenBalanceEntry)) (index : nat) : Q :=
  match pre with
  | None => 0
  | Some l =>
      match List.find (fun b => Nat.eqb (accountIndex b) index) l with
      | Some b => match uiAmount (uiTokenAmount b) with Some q => q | None => 0 end
      | None => 0
      end
  end.

(** The loop over [transaction.meta.postTokenBalances], which breaks at
    the first balance owned by the recipient. *)
Fixpoint scanBalances (expectedRecipient : string) (pre : option (list TokenBalanceEntry))
    (post : list TokenBalanceEntry) (acc : Locals) : Locals :=
  match post with
  | [] => acc
  | balance :: rest =>
      if strictEq (tb_owner balance) expectedRecipient then
        let preBalance := preBalanceOf pre (accountIndex balance) in
        let postBalance :=
          match uiAmount (uiTokenAmount balance) with Some q => q | None => 0 end in
        {| tokenTransferFound := true;
           l_actualAmount := postBalance - preBalance;
           tokenMint := or_else (Some (tb_mint balance)) None;
           transferAuthority := transferAuthority acc |}
      else scanBalances expectedRecipient pre rest acc
  end.

Definition tolerance : Q := 1 # 10000.

(** Does [instruction] make the instruction loop stop: a parsed transfer
    of the token program whose destination is [recipient]? *)
Definition isTransferTo (recipient : string) (instruction : Instruction) : bool :=
  String.eqb (programId instruction) TOKEN_PROGRAM_ID &&
  match parsed instruction with
  | Some p =>
      isTransferType (type p) &&
      match info p with
      | Some i => strictEq (or_else (destination i) (to i)) recipient
      | None => false
      end
  | None => false
  end.

(** The two loops in sequence: the balances are consulted only when the
    instructions yielded nothing. *)
Definition locateTransfer (recipientPubkey expectedRecipient : string)
    (transaction : ParsedTransactionWithMeta) : result Locals :=
  match
    match instructions transaction with
    | Some l => scanInstructions recipientPubkey l initialLocals
    | None => Ok initialLocals
    end
  with
  | Throw e => Throw e
  | Ok locals =>
      if tokenTransferFound locals then Ok locals
      else
        match meta transaction with
        | Some m =>
            match postTokenBalances m with
            | Some post =>
                Ok (scanBalances expectedRecipient (preTokenBalances m) post locals)
            | None => Ok locals
            end
        | None => Ok locals
        end
  end.

(** The checks that follow the loops. *)
Definition checkTransfer (locals : Locals) (expectedAmount : option Q)
    (expectedTokenMint : option string) (expectedSender : option string)
  : VerifyResult :=
  if negb (tokenTransferFound locals) then invalid NoTokenTransferFound
  else if truthy expectedSender && negb (truthy (transferAuthority locals))
  then invalid SenderUndetermined
  else if truthy expectedSender
          && negb (strictEq (transferAuthority locals) (default "" expectedSender))
  then invalid (SenderMismatch (default "" expectedSender)
                  (default "" (transferAuthority locals)))
  else if truthy expectedTokenMint
          && negb (strictEq (tokenMint locals) (default "" expectedTokenMint))
  then invalid (MintMismatch (default "" expectedTokenMint) (tokenMint locals))
  else
    match expectedAmount with
    | Some expected =>
        if Qgtb (Qabs (l_actualAmount locals - expected)) tolerance
        then invalid (AmountMismatch expected (l_actualAmount locals))
        else {| isValid := true;
                actualAmount := Some (l_actualAmount locals);
                error := None |}
    | None =>
        {| isValid := true;
           actualAmount := Some (l_actualAmount locals);
           error := None |}
    end.

Definition txError (transaction : ParsedTransactionWithMeta) : option string :=
  match meta transaction with
  | Some m => err m
  | None => None
  end.

(** What the checks test, as propositions. *)
Definition noInstructionTo (recipient : string) (transaction : ParsedTransactionWithMeta)
  : Prop :=
  forall l, instructions transaction = Some l ->
    forall i, In i l -> isTransferTo recipient i = false.

Definition noBalanceOf (expectedRecipient : string)
    (transaction : ParsedTransactionWithMeta) : Prop :=
  forall m post, meta transaction = Some m -> postTokenBalances m = Some post ->
    forall b, In b post -> strictEq (tb_owner b) expectedRecipient = false.

(** A supplied (truthy) expectation is met by the value found. *)
Definition matches (found expected : option string) : Prop :=
  truthy expected = true -> found = expected.

Definition withinTolerance (actual : Q) (expectedAmount : option Q) : Prop :=
  forall expected, expectedAmount = Some expected ->
    Qabs (actual - expected) <= tolerance.

Section WithPublicKey.

(** [new PublicKey(s).toString()]: the key's base-58 text, or the error
    the constructor throws on a malformed address. *)
Variable PublicKey : string -> result string.

(** The [try] block.  [rpc] is what
    [solanaConnection.getConnection().getParsedTransaction(...)] settled
    to. *)
Definition verifyBody (rpc : result (option ParsedTransactionWithMeta))
    (expectedRecipient : string) (expectedAmount : option Q)
    (expectedTokenMint : option string) (expectedSender : option string)
  : result VerifyResult :=
  match rpc with
  | Throw e => Throw e
  | Ok None => Ok (invalid TransactionNotFound)
  | Ok (Some transaction) =>
      match txError transaction with
      | Some e => Ok (invalid (TransactionFailed e))
      | None =>
          match PublicKey expectedRecipient with
          | Throw e => Throw e
          | Ok recipientPubkey =>
              match locateTransfer recipientPubkey expectedRecipient transaction with
              | Throw e => Throw e
              | Ok locals =>
                  Ok (checkTransfer locals expectedAmount expectedTokenMint
                        expectedSender)
              end
          end
      end
  end.

(** The whole function: the [catch] turns any thrown error into an
    invalid result. *)
Definition verifyDepositTransaction (rpc : result (option ParsedTransactionWithMeta))
    (expectedRecipient : string) (expectedAmount : option Q)
    (expectedTokenMint : option string) (expectedSender : option string)
  : VerifyResult :=
  match verifyBody rpc expectedRecipient expectedAmount expectedTokenMint expectedSender with
  | Ok r => r
  | Throw e => invalid (VerificationFailed e)
  end.

End WithPublicKey.

(** A key parser for examples: any non-empty text is its own key. *)
Definition textKey (s : string) : result string :=
  if String.eqb s "" then Throw (External "Invalid public key input") else Ok s.

(** A transaction in which the account owned by W goes from 0 to 10
    tokens of MINT, found through the balance snapshots. *)
Definition sampleDeposit : ParsedTransactionWithMeta :=
  {| meta := Some {| err := None;
                     preTokenBalances := Some [];
                     postTokenBalances :=
                       Some [ {| accountIndex := 1; tb_mint := "MINT";
                                 tb_owner := Some "W";
                                 uiTokenAmount := {| uiAmount := Some 10 |} |} ] |};
     instructions := Some [] |}.

End Verifier.

(** ** The deposit route (POST /api/token/deposit) *)

Module TokenRoutes.

Import Ledger.

(** [req.body]; [amount] is a JSON number. *)
Record DepositBody : Type := {
  b_walletAddress : option string;
  b_amount : option Q;
  b_txHash : option string
}.

Inductive Response : Type :=
| MissingFields                         (* 400 'Missing required fields: ...' *)
| VerificationRejected (details : option Verifier.VerifyError)
                                        (* 400 'Transaction verification failed' *)
| AlreadyProcessed (txHash : string)    (* 400 'Transaction has already been processed' *)
| Success (currentBalance depositedAmount : Q)   (* 200 *)
| FailedToRecord.                       (* 500 'Failed to record deposit' *)

Definition falsyAmount (a : option Q) : bool :=
  match a with
  | Some q => Qeq_bool q 0
  | None => true
  end.

Section WithPublicKey.

Variable PublicKey : string -> result string.

Definition postDeposit (now : Z) (TOKEN_MINT_ADDRESS : option string)
    (rpc : result (option Verifier.ParsedTransactionWithMeta)) (body : DepositBody)
    (st : Store) : Response * Store :=
  if negb (Verifier.truthy (b_walletAddress body)) || falsyAmount (b_amount body)
     || negb (Verifier.truthy (b_txHash body))
  then (MissingFields, st)
  else
    let walletAddress := default "" (b_walletAddress body) in
    let amount := default 0 (b_amount body) in
    let txHash := default "" (b_txHash body) in
    let verification :=
      Verifier.verifyDepositTransaction PublicKey rpc walletAddress (Some amount)
        TOKEN_MINT_ADDRESS None in
    if negb (Verifier.isValid verification)
    then (VerificationRejected (Verifier.error verification), st)
    else if existingTransaction txHash st
    then (AlreadyProcessed txHash, st)
    else
      let verifiedAmount :=
        if falsyAmount (Verifier.actualAmount verification) then amount
        else default 0 (Verifier.actualAmount verification) in
      match recordDeposit now walletAddress verifiedAmount txHash st with
      | (Ok balance, st') =>
          (Success (currentBalance balance) (depositedAmount balance), st')
      | (Throw _, st') => (FailedToRecord, st')
      end.

End WithPublicKey.

(** A response that credits nothing for [txHash]. *)
Definition rejected (txHash : string) (r : Response) : Prop :=
  r = MissingFields \/ (exists details, r = VerificationRejected details) \/
  r = AlreadyProcessed txHash.

Definition sampleBody : DepositBody :=
  {| b_walletAddress := Some "W"; b_amount := Some 10; b_txHash := Some "T1" |}.

(** The store after the sample request was served on an empty store. *)
Definition storeAfterSample : Store :=
  snd (postDeposit Verifier.textKey 0 (Some "MINT")
         (Ok (Some Verifier.sampleDeposit)) sampleBody emptyStore).

End TokenRoutes.

(** ** Settlement service (SettlementService) *)

Module Settlement.

Import Ledger.

Record SettlementService : Type := {
  tokenMintAddress : string;
  treasuryWalletAddress : string;
  backendWallet : option string;     (* public key of the loaded keypair *)
  isSettling : bool
}.

Inductive ChainInstruction : Type :=
| BurnChecked (account mint owner : string) (amount : Z) (decimals : N)
| TransferChecked (source mint destination owner : string) (amount : Z) (decimals : N).

(** A transaction as handed to [sendAndConfirmTransaction], with the
    signature the call returned. *)
Record SubmittedTransaction : Type := {
  signature : string;
  tx_instructions : list ChainInstruction;
  recentBlockhash : string;
  feePayer : string
}.

(** What the collaborators saw of the service. *)
Inductive Event : Type :=
| Find (limit : nat)                                 (* UsageRecord.find({settled:false}) *)
| Submit (tx : SubmittedTransaction)                 (* a confirmed transaction *)
| UpdateMany (recordIds : list nat) (txHash : string).

Record World : Type := {
  service : SettlementService;
  store : Store;
  trace : list Event
}.

(** Answers of the chain RPC during one [executeOnChainSettlement]. *)
Record ChainEnv : Type := {
  mintInfoDecimals : result (option N);   (* [decimals] of the parsed mint account *)
  backendAccountAmount : result Z;        (* [getAccount(...).amount] *)
  latestBlockhash : result string;
  sendAndConfirm : result string
}.

(** Answers of the collaborators during one settlement run: a store
    error for the query, if one occurs, the chain's answers, and a
    failure of the bulk update, if one occurs.  The bulk update does not
    run in a transaction: when it fails, the store may have written
    some of the matching records already; [updateError] is the error
    together with the ids written by then. *)
Record Env : Type := {
  findError : option Error;
  chainEnv : ChainEnv;
  updateError : option (Error * list nat)
}.

Definition setSettling (b : bool) (w : World) : World :=
  {| service := {| tokenMintAddress := tokenMintAddress (service w);
                   treasuryWalletAddress := treasuryWalletAddress (service w);
                   backendWallet := backendWallet (service w);
                   isSettling := b |};
     store := store w; trace := trace w |}.

Definition addEvent (e : Event) (w : World) : World :=
  {| service := service w; store := store w; trace := trace w ++ [e] |}.

Definition emit (e : Event) : M World unit :=
  fun w => (Ok tt, addEvent e w).

(** Run a store operation of the balance tracker inside the world. *)
Definition onStore {A} (c : M Store A) : M World A :=
  fun w => match c (store w) with
           | (r, st) => (r, {| service := service w; store := st; trace := trace w |})
           end.

(** [await balanceTracker.getUnsettledRecords(limit)] *)
Definition awaitUnsettledRecords (storeError : option Error) (limit : nat)
  : M World (list IUsageRecord) :=
  let* _ := emit (Find limit) in
  match storeError with
  | Some e => throw e
  | None => onStore (Ledger.getUnsettledRecords limit)
  end.

(** [await balanceTracker.markAsSettled(recordIds, txHash)] *)
Definition awaitMarkAsSettled (failure : option (Error * list nat))
    (recordIds : list nat) (txHash : string) : M World unit :=
  let* _ := emit (UpdateMany recordIds txHash) in
  match failure with
  | Some (e, written) =>
      let* _ :=
        onStore (Ledger.markAsSettled
                   (List.filter (fun i => existsb (Nat.eqb i) recordIds) written)
                   txHash) in
      throw e
  | None => onStore (Ledger.markAsSettled recordIds txHash)
  end.

Definition pow10 (decimals : N) : Q := inject_Z (10 ^ Z.of_N decimals).

(** The instructions [executeOnChainSettlement] adds to the transaction:
    a burn and a transfer to the treasury, each only for a positive
    amount, in base units of the token. *)
Definition instructionsFor (backendTokenAccount mintPublicKey treasuryTokenAccount
    backendPublicKey : string) (burnAmount treasuryAmount : Q) (tokenDecimals : N)
  : list ChainInstruction :=
  let burnAmountLamports := Qfloor (burnAmount * pow10 tokenDecimals) in
  let treasuryAmountLamports := Qfloor (treasuryAmount * pow10 tokenDecimals) in
  (if Qgtb burnAmount 0
   then [BurnChecked backendTokenAccount mintPublicKey backendPublicKey
           burnAmountLamports tokenDecimals]
   else []) ++
  (if Qgtb treasuryAmount 0
   then [TransferChecked backendTokenAccount mintPublicKey treasuryTokenAccount
           backendPublicKey treasuryAmountLamports tokenDecimals]
   else []).

Section WithChainLibrary.

Variable PublicKey : string -> result string.
Variable getAssociatedTokenAddress : string -> string -> result string.

(** The inner [try] of [executeOnChainSettlement]; whatever it throws is
    rethrown as `Settlement failed: ...`. *)
Definition onChainTry (env : ChainEnv) (mintPublicKey treasuryPublicKey
    backendPublicKey : string) (burnAmount treasuryAmount : Q) : M World string :=
  let* backendTokenAccount :=
    lift (getAssociatedTokenAddress mintPublicKey backendPublicKey) in
  let* treasuryTokenAccount :=
    lift (getAssociatedTokenAddress mintPublicKey treasuryPublicKey) in
  let tokenDecimals :=
    match mintInfoDecimals env with
    | Ok (Some d) => if (d =? 0)%N then 9%N else d
    | _ => 9%N
    end in
  let* backendBalance :=
    match backendAccountAmount env with
    | Ok a => ret (inject_Z a / pow10 tokenDecimals)
    | Throw _ => throw BackendAccountNotFound
    end in
  let totalNeeded := burnAmount + treasuryAmount in
  if Qltb backendBalance totalNeeded
  then throw (InsufficientBackendBalance totalNeeded backendBalance)
  else
    let transaction :=
      instructionsFor backendTokenAccount mintPublicKey treasuryTokenAccount
        backendPublicKey burnAmount treasuryAmount tokenDecimals in
    let* blockhash := lift (latestBlockhash env) in
    let* signature := lift (sendAndConfirm env) in
    let* _ := emit (Submit {| signature := signature;
                              tx_instructions := transaction;
                              recentBlockhash := blockhash;
                              feePayer := backendPublicKey |}) in
    ret signature.

Definition executeOnChainSettlement (env : ChainEnv) (burnAmount treasuryAmount : Q)
  : M World string :=
  fun w =>
    match backendWallet (service w) with
    | None => (Throw BackendWalletNotLoaded, w)
    | Some backendPublicKey =>
        if String.eqb (tokenMintAddress (service w)) ""
        then (Throw MintNotConfigured, w)
        else if String.eqb (treasuryWalletAddress (service w)) ""
        then (Throw TreasuryNotConfigured, w)
        else
          match PublicKey (tokenMintAddress (service w)) with
          | Throw e => (Throw e, w)
          | Ok mintPublicKey =>
              match PublicKey (treasuryWalletAddress (service w)) with
              | Throw e => (Throw e, w)
              | Ok treasuryPublicKey =>
                  match onChainTry env mintPublicKey treasuryPublicKey
                          backendPublicKey burnAmount treasuryAmount w with
                  | (Ok signature, w') => (Ok signature, w')
                  | (Throw e, w') => (Throw (SettlementFailed e), w')
                  end
              end
          end
    end.

(** The [try] block of [executeBatchSettlement]. *)
Definition settlementTry (env : Env) : M World unit :=
  let* unsettledRecords := awaitUnsettledRecords (findError env) 100 in
  if (length unsettledRecords =? 0)%nat then ret tt
  else
    let totalTokens := reduce_sum tokensBurned unsettledRecords in
    let burnAmount := totalTokens / 2 in
    let treasuryAmount := totalTokens / 2 in
    let* txHash := executeOnChainSettlement (chainEnv env) burnAmount treasuryAmount in
    let recordIds := map _id unsettledRecords in
    awaitMarkAsSettled (updateError env) recordIds txHash.

(** [executeBatchSettlement], run from its first line to its return with
    no other call in between. *)
Definition executeBatchSettlement (env : Env) : M World unit :=
  fun w =>
    if isSettling (service w) then (Ok tt, w)
    else
      match settlementTry env (setSettling true w) with
      | (r, w') => (r, setSettling false w')
      end.

Definition checkAndSettleIfNeeded (checkError : option Error) (env : Env)
    (threshold : Q) : M World bool :=
  let* unsettledRecords := awaitUnsettledRecords checkError 1000 in
  let pendingAmount := reduce_sum tokensBurned unsettledRecords in
  if Qgeb pendingAmount threshold then
    let* _ := executeBatchSettlement env in
    ret true
  else ret false.

(** *** One call of [executeBatchSettlement] as a task

    The call between two of its [await]s is one step; between steps any
    other call may run.  A task is what remains of a call. *)
Inductive Task : Type :=
| Start
| AwaitRecords
| AwaitChain (unsettledRecords : list IUsageRecord) (burnAmount treasuryAmount : Q)
| AwaitMark (unsettledRecords : list IUsageRecord) (txHash : string)
| Done (r : result unit).

(** Leave the [try]: the [finally] clears the flag. *)
Definition finish (r : result unit) (w : World) : Task * World :=
  (Done r, setSettling false w).

Definition step (env : Env) (t : Task) (w : World) : Task * World :=
  match t with
  | Start =>
      if isSettling (service w) then (Done (Ok tt), w)
      else (AwaitRecords, setSettling true w)
  | AwaitRecords =>
      match awaitUnsettledRecords (findError env) 100 w with
      | (Throw e, w') => finish (Throw e) w'
      | (Ok unsettledRecords, w') =>
          if (length unsettledRecords =? 0)%nat then finish (Ok tt) w'
          else
            let totalTokens := reduce_sum tokensBurned unsettledRecords in
            (AwaitChain unsettledRecords (totalTokens / 2) (totalTokens / 2), w')
      end
  | AwaitChain unsettledRecords burnAmount treasuryAmount =>
      match executeOnChainSettlement (chainEnv env) burnAmount treasuryAmount w with
      | (Throw e, w') => finish (Throw e) w'
      | (Ok txHash, w') => (AwaitMark unsettledRecords txHash, w')
      end
  | AwaitMark unsettledRecords txHash =>
      match awaitMarkAsSettled (updateError env) (map _id unsettledRecords) txHash w with
      | (r, w') => finish r w'
      end
  | Done r => (Done r, w)
  end.

Definition running (t : Task) : bool :=
  match t with
  | AwaitRecords | AwaitChain _ _ _ | AwaitMark _ _ => true
  | Start | Done _ => false
  end.

Definition finished (t : Task) : bool :=
  match t with
  | Done _ => true
  | _ => false
  end.

(** Several calls in flight and a schedule: which call takes its next
    step, and what the collaborators answer during that step. *)
Definition stepAt (i : nat) (env : Env) (sys : list Task * World) : list Task * World :=
  match fst sys !! i with
  | Some t =>
      match step env t (snd sys) with
      | (t', w') => (<[i := t']> (fst sys), w')
      end
  | None => sys
  end.

Definition runSchedule (schedule : list (nat * Env)) (sys : list Task * World)
  : list Task * World :=
  fold_left (fun s ie => stepAt (fst ie) (snd ie) s) schedule sys.

Definition countRunning (tasks : list Task) : nat :=
  length (List.filter running tasks).

End WithChainLibrary.

(** The flag is set exactly while one call is in flight, and at most one
    call is in flight. *)
Definition guarded (sys : list Task * World) : Prop :=
  countRunning (fst sys) = if isSettling (service (snd sys)) then 1%nat else 0%nat.

(** What a settlement run leaves of a record of the store: settled with
    the transaction id if its id was fetched, untouched otherwise. *)
Definition markedBy (recordIds : list nat) (txHash : string)
    (old new : IUsageRecord) : Prop :=
  (In (_id old) recordIds /\ new = settledWith txHash old) \/
  (~ In (_id old) recordIds /\ new = old).

(** Worlds and chain answers for examples. *)
Definition readyService : SettlementService :=
  {| tokenMintAddress := "MINT"; treasuryWalletAddress := "TREASURY";
     backendWallet := Some "BACKEND"; isSettling := false |}.

Definition worldOf (records : list IUsageRecord) : World :=
  {| service := readyService;
     store := {| TokenBalance := ∅; UsageRecord := records;
                 nextId := length records |};
     trace := [] |}.

Definition unitRecord (i : nat) : IUsageRecord :=
  {| _id := i; ur_walletAddress := "W"; requestType := chat;
     usdCost := 1 # 100; tokenPrice := 1 # 10; tokensBurned := 1;
     ur_timestamp := Z.of_nat i; settled := false; ur_txHash := None |}.

Definition unitRecords (n : nat) : list IUsageRecord := map unitRecord (seq 0 n).

Definition goodChain : ChainEnv :=
  {| mintInfoDecimals := Ok (Some 9%N);
     backendAccountAmount := Ok 1000000000000000%Z;
     latestBlockhash := Ok "BLOCKHASH";
     sendAndConfirm := Ok "SIG" |}.

Definition goodEnv : Env :=
  {| findError := None; chainEnv := goodChain; updateError := None |}.

Definition ataOf (mint owner : string) : result string :=
  Ok (String.append owner (String.append "/" mint)).

End Settlement.

(** ** The price feed: fetching, pruning and reading the cache
       (the rest of price-oracle.service.ts) *)

Module PriceFeed.

Import PriceOracle.

(** What the request to the price API came to, as far as
    [fetchCurrentPrice] tells the cases apart. *)
Inductive ApiAnswer : Type :=
| RequestFailed (e : Error)   (* [axios.get] rejected *)
| EmptyBody                   (* [!response.data] *)
| NoEntryForMint              (* no entry for the mint in the body *)
| NoPriceField                (* neither [usdPrice] nor [price] *)
| NotANumber                  (* [parseFloat] gave NaN *)
| Price (price : Q).          (* [parseFloat(priceValue)] *)

Definition cacheExpiryMs : Z := 60000.

Definition setCache (cache : list PriceEntry) (o : PriceOracleService)
  : PriceOracleService :=
  {| priceCache := cache; twapWindowMinutes := twapWindowMinutes o;
     burnFloor := burnFloor o; burnCeiling := burnCeiling o |}.

(** Keep the entries younger than twice the TWAP window. *)
Definition cleanCache (now : Z) (o : PriceOracleService) : PriceOracleService :=
  setCache
    (List.filter (fun entry => (now - timestamp entry <=? windowMs o * 2)%Z)
       (priceCache o))
    o.

(** The [try] block of [fetchCurrentPrice] up to the validated price. *)
Definition parseAnswer (tokenMintAddress : string) (answer : ApiAnswer) : result Q :=
  if String.eqb tokenMintAddress "" then Throw MintNotConfigured
  else
    match answer with
    | RequestFailed e => Throw e
    | EmptyBody => Throw (External "No data received from Jupiter API")
    | NoEntryForMint =>
        Throw (External (String.append "Price data not found for token: "
                           tokenMintAddress))
    | NoPriceField => Throw (External "Price field missing in Jupiter API response")
    | NotANumber => Throw (External "Invalid price value")
    | Price price =>
        if Qle_bool price 0 then Throw (External "Invalid price value")
        else Ok price
    end.

(** [fetchCurrentPrice] reads the clock twice: [stamped] is the
    [Date.now()] that dates the new sample, [cleaned] the one inside
    [cleanCache]. *)
Definition fetchCurrentPrice (stamped cleaned : Z) (tokenMintAddress : string)
    (answer : ApiAnswer) (o : PriceOracleService) : result Q * PriceOracleService :=
  match parseAnswer tokenMintAddress answer with
  | Ok price =>
      (Ok price,
       cleanCache cleaned
         (setCache (priceCache o ++ [ {| price := price; timestamp := stamped |} ]) o))
  | Throw error =>
      match last (priceCache o) with
      | Some entry => (Ok (PriceOracle.price entry), o)
      | None => (Throw error, o)
      end
  end.

Definition getCachedPrice (now : Z) (o : PriceOracleService) : option Q :=
  match last (priceCache o) with
  | None => None
  | Some lastEntry =>
      let age := (now - timestamp lastEntry)%Z in
      if (age >? cacheExpiryMs)%Z then None else Some (price lastEntry)
  end.

(** [initialize]: the first fetch, whose error is logged and dropped. *)
Definition initialize (stamped cleaned : Z) (tokenMintAddress : string)
    (answer : ApiAnswer) (o : PriceOracleService) : PriceOracleService :=
  snd (fetchCurrentPrice stamped cleaned tokenMintAddress answer o).

(** A sequence of fetches, each with its two clock reads and the API's
    answer. *)
Definition fetchAll (tokenMintAddress : string) (fetches : list (Z * Z * ApiAnswer))
    (o : PriceOracleService) : PriceOracleService :=
  fold_left (fun o' f =>
               let '(stamped, cleaned, answer) := f in
               snd (fetchCurrentPrice stamped cleaned tokenMintAddress answer o'))
    fetches o.

(** Every cached price is positive. *)
Definition positivePrices (o : PriceOracleService) : Prop :=
  Forall (fun entry => 0 < price entry) (priceCache o).

(** GET /api/token/price: the cached price if fresh, a fetched one
    otherwise, and the TWAP.  The clock is read by [getCachedPrice]
    ([now]), by the fetch ([stamped], [cleaned]) and by [getTWAPPrice]
    ([later]). *)
Inductive PriceResponse : Type :=
| PriceOk (currentPrice twapPrice : Q)     (* 200 *)
| PriceFailed.                             (* 500 'Failed to fetch token price' *)

Definition getPrice (now stamped cleaned later : Z) (tokenMintAddress : string)
    (answer : ApiAnswer) (o : PriceOracleService) : PriceResponse * PriceOracleService :=
  let cached := getCachedPrice now o in
  let fetched :=
    match cached with
    | Some p => if Qeq_bool p 0
                then fetchCurrentPrice stamped cleaned tokenMintAddress answer o
                else (Ok p, o)
    | None => fetchCurrentPrice stamped cleaned tokenMintAddress answer o
    end in
  match fetched with
  | (Throw _, o') => (PriceFailed, o')
  | (Ok price, o') =>
      match getTWAPPrice later o' with
      | Ok twapPrice => (PriceOk price twapPrice, o')
      | Throw _ => (PriceFailed, o')
      end
  end.

End PriceFeed.

(** ** The balance tracker's other queries *)

Module LedgerQueries.

Import Ledger.

(** [.sort({ timestamp: -1 })]: newest first; records with equal
    timestamps keep their insertion order. *)
Fixpoint insertNewestFirst (r : IUsageRecord) (l : list IUsageRecord)
  : list IUsageRecord :=
  match l with
  | [] => [r]
  | x :: l' =>
      if (ur_timestamp x <=? ur_timestamp r)%Z then r :: l
      else x :: insertNewestFirst r l'
  end.

Definition sortNewestFirst (l : list IUsageRecord) : list IUsageRecord :=
  fold_right insertNewestFirst [] l.

(** [UsageRecord.find({ walletAddress }).sort({ timestamp: -1 }).limit(limit)] *)
Definition getUsageHistory (walletAddress : string) (limit : nat)
  : M Store (list IUsageRecord) :=
  fun st =>
    (Ok (take limit
           (sortNewestFirst
              (List.filter (fun r => String.eqb (ur_walletAddress r) walletAddress)
                 (UsageRecord st)))),
     st).

Record TotalStats : Type := {
  totalDeposited : Q;
  totalConsumed : Q;
  totalUsers : nat
}.

Definition documents (st : Store) : list ITokenBalance :=
  map snd (map_to_list (TokenBalance st)).

(** The [$group] aggregation over all wallet documents; no document, no
    group, and the zero answer. *)
Definition getTotalStats : M Store TotalStats :=
  fun st =>
    let docs := documents st in
    if (length docs =? 0)%nat
    then (Ok {| totalDeposited := 0; totalConsumed := 0; totalUsers := 0 |}, st)
    else (Ok {| totalDeposited := Qsum (map depositedAmount docs);
                totalConsumed := Qsum (map consumedAmount docs);
                totalUsers := length docs |}, st).

(** Ascending by timestamp. *)
Fixpoint oldestFirst (l : list IUsageRecord) : Prop :=
  match l with
  | [] => True
  | x :: r => Forall (fun y => (ur_timestamp x <= ur_timestamp y)%Z) r /\ oldestFirst r
  end.

Fixpoint newestFirst (l : list IUsageRecord) : Prop :=
  match l with
  | [] => True
  | x :: r => Forall (fun y => (ur_timestamp y <= ur_timestamp x)%Z) r /\ newestFirst r
  end.

(** The wallet an operation is about. *)
Definition opWallet (op : Op) : string :=
  match op with
  | GetBalance _ w => w
  | RecordDeposit _ w _ _ => w
  | DeductTokens _ _ w _ _ _ => w
  end.

(** What an operation on wallet [w] may do to the collection of wallet
    documents: nothing, or replace [w]'s document by one that carries
    [w]'s address and extends the log [w] had. *)
Definition touchesOnly (w : string) (before after : gmap string ITokenBalance) : Prop :=
  after = before \/
  exists doc',
    after = <[w := doc']> before /\ walletAddress doc' = w /\
    forall doc, before !! w = Some doc ->
      exists suffix, transactions doc' = transactions doc ++ suffix.

(** [new] is [old] except, possibly, for the settled flag and the
    transaction id, and a settled [old] stays settled. *)
Definition sameButSettled (old new : IUsageRecord) : Prop :=
  _id new = _id old /\ ur_walletAddress new = ur_walletAddress old /\
  requestType new = requestType old /\ usdCost new = usdCost old /\
  tokenPrice new = tokenPrice old /\ tokensBurned new = tokensBurned old /\
  ur_timestamp new = ur_timestamp old /\
  (settled old = true -> settled new = true).

(** Every stored document satisfies the schema's validators. *)
Definition storeValid (st : Store) : Prop :=
  forall w doc, TokenBalance st !! w = Some doc -> validateTokenBalance doc = Ok tt.

End LedgerQueries.

(** ** The settlement service's other entry points *)

Module SettlementMore.

Import Ledger LedgerQueries Settlement.

Record SettlementStats : Type := {
  totalBurned : Q;
  totalToTreasury : Q;
  pendingSettlement : Q
}.

Definition getSettlementStats (storeError : option Error) : M World SettlementStats :=
  let* unsettled := awaitUnsettledRecords storeError 1000 in
  let pendingSettlement := reduce_sum tokensBurned unsettled in
  let* stats := onStore getTotalStats in
  ret {| totalBurned := totalConsumed stats / 2;
         totalToTreasury := totalConsumed stats / 2;
         pendingSettlement := pendingSettlement |}.



Section WithChainLibrary.

Variable PublicKey : string -> result string.
Variable getAssociatedTokenAddress : string -> string -> result string.

Definition triggerManualSettlement (env : Env) : M World unit :=
  executeBatchSettlement PublicKey getAssociatedTokenAddress env.

(** server.ts, [initializeAutomatedSettlement]: the body of the timer
    that checks the threshold every five minutes, with its [catch], which
    only logs.  [checkError] is the store's error for the query, if one
    occurs. *)
Definition automatedSettlementCheck (checkError : option Error) (env : Env)
    (thresholdTokens : Q) : M World unit :=
  fun w =>
    match
      (let* unsettledRecords := awaitUnsettledRecords checkError 1000 in
       let pendingAmount := reduce_sum tokensBurned unsettledRecords in
       if Qgeb pendingAmount thresholdTokens
       then triggerManualSettlement env
       else ret tt) w
    with
    | (_, w') => (Ok tt, w')
    end.

(** The body of the timer that settles every [intervalMinutes]. *)
Definition scheduledSettlement (env : Env) : M World unit :=
  fun w =>
    match executeBatchSettlement PublicKey getAssociatedTokenAddress env w with
    | (_, w') => (Ok tt, w')
    end.

End WithChainLibrary.

End SettlementMore.

(** ** The chat route (POST /api/chat/message) *)

Module ChatRoutes.

Import PriceOracle Ledger.

(** [req.body], after the [verifyWallet] middleware let the request
    through. *)
Record MessageBody : Type := {
  message : option string;
  m_walletAddress : option string;
  modelType : option string
}.

Record LLMResponse : Type := {
  content : string;
  inputTokens : nat;
  outputTokens : nat;
  model : string;
  provider : string
}.

(** [llmService], as far as the route calls it. *)
Record LLMService : Type := {
  isModelAvailable : string -> bool;
  generateResponse : string -> string -> result LLMResponse
}.

Inductive ChatResponse : Type :=
| MessageRequired                                  (* 400 'Message is required' *)
| WalletAddressRequired                            (* 400 'Wallet address is required' *)
| InsufficientTokens (required available costUsd : Q)        (* 402 *)
| ModelNotAvailable (selectedModelType : string)   (* 400 *)
| Reply (reply : string) (cost costUsd remainingBalance : Q) (* 200 *)
| ServerError (details : Error).                   (* 500 'Server error' *)

(** The handler.  [now] and [oracle] are the clock and the price oracle
    when the cost is estimated and the balance checked; the handler then
    awaits the language model, during which the price refresh timer may
    run: [now1] and [oracle1] are the clock and the oracle when the cost
    is calculated again, [now2] and [oracle2] when [deductTokens] runs. *)
Definition postMessage (DEFAULT_CHAT_COST_USD : Q)
    (now : Z) (oracle : PriceOracleService)
    (now1 : Z) (oracle1 : PriceOracleService)
    (now2 : Z) (oracle2 : PriceOracleService)
    (llmService : LLMService) (body : MessageBody) (st : Store)
  : ChatResponse * Store :=
  if negb (Verifier.truthy (message body)) then (MessageRequired, st)
  else if negb (Verifier.truthy (m_walletAddress body)) then (WalletAddressRequired, st)
  else
    let walletAddress := default "" (m_walletAddress body) in
    match calculateTokenBurn now oracle DEFAULT_CHAT_COST_USD with
    | Throw error => (ServerError error, st)
    | Ok requiredTokens =>
        match hasSufficientBalance now walletAddress requiredTokens st with
        | (Throw error, st1) => (ServerError error, st1)
        | (Ok false, st1) =>
            match getBalance now walletAddress st1 with
            | (Throw error, st2) => (ServerError error, st2)
            | (Ok balance, st2) =>
                (InsufficientTokens requiredTokens (currentBalance balance)
                   DEFAULT_CHAT_COST_USD, st2)
            end
        | (Ok true, st1) =>
            let selectedModelType :=
              if Verifier.truthy (modelType body) then default "" (modelType body)
              else "cheap" in
            if negb (isModelAvailable llmService selectedModelType)
            then (ModelNotAvailable selectedModelType, st1)
            else
              match generateResponse llmService (default "" (message body))
                      selectedModelType with
              | Throw error => (ServerError error, st1)
              | Ok llmResponse =>
                  let actualCostUsd := DEFAULT_CHAT_COST_USD in
                  match calculateTokenBurn now1 oracle1 actualCostUsd with
                  | Throw error => (ServerError error, st1)
                  | Ok actualRequiredTokens =>
                      match deductTokens now2 oracle2 walletAddress
                              actualRequiredTokens chat actualCostUsd st1 with
                      | (Throw error, st2) => (ServerError error, st2)
                      | (Ok updatedBalance, st2) =>
                          (Reply (content llmResponse) actualRequiredTokens
                             actualCostUsd (currentBalance updatedBalance), st2)
                      end
                  end
              end
        end
    end.

(** What a request that is not served may do to the store: nothing, or
    create the wallet's empty document. *)
Definition atMostCreated (now : Z) (w : string) (st st' : Store) : Prop :=
  UsageRecord st' = UsageRecord st /\ nextId st' = nextId st /\
  (TokenBalance st' = TokenBalance st \/
   (TokenBalance st !! w = None /\
    TokenBalance st' = <[w := zeroBalance now w]> (TokenBalance st))).

(** A language model for examples. *)
Definition echo : LLMService :=
  {| isModelAvailable := fun _ => true;
     generateResponse := fun message modelType =>
       Ok {| content := message; inputTokens := 1; outputTokens := 1;
             model := modelType; provider := "echo" |} |}.

End ChatRoutes.

(** ** The other deposit routes (POST /api/token/deposit/pay and
       POST /api/token/deposit/scan) *)

Module DepositRoutes.

Import Ledger TokenRoutes.

Inductive PayResponse : Type :=
| PayMissingFields                      (* 400 'Missing required fields: ...' *)
| PayNotConfigured                      (* 503 'Token or treasury not configured' *)
| PayVerificationRejected (details : option Verifier.VerifyError)
                                        (* 400 'Transaction verification failed' *)
| PayAlreadyProcessed (txHash : string) (* 400 'Transaction has already been processed' *)
| PaySuccess (currentBalance depositedAmount : Q)   (* 200 *)
| PayFailedToRecord.                    (* 500 'Failed to record deposit' *)

Inductive ScanResponse : Type :=
| ScanInvalidWallet                     (* 400 'Missing or invalid walletAddress' *)
| ScanNotConfigured                     (* 503 'Token mint not configured' *)
| Scanned (credited : list (string * Q)) (alreadyProcessed : nat)   (* 200 *)
| ScanFailed (details : Error).         (* 500 'Failed to scan deposits' *)

(** [s.includes(needle)] *)
Definition includes (needle s : string) : bool :=
  match String.index 0 needle s with
  | Some _ => true
  | None => false
  end.

(** [error.message?.includes('could not find account')]: only an error
    raised by a collaborator carries a text of its own. *)
Fixpoint couldNotFindAccount (error : Error) : bool :=
  match error with
  | External message => includes "could not find account" message
  | SettlementFailed cause => couldNotFindAccount cause
  | _ => false
  end.

(** [req.body.amount] may be any JSON value.  The routes test it for
    truthiness and read it with [parseFloat], whose answer is a number
    or NaN (here [None]); a text that [parseFloat] reads as an infinity
    is left out. *)
Inductive BodyAmount : Type :=
| Falsy                             (* absent, null, 0, false, the empty text *)
| Truthy (parseFloat : option Q).   (* 12.5 and '12.5 tokens' read as 12.5; 'abc' and true as NaN *)

Record RequestBody : Type := {
  r_walletAddress : option string;
  r_amount : BodyAmount;
  r_txHash : option string
}.

(** The request whose amount is the JSON number of [body]. *)
Definition ofDepositBody (body : DepositBody) : RequestBody :=
  {| r_walletAddress := b_walletAddress body;
     r_amount := if falsyAmount (b_amount body) then Falsy else Truthy (b_amount body);
     r_txHash := b_txHash body |}.

Section WithChainLibrary.

Variable PublicKey : string -> result string.
Variable getAssociatedTokenAddress : string -> string -> result string.

(** [balanceTracker.recordDeposit(walletAddress, NaN, txHash)]: what
    the store's number type makes of NaN is not in the source. *)
Variable recordDepositNaN : Z -> string -> string -> M Store ITokenBalance.

(** [recordDeposit] with the amount the route has arrived at. *)
Definition recordVerified (now : Z) (walletAddress : string)
    (verifiedAmount : option Q) (txHash : string) : M Store ITokenBalance :=
  match verifiedAmount with
  | Some amount => recordDeposit now walletAddress amount txHash
  | None => recordDepositNaN now walletAddress txHash
  end.

(** POST /api/token/deposit, for any body.  [Math.abs(actualAmount -
    NaN) > tolerance] is false, so that the verifier called with NaN
    answers as it does when called without an expected amount. *)
Definition postDepositRequest (now : Z) (TOKEN_MINT_ADDRESS : option string)
    (rpc : result (option Verifier.ParsedTransactionWithMeta)) (body : RequestBody)
    (st : Store) : Response * Store :=
  match r_amount body with
  | Falsy => (MissingFields, st)
  | Truthy parsed =>
      if negb (Verifier.truthy (r_walletAddress body))
         || negb (Verifier.truthy (r_txHash body))
      then (MissingFields, st)
      else
        let walletAddress := default "" (r_walletAddress body) in
        let txHash := default "" (r_txHash body) in
        let verification :=
          Verifier.verifyDepositTransaction PublicKey rpc walletAddress parsed
            TOKEN_MINT_ADDRESS None in
        if negb (Verifier.isValid verification)
        then (VerificationRejected (Verifier.error verification), st)
        else if existingTransaction txHash st
        then (AlreadyProcessed txHash, st)
        else
          let verifiedAmount :=
            if falsyAmount (Verifier.actualAmount verification) then parsed
            else Verifier.actualAmount verification in
          match recordVerified now walletAddress verifiedAmount txHash st with
          | (Ok balance, st') =>
              (Success (currentBalance balance) (depositedAmount balance), st')
          | (Throw _, st') => (FailedToRecord, st')
          end
  end.

(** [const treasuryPk = new PublicKey(treasuryWallet);
     const mintPk = new PublicKey(tokenMint);
     const treasuryAta = await getAssociatedTokenAddress(mintPk, treasuryPk);] *)
Definition treasuryAtaOf (tokenMint treasuryWallet : string) : result string :=
  match PublicKey treasuryWallet with
  | Throw e => Throw e
  | Ok treasuryPk =>
      match PublicKey tokenMint with
      | Throw e => Throw e
      | Ok mintPk => getAssociatedTokenAddress mintPk treasuryPk
      end
  end.

Definition postDepositPay (now : Z)
    (TOKEN_MINT_ADDRESS TREASURY_WALLET_ADDRESS : option string)
    (rpc : result (option Verifier.ParsedTransactionWithMeta)) (body : RequestBody)
    (st : Store) : PayResponse * Store :=
  match r_amount body with
  | Falsy => (PayMissingFields, st)
  | Truthy parsed =>
      if negb (Verifier.truthy (r_walletAddress body))
         || negb (Verifier.truthy (r_txHash body))
      then (PayMissingFields, st)
      else
        let walletAddress := default "" (r_walletAddress body) in
        let txHash := default "" (r_txHash body) in
        if negb (Verifier.truthy TOKEN_MINT_ADDRESS)
           || negb (Verifier.truthy TREASURY_WALLET_ADDRESS)
        then (PayNotConfigured, st)
        else
          let tokenMint := default "" TOKEN_MINT_ADDRESS in
          let treasuryWallet := default "" TREASURY_WALLET_ADDRESS in
          match treasuryAtaOf tokenMint treasuryWallet with
          | Throw _ => (PayFailedToRecord, st)
          | Ok treasuryAta =>
              let verification :=
                Verifier.verifyDepositTransaction PublicKey rpc treasuryAta parsed
                  (Some tokenMint) (Some walletAddress) in
              if negb (Verifier.isValid verification)
              then (PayVerificationRejected (Verifier.error verification), st)
              else if existingTransaction txHash st
              then (PayAlreadyProcessed txHash, st)
              else
                let verifiedAmount :=
                  match Verifier.actualAmount verification with
                  | Some actual => Some actual
                  | None => parsed
                  end in
                match recordVerified now walletAddress verifiedAmount txHash st with
                | (Ok balance, st') =>
                    (PaySuccess (currentBalance balance) (depositedAmount balance), st')
                | (Throw _, st') => (PayFailedToRecord, st')
                end
          end
  end.

(** The verification the scan runs on a signature: the wallet as
    recipient, no expected amount, the configured mint. *)
Definition scanVerification
    (getParsedTransaction : string -> result (option Verifier.ParsedTransactionWithMeta))
    (walletAddress tokenMint signature : string) : Verifier.VerifyResult :=
  Verifier.verifyDepositTransaction PublicKey (getParsedTransaction signature)
    walletAddress None (Some tokenMint) None.

(** [!verification.isValid || verification.actualAmount == null
     || verification.actualAmount <= 0] *)
Definition notCreditable (verification : Verifier.VerifyResult) : bool :=
  negb (Verifier.isValid verification)
  || match Verifier.actualAmount verification with
     | None => true
     | Some actual => Qle_bool actual 0
     end.

(** The loop over the signatures.  [clock i] is the time at which the
    [i]-th signature is handled. *)
Fixpoint creditNew (clock : nat -> Z)
    (getParsedTransaction : string -> result (option Verifier.ParsedTransactionWithMeta))
    (walletAddress tokenMint : string) (i : nat) (sigs : list string)
    (credited : list (string * Q)) (alreadyProcessed : nat)
  : M Store (list (string * Q) * nat) :=
  fun st =>
    match sigs with
    | [] => (Ok (credited, alreadyProcessed), st)
    | signature :: rest =>
        if existingTransaction signature st
        then creditNew clock getParsedTransaction walletAddress tokenMint (S i) rest
               credited (S alreadyProcessed) st
        else
          let verification :=
            scanVerification getParsedTransaction walletAddress tokenMint signature in
          if notCreditable verification
          then creditNew clock getParsedTransaction walletAddress tokenMint (S i) rest
                 credited alreadyProcessed st
          else
            let actualAmount := default 0 (Verifier.actualAmount verification) in
            match recordDeposit (clock i) walletAddress actualAmount signature st with
            | (Throw e, st') => (Throw e, st')
            | (Ok _, st') =>
                creditNew clock getParsedTransaction walletAddress tokenMint (S i) rest
                  (credited ++ [(signature, actualAmount)]) alreadyProcessed st'
            end
    end.

(** What the scan's credits are like: positive amounts read off accepted
    transactions, under ids that were in no log. *)
Definition creditOf
    (getParsedTransaction : string -> result (option Verifier.ParsedTransactionWithMeta))
    (w mint : string) (st st' : Store) (p : string * Q) : Prop :=
  0 < snd p /\ ~ inLog (fst p) st /\ inLog (fst p) st' /\
  Verifier.isValid (scanVerification getParsedTransaction w mint (fst p)) = true /\
  Verifier.actualAmount (scanVerification getParsedTransaction w mint (fst p))
  = Some (snd p).

(** The [try] block from the first key on. *)
Definition scanTry (clock : nat -> Z)
    (getSignaturesForAddress : string -> nat -> result (list string))
    (getParsedTransaction : string -> result (option Verifier.ParsedTransactionWithMeta))
    (walletAddress tokenMint : string) : M Store (list (string * Q) * nat) :=
  let* mintPk := lift (PublicKey tokenMint) in
  let* walletPk := lift (PublicKey walletAddress) in
  let* userAta := lift (getAssociatedTokenAddress mintPk walletPk) in
  let* sigs := lift (getSignaturesForAddress userAta 20%nat) in
  creditNew clock getParsedTransaction walletAddress tokenMint 0 sigs [] 0.

(** [walletAddress] is [None] when the body has none or one that is not
    a string. *)
Definition postDepositScan (clock : nat -> Z) (TOKEN_MINT_ADDRESS : option string)
    (getSignaturesForAddress : string -> nat -> result (list string))
    (getParsedTransaction : string -> result (option Verifier.ParsedTransactionWithMeta))
    (walletAddress : option string) (st : Store) : ScanResponse * Store :=
  if negb (Verifier.truthy walletAddress) then (ScanInvalidWallet, st)
  else if negb (Verifier.truthy TOKEN_MINT_ADDRESS) then (ScanNotConfigured, st)
  else
    match scanTry clock getSignaturesForAddress getParsedTransaction
            (default "" walletAddress) (default "" TOKEN_MINT_ADDRESS) st with
    | (Ok (credited, alreadyProcessed), st') => (Scanned credited alreadyProcessed, st')
    | (Throw error, st') =>
        if couldNotFindAccount error then (Scanned [] 0, st')
        else (ScanFailed error, st')
    end.

End WithChainLibrary.

(** The deposited total of a wallet, 0 when it has no document. *)
Definition depositedOf (w : string) (st : Store) : Q :=
  match TokenBalance st !! w with
  | Some doc => depositedAmount doc
  | None => 0
  end.

(** For examples: a store that rejects NaN when the document is saved. *)
Definition rejectNaN (now : Z) (walletAddress txHash : string) : M Store ITokenBalance :=
  let* balance := getBalance now walletAddress in
  throw (ValidationError "depositedAmount").

(** The sample request, and one whose amount is a text that is not a
    number. *)
Definition sampleRequest : RequestBody := ofDepositBody sampleBody.

Definition textRequest : RequestBody :=
  {| r_walletAddress := Some "W"; r_amount := Truthy None; r_txHash := Some "T1" |}.

(** An associated token account for examples. *)
Definition ataText (mint owner : string) : result string :=
  Ok (String.append owner (String.append "/" mint)).

(** A payment of 10 MINT by W into the treasury's account, as the RPC
    reports it. *)
Definition samplePayment : Verifier.ParsedTransactionWithMeta :=
  {| Verifier.meta := Some {| Verifier.err := None;
                              Verifier.preTokenBalances := None;
                              Verifier.postTokenBalances := None |};
     Verifier.instructions :=
       Some [ {| Verifier.programId := Verifier.TOKEN_PROGRAM_ID;
                 Verifier.parsed :=
                   Some {| Verifier.type := "transferChecked";
                           Verifier.info :=
                             Some {| Verifier.destination := Some "TREASURY/MINT";
                                     Verifier.to := None;
                                     Verifier.amount := None;
                                     Verifier.tokenAmount :=
                                       Some {| Verifier.ta_amount := Some 10000000;
                                               Verifier.ta_decimals := Some 6%N |};
                                     Verifier.mint := Some "MINT";
                                     Verifier.mintAccount := None;
                                     Verifier.authority := Some "W";
                                     Verifier.owner := None;
                                     Verifier.source := None |} |} |} ] |}.

End DepositRoutes.

(** ** IEEE 754 binary64 arithmetic on the rationals

    A finite double is a rational [m * 2^e] with [|m| < 2^53] and
    [e >= -1074].  An operation of the JavaScript engine on finite doubles
    returns the exact result rounded to the nearest such rational, ties
    to the one with an even [m]; the exponent is not bounded from above
    here (no overflow to infinity). *)

Module Binary64.

Definition precision : Z := 53.
Definition minExponent : Z := (-1074)%Z.

(** [2^e] for any integer [e]. *)
Definition pow2 (e : Z) : Q :=
  if (0 <=? e)%Z then inject_Z (2 ^ e) else 1 # Z.to_pos (2 ^ (- e)).

(** The integer nearest to a non-negative rational, the even one of two
    nearest. *)
Definition nearestEven (x : Q) : Z :=
  let n := Qnum x in
  let d := Zpos (Qden x) in
  let q := (n / d)%Z in
  let r := (n mod d)%Z in
  match (2 * r ?= d)%Z with
  | Lt => q
  | Gt => (q + 1)%Z
  | Eq => if Z.even q then q else (q + 1)%Z
  end.

(** The exponent [e] of the doubles around a positive [x]:
    [2^52 <= x / 2^e < 2^53], or [minExponent] for a subnormal [x]. *)
Definition exponentOf (x : Q) : Z :=
  let e0 := (Z.log2 (Qnum x) - Z.log2 (Zpos (Qden x)) - precision)%Z in
  let e1 := if Qle_bool (pow2 precision) (x * pow2 (- e0)) then (e0 + 1)%Z else e0 in
  Z.max e1 minExponent.

Definition roundPositive (x : Q) : Q :=
  let e := exponentOf x in
  inject_Z (nearestEven (x * pow2 (- e))) * pow2 e.

(** The double nearest to [x], in lowest terms. *)
Definition round64 (x : Q) : Q :=
  Qred (match Qnum x with
        | Z0 => 0
        | Zpos _ => roundPositive x
        | Zneg _ => - roundPositive (- x)
        end).

Definition add (x y : Q) : Q := round64 (x + y).
Definition sub (x y : Q) : Q := round64 (x - y).
Definition mul (x y : Q) : Q := round64 (x * y).
Definition div (x y : Q) : Q := round64 (x / y).

(** [array.reduce((sum, x) => sum + f(x), 0)] *)
Definition reduce_sum {A : Type} (f : A -> Q) (l : list A) : Q :=
  fold_left (fun sum x => add sum (f x)) l 0.

(** The same sum over the values. *)
Definition sum (l : list Q) : Q := fold_left add l 0.

(** [Math.pow(10, decimals)] *)
Definition pow10 (decimals : N) : Q := round64 (inject_Z (10 ^ Z.of_N decimals)).

(** [x] is a double. *)
Definition isDouble (x : Q) : Prop := round64 x = x.

(** *** The Standard Library's specification of binary64, for comparison *)

Definition ofZ (z : Z) : SpecFloat.spec_float :=
  SpecFloat.binary_normalize 53 1024 z 0 false.

(** The double a decimal literal [n/d] denotes, for [n] and [d] below
    [2^53]. *)
Definition toSpec (x : Q) : SpecFloat.spec_float :=
  SpecFloat.SFdiv 53 1024 (ofZ (Qnum x)) (ofZ (Zpos (Qden x))).

Definition ofSpec (f : SpecFloat.spec_float) : option Q :=
  match f with
  | SpecFloat.S754_zero _ => Some 0
  | SpecFloat.S754_finite s m e =>
      Some (Qred ((if s then - inject_Z (Zpos m) else inject_Z (Zpos m)) * pow2 e))
  | _ => None
  end.

Definition sameAs (x : Q) (f : SpecFloat.spec_float) : bool :=
  match ofSpec f with
  | Some y => Qeq_bool x y
  | None => false
  end.

(** Do the four operations here and there agree on the doubles that
    [x] and [y] denote? *)
Definition agreesAt (x y : Q) : bool :=
  sameAs (round64 x) (toSpec x) &&
  sameAs (add (round64 x) (round64 y)) (SpecFloat.SFadd 53 1024 (toSpec x) (toSpec y)) &&
  sameAs (sub (round64 x) (round64 y)) (SpecFloat.SFsub 53 1024 (toSpec x) (toSpec y)) &&
  sameAs (mul (round64 x) (round64 y)) (SpecFloat.SFmul 53 1024 (toSpec x) (toSpec y)) &&
  sameAs (div (round64 x) (round64 y)) (SpecFloat.SFdiv 53 1024 (toSpec x) (toSpec y)).

Definition sampleOperands : list Q :=
  [ 1; 2; 3; 10; 100; 1 # 10; 2 # 10; 3 # 10; 4 # 10; 6 # 10; 7 # 10; 11 # 10;
    12 # 10; 2 # 100; 5 # 100; 29 # 100; 1005 # 1000; 1 # 3; 1 # 10000;
    15 # 100; 1000000000; 9007199254740991; 4503599627370497 # 2;
    1 # 9007199254740991; 123456789 # 1000 ].

End Binary64.

(** ** The price oracle in binary64 *)

Module PriceOracle64.

Import PriceOracle.

(** [getTWAPPrice], lines 107-131, with the sum and the quotient of the
    doubles. *)
Definition getTWAPPrice (now : Z) (o : PriceOracleService) : result Q :=
  if (length (priceCache o) =? 0)%nat then Throw NoPriceData
  else
    let relevantPrices := List.filter (inWindow now o) (priceCache o) in
    if (length relevantPrices =? 0)%nat then
      match last (priceCache o) with
      | Some entry => Ok (price entry)
      | None => Throw TypeError
      end
    else
      let sum := Binary64.reduce_sum price relevantPrices in
      Ok (Binary64.div sum (inject_Z (Z.of_nat (length relevantPrices)))).

(** The arithmetic mean as double arithmetic computes it: the sum from
    0, left to right, divided by the count. *)
Definition mean (l : list Q) : Q :=
  Binary64.div (Binary64.sum l) (inject_Z (Z.of_nat (length l))).

(** The samples of the specification's example, as the doubles its
    decimals denote. *)
Definition threeSamples (t0 : Z) : list PriceEntry :=
  [ {| price := Binary64.round64 1; timestamp := t0 |};
    {| price := Binary64.round64 (11 # 10); timestamp := (t0 + 60000)%Z |};
    {| price := Binary64.round64 (12 # 10); timestamp := (t0 + 120000)%Z |} ].

End PriceOracle64.

(** ** The balance tracker in binary64 *)

Module Ledger64.

Import Ledger.

(** [recordDeposit], lines 34-53: [balance.depositedAmount += amount;
    balance.currentBalance += amount;] *)
Definition recordDeposit (now : Z) (walletAddress : string) (amount : Q)
    (txHash : string) : M Store ITokenBalance :=
  let* balance := getBalance now walletAddress in
  save now
    {| walletAddress := Ledger.walletAddress balance;
       depositedAmount := Binary64.add (depositedAmount balance) amount;
       consumedAmount := consumedAmount balance;
       currentBalance := Binary64.add (currentBalance balance) amount;
       lastUpdated := lastUpdated balance;
       transactions := transactions balance ++
         [ {| tx_type := deposit; tx_amount := amount; tx_txHash := Some txHash;
              tx_timestamp := now; tx_metadata := None |} ] |}.

(** [deductTokens], lines 58-97: [balance.consumedAmount += amount;
    balance.currentBalance -= amount;] *)
Definition deductTokens (now : Z) (priceOracle : PriceOracle.PriceOracleService)
    (walletAddress : string) (amount : Q) (requestType : RequestType) (usdCost : Q)
  : M Store ITokenBalance :=
  let* balance := getBalance now walletAddress in
  if Qltb (currentBalance balance) amount then throw InsufficientTokenBalance
  else
    let* balance :=
      save now
        {| walletAddress := Ledger.walletAddress balance;
           depositedAmount := depositedAmount balance;
           consumedAmount := Binary64.add (consumedAmount balance) amount;
           currentBalance := Binary64.sub (currentBalance balance) amount;
           lastUpdated := lastUpdated balance;
           transactions := transactions balance ++
             [ {| tx_type := usage; tx_amount := - amount; tx_txHash := None;
                  tx_timestamp := now;
                  tx_metadata := Some {| md_requestType := requestType;
                                         md_usdCost := usdCost |} |} ] |} in
    let* tokenPrice := lift (PriceOracle64.getTWAPPrice now priceOracle) in
    let* _ := create now walletAddress requestType usdCost tokenPrice amount false in
    ret balance.

Definition runOp (op : Op) (st : Store) : Store :=
  match op with
  | GetBalance now w => snd (getBalance now w st)
  | RecordDeposit now w amount txHash => snd (recordDeposit now w amount txHash st)
  | DeductTokens now oracle w amount requestType usdCost =>
      snd (deductTokens now oracle w amount requestType usdCost st)
  end.

Definition runOps (ops : list Op) (st : Store) : Store :=
  fold_left (fun s op => runOp op s) ops st.

(** No balance of the store is negative. *)
Definition storeNonNegative (st : Store) : Prop :=
  forall w doc, TokenBalance st !! w = Some doc -> 0 <= currentBalance doc.

(** The two additions (or the addition and the subtraction) of an
    operation give the exact result: nothing is rounded. *)
Definition exactOp (op : Op) (st : Store) : Prop :=
  match op with
  | GetBalance _ _ => True
  | RecordDeposit now w amount _ =>
      forall balance st1, getBalance now w st = (Ok balance, st1) ->
        Binary64.add (depositedAmount balance) amount == depositedAmount balance + amount /\
        Binary64.add (currentBalance balance) amount == currentBalance balance + amount
  | DeductTokens now _ w amount _ _ =>
      forall balance st1, getBalance now w st = (Ok balance, st1) ->
        Binary64.add (consumedAmount balance) amount == consumedAmount balance + amount /\
        Binary64.sub (currentBalance balance) amount == currentBalance balance - amount
  end.

Fixpoint exactRun (ops : list Op) (st : Store) : Prop :=
  match ops with
  | [] => True
  | op :: rest => exactOp op st /\ exactRun rest (runOp op st)
  end.

(** An oracle with one sample of 0.10. *)
Definition oracleAtTenCents : PriceOracle.PriceOracleService :=
  PriceOracle.defaultService
    [ {| PriceOracle.price := Binary64.round64 (1 # 10); PriceOracle.timestamp := 0 |} ].

(** A deposit of 1 and debits of 0.1 and 0.3. *)
Definition roundedOps : list Op :=
  [ RecordDeposit 0 "W" 1 "T1";
    DeductTokens 1 oracleAtTenCents "W" (Binary64.round64 (1 # 10)) chat
      (Binary64.round64 (1 # 100));
    DeductTokens 2 oracleAtTenCents "W" (Binary64.round64 (3 # 10)) chat
      (Binary64.round64 (3 # 100)) ].

(** A deposit of 10 and debits of 0.25 and 0.5. *)
Definition dyadicOps : list Op :=
  [ RecordDeposit 0 "W" 10 "T1";
    DeductTokens 1 oracleAtTenCents "W" (1 # 4) chat (Binary64.round64 (25 # 1000));
    DeductTokens 2 oracleAtTenCents "W" (1 # 2) chat (Binary64.round64 (5 # 100)) ].

End Ledger64.

(** ** The settlement run in binary64, with a bulk update that can fail
       half-way *)

Module Settlement64.

Import Ledger Settlement.

(** [tokenDecimals]: 9 unless the mint account tells otherwise. *)
Definition tokenDecimalsOf (env : ChainEnv) : N :=
  match mintInfoDecimals env with
  | Ok (Some d) => if (d =? 0)%N then 9%N else d
  | _ => 9%N
  end.

(** [BigInt(Math.floor(amount * Math.pow(10, tokenDecimals)))] *)
Definition toBaseUnits (amount : Q) (tokenDecimals : N) : Z :=
  Qfloor (Binary64.mul amount (Binary64.pow10 tokenDecimals)).

Definition instructionsFor (backendTokenAccount mintPublicKey treasuryTokenAccount
    backendPublicKey : string) (burnAmount treasuryAmount : Q) (tokenDecimals : N)
  : list ChainInstruction :=
  let burnAmountLamports := toBaseUnits burnAmount tokenDecimals in
  let treasuryAmountLamports := toBaseUnits treasuryAmount tokenDecimals in
  (if Qgtb burnAmount 0
   then [BurnChecked backendTokenAccount mintPublicKey backendPublicKey
           burnAmountLamports tokenDecimals]
   else []) ++
  (if Qgtb treasuryAmount 0
   then [TransferChecked backendTokenAccount mintPublicKey treasuryTokenAccount
           backendPublicKey treasuryAmountLamports tokenDecimals]
   else []).

Section WithChainLibrary.

Variable PublicKey : string -> result string.
Variable getAssociatedTokenAddress : string -> string -> result string.

(** The inner [try] of [executeOnChainSettlement]. *)
Definition onChainTry (env : ChainEnv) (mintPublicKey treasuryPublicKey
    backendPublicKey : string) (burnAmount treasuryAmount : Q) : M World string :=
  let* backendTokenAccount :=
    lift (getAssociatedTokenAddress mintPublicKey backendPublicKey) in
  let* treasuryTokenAccount :=
    lift (getAssociatedTokenAddress mintPublicKey treasuryPublicKey) in
  let tokenDecimals := tokenDecimalsOf env in
  let* backendBalance :=
    match backendAccountAmount env with
    | Ok a => ret (Binary64.div (Binary64.round64 (inject_Z a))
                     (Binary64.pow10 tokenDecimals))
    | Throw _ => throw BackendAccountNotFound
    end in
  let totalNeeded := Binary64.add burnAmount treasuryAmount in
  if Qltb backendBalance totalNeeded
  then throw (InsufficientBackendBalance totalNeeded backendBalance)
  else
    let transaction :=
      instructionsFor backendTokenAccount mintPublicKey treasuryTokenAccount
        backendPublicKey burnAmount treasuryAmount tokenDecimals in
    let* blockhash := lift (latestBlockhash env) in
    let* signature := lift (sendAndConfirm env) in
    let* _ := emit (Submit {| signature := signature;
                              tx_instructions := transaction;
                              recentBlockhash := blockhash;
                              feePayer := backendPublicKey |}) in
    ret signature.

Definition executeOnChainSettlement (env : ChainEnv) (burnAmount treasuryAmount : Q)
  : M World string :=
  fun w =>
    match backendWallet (service w) with
    | None => (Throw BackendWalletNotLoaded, w)
    | Some backendPublicKey =>
        if String.eqb (tokenMintAddress (service w)) ""
        then (Throw MintNotConfigured, w)
        else if String.eqb (treasuryWalletAddress (service w)) ""
        then (Throw TreasuryNotConfigured, w)
        else
          match PublicKey (tokenMintAddress (service w)) with
          | Throw e => (Throw e, w)
          | Ok mintPublicKey =>
              match PublicKey (treasuryWalletAddress (service w)) with
              | Throw e => (Throw e, w)
              | Ok treasuryPublicKey =>
                  match onChainTry env mintPublicKey treasuryPublicKey
                          backendPublicKey burnAmount treasuryAmount w with
                  | (Ok signature, w') => (Ok signature, w')
                  | (Throw e, w') => (Throw (SettlementFailed e), w')
                  end
              end
          end
    end.

(** The [try] block of [executeBatchSettlement]. *)
Definition settlementTry (env : Env) : M World unit :=
  let* unsettledRecords := awaitUnsettledRecords (findError env) 100 in
  if (length unsettledRecords =? 0)%nat then ret tt
  else
    let totalTokens := Binary64.reduce_sum tokensBurned unsettledRecords in
    let burnAmount := Binary64.div totalTokens 2 in
    let treasuryAmount := Binary64.div totalTokens 2 in
    let* txHash := executeOnChainSettlement (chainEnv env) burnAmount treasuryAmount in
    let recordIds := map _id unsettledRecords in
    awaitMarkAsSettled (updateError env) recordIds txHash.

Definition executeBatchSettlement (env : Env) : M World unit :=
  fun w =>
    if isSettling (service w) then (Ok tt, w)
    else
      match settlementTry env (setSettling true w) with
      | (r, w') => (r, setSettling false w')
      end.

End WithChainLibrary.

(** [new] is [old] settled under [txHash], and nothing else of it has
    changed. *)
Definition settledUnder (txHash : string) (old new : IUsageRecord) : Prop :=
  _id new = _id old /\ ur_walletAddress new = ur_walletAddress old /\
  requestType new = requestType old /\ usdCost new = usdCost old /\
  tokenPrice new = tokenPrice old /\ tokensBurned new = tokensBurned old /\
  ur_timestamp new = ur_timestamp old /\
  settled new = true /\ ur_txHash new = Some txHash.

(** The records [new] are the records [old], those with an id in [ids]
    settled under [txHash] and the others as they were. *)
Definition marks (ids : list nat) (txHash : string) (old new : list IUsageRecord)
  : Prop :=
  Forall2 (fun o n => (In (_id o) ids -> settledUnder txHash o n) /\
                      (~ In (_id o) ids -> n = o)) old new.

(** Records for examples: record [i] burned [tokens]. *)
Definition recordOf (i : nat) (tokens : Q) : IUsageRecord :=
  {| _id := i; ur_walletAddress := "W"; requestType := chat;
     usdCost := Binary64.round64 (1 # 100); tokenPrice := Binary64.round64 (1 # 10);
     tokensBurned := tokens;
     ur_timestamp := Z.of_nat i; settled := false; ur_txHash := None |}.

(** The bulk update fails after the store has written record 0. *)
Definition halfWayEnv : Env :=
  {| findError := None; chainEnv := goodChain;
     updateError := Some (External "connection lost", [0%nat]) |}.

(** Two records, of 0.1 and 0.2 tokens. *)
Definition twoRecords : World :=
  worldOf [ recordOf 0 (Binary64.round64 (1 # 10));
            recordOf 1 (Binary64.round64 (2 # 10)) ].

End Settlement64.

(** ** How the verifier's loops read a transaction *)

Module VerifierReads.

Import Verifier.

(** A transfer instruction of the token program that carries no [info]:
    reading its destination throws. *)
Definition unreadable (instruction : Instruction) : bool :=
  String.eqb (programId instruction) TOKEN_PROGRAM_ID &&
  match parsed instruction with
  | Some p =>
      isTransferType (type p) &&
      match info p with
      | Some _ => false
      | None => true
      end
  | None => false
  end.

(** The instruction loop passes over [instruction]: it is not a transfer
    to [recipient] and reading it does not throw. *)
Definition passedOver (recipient : string) (instruction : Instruction) : bool :=
  negb (isTransferTo recipient instruction) && negb (unreadable instruction).

(** A transfer of 2.5 tokens (2500000 base units, 6 decimals) by S to
    W's account, as a [transferChecked] instruction reports it, inside a
    transaction whose balance snapshots say otherwise. *)
Definition sampleTransferChecked : ParsedTransactionWithMeta :=
  {| meta := Some {| err := None;
                     preTokenBalances :=
                       Some [ {| accountIndex := 1; tb_mint := "MINT";
                                 tb_owner := Some "W";
                                 uiTokenAmount := {| uiAmount := Some 4 |} |} ];
                     postTokenBalances :=
                       Some [ {| accountIndex := 1; tb_mint := "MINT";
                                 tb_owner := Some "W";
                                 uiTokenAmount := {| uiAmount := Some 7 |} |} ] |};
     instructions :=
       Some [ {| programId := "ComputeBudget111111111111111111111111111111";
                 parsed := None |};
              {| programId := TOKEN_PROGRAM_ID;
                 parsed :=
                   Some {| type := "transferChecked";
                           info :=
                             Some {| destination := Some "W"; to := None;
                                     amount := None;
                                     tokenAmount :=
                                       Some {| ta_amount := Some 2500000;
                                               ta_decimals := Some 6%N |};
                                     mint := Some "MINT"; mintAccount := None;
                                     authority := Some "S"; owner := None;
                                     source := None |} |} |} ] |}.

(** The same transaction without its instructions: W's account goes
    from 4 to 7 tokens. *)
Definition sampleSnapshots : ParsedTransactionWithMeta :=
  {| meta := meta sampleTransferChecked; instructions := None |}.

End VerifierReads.

(** * Properties *)

(** ** Amount comparisons and sums *)

Lemma Qltb_lt a b : Qltb a b = true <-> a < b.
Proof.
  unfold Qltb. rewrite negb_true_iff. split.
  - intros H. apply Qnot_le_lt. intros Hle. apply Qle_bool_iff in Hle. congruence.
  - intros H. destruct (Qle_bool b a) eqn:E; [|reflexivity].
    apply Qle_bool_iff in E. lra.
Qed.

Lemma Qltb_ge a b : Qltb a b = false <-> b <= a.
Proof.
  unfold Qltb. rewrite negb_false_iff. apply Qle_bool_iff.
Qed.

Lemma Qgeb_ge a b : Qgeb a b = true <-> b <= a.
Proof. apply Qle_bool_iff. Qed.

Lemma fold_left_sum_acc {A} (f : A -> Q) (l : list A) (a : Q) :
  fold_left (fun acc x => acc + f x) l a == a + Qsum (map f l).
Proof.
  revert a. induction l as [|x l IH]; intros a; simpl.
  - lra.
  - rewrite IH. lra.
Qed.

Lemma reduce_sum_Qsum {A} (f : A -> Q) (l : list A) :
  reduce_sum f l == Qsum (map f l).
Proof. unfold reduce_sum. rewrite fold_left_sum_acc. lra. Qed.

Lemma Qsum_app (l1 l2 : list Q) : Qsum (l1 ++ l2) == Qsum l1 + Qsum l2.
Proof. induction l1 as [|x l1 IH]; simpl; [lra | rewrite IH; lra]. Qed.

Lemma Qsum_Permutation (l1 l2 : list Q) :
  Permutation l1 l2 -> Qsum l1 == Qsum l2.
Proof.
  induction 1; simpl; lra.
Qed.


(** ** Price oracle *)

Section PriceOracleFacts.

Import PriceOracle.

Lemma filter_nil_length {A} (f : A -> bool) (l : list A) :
  (length (List.filter f l) =? 0)%nat = true <-> List.filter f l = [].
Proof.
  destruct (List.filter f l); simpl; split; intros H; congruence.
Qed.

Lemma getTWAPPrice_empty now o :
  priceCache o = [] -> getTWAPPrice now o = Throw NoPriceData.
Proof. intros H. unfold getTWAPPrice. rewrite H. reflexivity. Qed.

Lemma getTWAPPrice_nonempty now o :
  priceCache o <> [] -> exists p, getTWAPPrice now o = Ok p.
Proof.
  intros H. unfold getTWAPPrice.
  destruct (priceCache o) as [|e l] eqn:E; [congruence|].
  cbn [length Nat.eqb].
  destruct (length (List.filter (inWindow now o) (e :: l)) =? 0)%nat.
  - destruct (last (e :: l)) eqn:L; eauto.
    apply last_None in L. discriminate.
  - eauto.
Qed.

Lemma getTWAPPrice_in_window now o :
  List.filter (inWindow now o) (priceCache o) <> [] ->
  exists p, getTWAPPrice now o = Ok p /\
            p == mean (map price (List.filter (inWindow now o) (priceCache o))).
Proof.
  intros H. unfold getTWAPPrice.
  destruct (priceCache o) as [|e l] eqn:E; [simpl in H; congruence|].
  cbn [length Nat.eqb].
  destruct (length (List.filter (inWindow now o) (e :: l)) =? 0)%nat eqn:L.
  - apply filter_nil_length in L. congruence.
  - eexists; split; [reflexivity|].
    unfold mean. rewrite length_map, reduce_sum_Qsum. reflexivity.
Qed.

Lemma getTWAPPrice_out_of_window now o e :
  last (priceCache o) = Some e ->
  List.filter (inWindow now o) (priceCache o) = [] ->
  getTWAPPrice now o = Ok (price e).
Proof.
  intros HL HF. unfold getTWAPPrice. rewrite HF, HL.
  destruct (priceCache o); [discriminate|reflexivity].
Qed.

Lemma clamp_max_min lo hi x :
  lo <= hi -> Qmax lo (Qmin x hi) == clamp lo hi x.
Proof.
  intros H. unfold clamp.
  destruct (Qltb x lo) eqn:E1.
  - apply Qltb_lt in E1. apply Q.max_l.
    apply Qle_trans with x; [apply Q.le_min_l|lra].
  - apply Qltb_ge in E1. destruct (Qltb hi x) eqn:E2.
    + apply Qltb_lt in E2. rewrite Q.min_r by lra. apply Q.max_r. lra.
    + apply Qltb_ge in E2. rewrite Q.min_l by lra. apply Q.max_r. lra.
Qed.

Lemma calculateTokenBurn_ok now o p usdCost :
  getTWAPPrice now o = Ok p -> 0 < p ->
  calculateTokenBurn now o usdCost =
    Ok (Qmax (burnFloor o) (Qmin (usdCost / p) (burnCeiling o))).
Proof.
  intros Hp Hpos. unfold calculateTokenBurn. rewrite Hp.
  destruct (Qle_bool p 0) eqn:E; [|reflexivity].
  apply Qle_bool_iff in E. lra.
Qed.

Lemma Qdiv_le_compat_r a b p : 0 < p -> a <= b -> a / p <= b / p.
Proof.
  intros Hp Hab. unfold Qdiv. apply Qmult_le_compat_r; [assumption|].
  apply Qlt_le_weak, Qinv_lt_0_compat, Hp.
Qed.

(** C6. For a positive TWAP price, [calculateTokenBurn usdCost] returns
    usdCost / TWAP clamped to [burnFloor, burnCeiling]: a value inside
    that interval, non-decreasing in usdCost. *)
Theorem calculateTokenBurn_clamped_monotone :
  forall (now : Z) (o : PriceOracleService) (twap : Q),
    getTWAPPrice now o = Ok twap ->
    0 < twap ->
    burnFloor o <= burnCeiling o ->
    (forall usdCost, exists burn,
        calculateTokenBurn now o usdCost = Ok burn /\
        burnFloor o <= burn /\ burn <= burnCeiling o /\
        burn == clamp (burnFloor o) (burnCeiling o) (usdCost / twap)) /\
    (forall usd1 usd2 burn1 burn2,
        usd1 <= usd2 ->
        calculateTokenBurn now o usd1 = Ok burn1 ->
        calculateTokenBurn now o usd2 = Ok burn2 ->
        burn1 <= burn2).
Proof.
  intros now o twap Hp Hpos Hfc. split.
  - intros usdCost. eexists. split; [apply calculateTokenBurn_ok; eassumption|].
    split; [apply Q.le_max_l|]. split.
    + apply Q.max_lub; [assumption|apply Q.le_min_r].
    + apply clamp_max_min, Hfc.
  - intros usd1 usd2 burn1 burn2 Hle H1 H2.
    rewrite (calculateTokenBurn_ok now o twap usd1 Hp Hpos) in H1.
    rewrite (calculateTokenBurn_ok now o twap usd2 Hp Hpos) in H2.
    injection H1 as <-. injection H2 as <-.
    apply Q.max_le_compat_l, Q.min_le_compat_r, Qdiv_le_compat_r; assumption.
Qed.

Lemma calculateTokenBurn_clamped_monotone_witness :
  (forall usdCost, exists burn,
      calculateTokenBurn 0 (defaultService [ {| price := 1 # 10; timestamp := 0 |} ])
        usdCost = Ok burn /\
      5 # 100 <= burn /\ burn <= 50 /\
      burn == clamp (5 # 100) 50 (usdCost / (1 # 10))) /\
  (forall usd1 usd2 burn1 burn2,
      usd1 <= usd2 ->
      calculateTokenBurn 0 (defaultService [ {| price := 1 # 10; timestamp := 0 |} ])
        usd1 = Ok burn1 ->
      calculateTokenBurn 0 (defaultService [ {| price := 1 # 10; timestamp := 0 |} ])
        usd2 = Ok burn2 ->
      burn1 <= burn2).
Proof.
  apply (calculateTokenBurn_clamped_monotone 0
           (defaultService [ {| price := 1 # 10; timestamp := 0 |} ]) (1 # 10)).
  - reflexivity.
  - reflexivity.
  - discriminate.
Defined.

(** Both clamp edges and an interior value, at TWAP 0.10 and the default
    floor and ceiling. *)
Example calculateTokenBurn_edges :
  let o := defaultService [ {| price := 1 # 10; timestamp := 0 |} ] in
  (exists b, calculateTokenBurn 0 o (1 # 1000) = Ok b /\ b == 5 # 100) /\
  (exists b, calculateTokenBurn 0 o 1 = Ok b /\ b == 10) /\
  (exists b, calculateTokenBurn 0 o 100 = Ok b /\ b == 50).
Proof.
  repeat split; eexists; (split; [reflexivity|]); vm_compute; reflexivity.
Qed.

End PriceOracleFacts.

(** ** Balance tracker *)

Section LedgerFacts.

Import Ledger.

Lemma validateTokenBalance_ok doc :
  validateTokenBalance doc = Ok tt <->
  walletAddress doc <> "" /\ 0 <= depositedAmount doc /\
  0 <= consumedAmount doc /\ 0 <= currentBalance doc.
Proof.
  unfold validateTokenBalance.
  destruct (String.eqb_spec (walletAddress doc) "") as [E|E].
  { split; [discriminate|]. intros [H _]. contradiction. }
  destruct (Qltb (depositedAmount doc) 0) eqn:E1.
  { apply Qltb_lt in E1. split; [discriminate|]. intros (_ & H & _). lra. }
  destruct (Qltb (consumedAmount doc) 0) eqn:E2.
  { apply Qltb_lt in E2. split; [discriminate|]. intros (_ & _ & H & _). lra. }
  destruct (Qltb (currentBalance doc) 0) eqn:E3.
  { apply Qltb_lt in E3. split; [discriminate|]. intros (_ & _ & _ & H). lra. }
  apply Qltb_ge in E1, E2, E3. tauto.
Qed.

Lemma validateTokenBalance_cases doc :
  validateTokenBalance doc = Ok tt \/
  exists path, validateTokenBalance doc = Throw (ValidationError path).
Proof.
  unfold validateTokenBalance.
  repeat match goal with
         | |- context [if ?c then _ else _] => destruct c; [right; eauto|]
         end.
  left; reflexivity.
Qed.

(** [save] either writes the stamped document under its address or
    throws a validation error and leaves the store alone. *)
Lemma save_cases now doc st :
  (validateTokenBalance doc = Ok tt /\
   save now doc st =
     (Ok (preSave now doc),
      setTokenBalance (<[walletAddress doc := preSave now doc]> (TokenBalance st)) st)) \/
  (exists path, save now doc st = (Throw (ValidationError path), st)).
Proof.
  unfold save. destruct (validateTokenBalance_cases doc) as [H|[path H]]; rewrite H.
  - left. split; reflexivity.
  - right. eauto.
Qed.

(** [getBalance] is read-or-create. *)
Lemma getBalance_cases now w st :
  (exists doc, TokenBalance st !! w = Some doc /\ getBalance now w st = (Ok doc, st)) \/
  (TokenBalance st !! w = None /\ w <> "" /\
   getBalance now w st =
     (Ok (zeroBalance now w),
      setTokenBalance (<[w := zeroBalance now w]> (TokenBalance st)) st)) \/
  (TokenBalance st !! w = None /\ w = "" /\
   getBalance now w st = (Throw (ValidationError "walletAddress"), st)).
Proof.
  unfold getBalance, bind, findOne, ret.
  destruct (TokenBalance st !! w) as [doc|] eqn:E.
  - left. eauto.
  - right. unfold save, validateTokenBalance. simpl.
    destruct (String.eqb_spec w "") as [->|Hne].
    + right. auto.
    + left. auto.
Qed.

Lemma storeBalanced_insert st w doc :
  storeBalanced st -> balanced doc ->
  storeBalanced (setTokenBalance (<[w := doc]> (TokenBalance st)) st).
Proof.
  intros Hst Hdoc w' doc'. simpl. rewrite lookup_insert.
  case_decide; [intros [= <-]; exact Hdoc | apply Hst].
Qed.

Lemma wellKeyed_insert st doc :
  wellKeyed st ->
  wellKeyed (setTokenBalance (<[walletAddress doc := doc]> (TokenBalance st)) st).
Proof.
  intros Hst w' doc'. simpl. rewrite lookup_insert.
  case_decide; [intros [= <-]; congruence | apply Hst].
Qed.

Lemma balanced_zero now w : balanced (zeroBalance now w).
Proof. unfold balanced, zeroBalance; simpl. split; lra. Qed.

Lemma getBalance_balanced now w st r st' :
  storeBalanced st -> getBalance now w st = (r, st') ->
  storeBalanced st' /\ (forall doc, r = Ok doc -> balanced doc).
Proof.
  intros Hst H.
  destruct (getBalance_cases now w st) as [(doc & E & G)|[(E & Hw & G)|(E & Hw & G)]];
    rewrite G in H; injection H as <- <-.
  - split; [assumption|]. intros ? [= <-]. eapply Hst, E.
  - split; [apply storeBalanced_insert; [assumption|apply balanced_zero]|].
    intros ? [= <-]. apply balanced_zero.
  - split; [assumption|discriminate].
Qed.

(** Saving a document whose balance equation holds keeps the store
    balanced: the validators reject a negative balance. *)
Lemma save_balanced now doc st r st' :
  storeBalanced st ->
  currentBalance doc == depositedAmount doc - consumedAmount doc ->
  save now doc st = (r, st') ->
  storeBalanced st' /\ (forall saved, r = Ok saved -> balanced saved).
Proof.
  intros Hst Heq H.
  destruct (save_cases now doc st) as [[Hv G]|[path G]]; rewrite G in H;
    injection H as <- <-.
  - apply validateTokenBalance_ok in Hv as (_ & _ & _ & Hpos).
    assert (balanced (preSave now doc)) by (split; simpl; assumption).
    split; [apply storeBalanced_insert; assumption|]. intros ? [= <-]. assumption.
  - split; [assumption|discriminate].
Qed.

Lemma recordDeposit_balanced now w amount txHash st r st' :
  storeBalanced st -> recordDeposit now w amount txHash st = (r, st') ->
  storeBalanced st' /\ (forall doc, r = Ok doc -> balanced doc).
Proof.
  intros Hst H. unfold recordDeposit, bind in H.
  destruct (getBalance now w st) as [[doc|e] st1] eqn:G.
  - apply getBalance_balanced in G as [Hst1 Hdoc]; [|assumption].
    destruct (Hdoc doc eq_refl) as [Heq _].
    eapply save_balanced in H; [exact H|assumption|]. simpl. lra.
  - injection H as <- <-.
    apply getBalance_balanced in G as [Hst1 _]; [|assumption].
    split; [assumption|discriminate].
Qed.

Lemma create_TokenBalance now w rt usd p amount b st r st' :
  create now w rt usd p amount b st = (r, st') -> TokenBalance st' = TokenBalance st.
Proof.
  unfold create. destruct (validateUsageRecord _); intros [= <- <-]; reflexivity.
Qed.

Lemma deductTokens_balanced now oracle w amount rt usd st r st' :
  storeBalanced st -> deductTokens now oracle w amount rt usd st = (r, st') ->
  storeBalanced st' /\ (forall doc, r = Ok doc -> balanced doc).
Proof.
  intros Hst H. unfold deductTokens, bind in H.
  destruct (getBalance now w st) as [[doc|e] st1] eqn:G;
    apply getBalance_balanced in G as [Hst1 Hdoc]; try assumption.
  2:{ injection H as <- <-. split; [assumption|discriminate]. }
  destruct (Hdoc doc eq_refl) as [Heq _].
  destruct (Qltb (currentBalance doc) amount).
  { injection H as <- <-. split; [assumption|discriminate]. }
  match type of H with context [save now ?d st1] =>
    assert (Hd : currentBalance d == depositedAmount d - consumedAmount d)
      by (simpl; lra);
    destruct (save now d st1) as [[saved|e] st2] eqn:S;
    apply (save_balanced _ _ _ _ _ Hst1 Hd) in S as [Hst2 Hsaved]
  end.
  2:{ injection H as <- <-. split; [assumption|discriminate]. }
  unfold lift, throw, ret in H.
  destruct (PriceOracle.getTWAPPrice now oracle) as [p|e].
  2:{ injection H as <- <-. split; [assumption|discriminate]. }
  destruct (create now w rt usd p amount false st2) as [[u|e] st3] eqn:C;
    apply create_TokenBalance in C; injection H as <- <-.
  - split; [intros w' d'; rewrite C; apply Hst2|]. intros ? [= <-]. auto.
  - split; [intros w' d'; rewrite C; apply Hst2|discriminate].
Qed.

Lemma runOp_balanced op st : storeBalanced st -> storeBalanced (runOp op st).
Proof.
  intros Hst. destruct op as [now w|now w amount txHash|now oracle w amount rt usd]; simpl.
  - destruct (getBalance now w st) as [r st'] eqn:E.
    apply getBalance_balanced in E as [H _]; assumption.
  - destruct (recordDeposit now w amount txHash st) as [r st'] eqn:E.
    apply recordDeposit_balanced in E as [H _]; assumption.
  - destruct (deductTokens now oracle w amount rt usd st) as [r st'] eqn:E.
    apply deductTokens_balanced in E as [H _]; assumption.
Qed.

Lemma runOps_balanced ops st : storeBalanced st -> storeBalanced (runOps ops st).
Proof.
  revert st. induction ops as [|op ops IH]; intros st Hst; simpl; [assumption|].
  apply IH, runOp_balanced, Hst.
Qed.

Lemma emptyStore_balanced : storeBalanced emptyStore.
Proof. intros w doc. simpl. rewrite lookup_empty. discriminate. Qed.

(** What the sample sequence leaves in the store: the deposit of 10, the
    debit of 0.2, and nothing of the deposit of -20, which the validators
    reject. *)
Example sampleOps_result :
  exists doc,
    TokenBalance (runOps sampleOps emptyStore) !! "W" = Some doc /\
    depositedAmount doc == 10 /\ consumedAmount doc == 2 # 10 /\
    currentBalance doc == 98 # 10 /\
    length (UsageRecord (runOps sampleOps emptyStore)) = 1%nat.
Proof.
  eexists. split; [vm_compute; reflexivity|]. repeat split.
Qed.

End LedgerFacts.

(** ** [deductTokens]: the guard, the effects, and the oracle's error *)

Section DeductFacts.

Import Ledger.

Lemma getTWAPPrice_throws now oracle e :
  PriceOracle.getTWAPPrice now oracle = Throw e -> e = NoPriceData \/ e = TypeError.
Proof.
  unfold PriceOracle.getTWAPPrice.
  repeat match goal with
         | |- context [if ?c then _ else _] => destruct c
         | |- context [match ?c with Some _ => _ | None => _ end] => destruct c
         end; intros [= <-]; auto.
Qed.

Lemma create_throws now w rt usd p amount b st e st' :
  create now w rt usd p amount b st = (Throw e, st') ->
  (exists path, e = ValidationError path) /\ st' = st.
Proof.
  unfold create, validateUsageRecord. cbn [ur_walletAddress Ledger.usdCost
    Ledger.tokenPrice Ledger.tokensBurned].
  repeat match goal with
         | |- context [if ?c then _ else _] => destruct c
         end; intros [= <- <-]; eauto.
Qed.

(** [deductTokens] throws 'Insufficient token balance' exactly when the
    wallet's current balance is below the amount, and then nothing but
    the lazy creation of the wallet has touched the store. *)
Lemma deductTokens_insufficient now oracle w amount rt usd st doc st1 :
  getBalance now w st = (Ok doc, st1) ->
  (fst (deductTokens now oracle w amount rt usd st) = Throw InsufficientTokenBalance
     <-> currentBalance doc < amount) /\
  (currentBalance doc < amount ->
     deductTokens now oracle w amount rt usd st = (Throw InsufficientTokenBalance, st1)).
Proof.
  intros G. unfold deductTokens, bind. rewrite G.
  destruct (Qltb (currentBalance doc) amount) eqn:E.
  - apply Qltb_lt in E. unfold throw. simpl. tauto.
  - apply Qltb_ge in E. split; [|intros; lra]. split; [|intros; lra].
    intros H. exfalso.
    match type of H with context [save now ?d st1] =>
      destruct (save_cases now d st1) as [[_ S]|[path S]]; rewrite S in H
    end; [|discriminate].
    unfold lift, ret in H.
    destruct (PriceOracle.getTWAPPrice now oracle) as [p|e] eqn:P.
    + match type of H with context [create ?a ?b ?c ?d ?e ?f ?g ?s] =>
        destruct (create a b c d e f g s) as [[u|e'] st3] eqn:C
      end; [discriminate|].
      apply create_throws in C as [[path ->] _]. discriminate.
    + apply getTWAPPrice_throws in P as [->| ->]; discriminate.
Qed.

(** When [deductTokens] returns, it has saved the debited document,
    appended one usage entry of amount [- amount] to the wallet's log and
    created one unsettled usage record priced at the oracle's TWAP. *)
Lemma deductTokens_success now oracle w amount rt usd st saved st' :
  deductTokens now oracle w amount rt usd st = (Ok saved, st') ->
  exists doc st1 twap,
    getBalance now w st = (Ok doc, st1) /\
    amount <= currentBalance doc /\
    PriceOracle.getTWAPPrice now oracle = Ok twap /\
    saved = debited now doc amount rt usd /\
    0 <= currentBalance saved /\
    TokenBalance st' = <[walletAddress doc := saved]> (TokenBalance st1) /\
    UsageRecord st' = UsageRecord st ++
      [ {| _id := nextId st; ur_walletAddress := w; requestType := rt;
           usdCost := usd; tokenPrice := twap; tokensBurned := amount;
           ur_timestamp := now; settled := false; ur_txHash := None |} ].
Proof.
  unfold deductTokens, bind. intros H.
  destruct (getBalance now w st) as [[doc|e] st1] eqn:G; [|discriminate].
  assert (Hst1 : UsageRecord st1 = UsageRecord st /\ nextId st1 = nextId st).
  { destruct (getBalance_cases now w st) as [(d & E & G')|[(E & Hw & G')|(E & Hw & G')]];
      rewrite G' in G; try discriminate; injection G as <- <-; auto. }
  destruct Hst1 as [Hu Hn].
  destruct (Qltb (currentBalance doc) amount) eqn:E; [discriminate|].
  apply Qltb_ge in E.
  match type of H with context [save now ?d st1] =>
    destruct (save_cases now d st1) as [[V S]|[path S]]; rewrite S in H
  end; [|discriminate].
  apply validateTokenBalance_ok in V as (_ & _ & _ & Hpos).
  unfold lift, ret in H.
  destruct (PriceOracle.getTWAPPrice now oracle) as [twap|e] eqn:P; [|discriminate].
  unfold create in H. destruct (validateUsageRecord _); [|discriminate].
  injection H as <- <-. exists doc, st1, twap.
  repeat split; try assumption; simpl; congruence.
Qed.

(** With a price in the cache and non-negative amount and cost, a wallet
    whose document satisfies the schema and can afford the amount is
    debited and the call returns. *)
Lemma deductTokens_returns now oracle w amount rt usd st doc st1 twap :
  getBalance now w st = (Ok doc, st1) ->
  validateTokenBalance doc = Ok tt -> w <> "" ->
  PriceOracle.getTWAPPrice now oracle = Ok twap -> 0 <= twap ->
  0 <= amount -> 0 <= usd -> amount <= currentBalance doc ->
  exists st', deductTokens now oracle w amount rt usd st =
                (Ok (debited now doc amount rt usd), st').
Proof.
  intros G Hv Hw P Hp Ha Hu Hle. unfold deductTokens, bind. rewrite G.
  apply validateTokenBalance_ok in Hv as (Hw' & Hd & Hc & Hb).
  destruct (Qltb (currentBalance doc) amount) eqn:E.
  { apply Qltb_lt in E. lra. }
  match goal with |- context [save now ?d st1] =>
    destruct (save_cases now d st1) as [[V S]|[path S]]; rewrite S
  end.
  - unfold lift, ret. rewrite P. unfold create, validateUsageRecord. simpl.
    destruct (String.eqb_spec w ""); [contradiction|].
    destruct (Qltb usd 0) eqn:E1; [apply Qltb_lt in E1; lra|].
    destruct (Qltb twap 0) eqn:E2; [apply Qltb_lt in E2; lra|].
    destruct (Qltb amount 0) eqn:E3; [apply Qltb_lt in E3; lra|].
    eexists. reflexivity.
  - exfalso. unfold save in S.
    match type of S with context [validateTokenBalance ?d] =>
      assert (V : validateTokenBalance d = Ok tt)
        by (apply validateTokenBalance_ok; simpl; repeat split; try assumption; lra)
    end.
    rewrite V in S. discriminate.
Qed.

(** The same for any stored wallet: when the price cache is empty, a
    debit the wallet can afford is saved and the call then throws. *)
Lemma deductTokens_oracle_error_after_debit now oracle w amount rt usd st doc :
  TokenBalance st !! w = Some doc ->
  PriceOracle.priceCache oracle = [] ->
  validateTokenBalance doc = Ok tt ->
  0 <= amount -> amount <= currentBalance doc ->
  deductTokens now oracle w amount rt usd st =
    (Throw NoPriceData,
     setTokenBalance
       (<[walletAddress doc := debited now doc amount rt usd]> (TokenBalance st)) st).
Proof.
  intros Hdoc Hcache Hv Ha Hle. unfold deductTokens, bind.
  destruct (getBalance_cases now w st) as [(d & E & G)|[(E & _)|(E & _)]];
    try congruence.
  rewrite G. assert (d = doc) by congruence. subst d.
  destruct (Qltb (currentBalance doc) amount) eqn:L.
  { apply Qltb_lt in L. lra. }
  apply validateTokenBalance_ok in Hv as (Hw & Hd & Hc & Hb).
  unfold save.
  match goal with |- context [validateTokenBalance ?d] =>
    assert (V : validateTokenBalance d = Ok tt)
      by (apply validateTokenBalance_ok; simpl; repeat split; try assumption; lra)
  end.
  rewrite V. unfold lift.
  rewrite (getTWAPPrice_empty now oracle Hcache). reflexivity.
Qed.

(** C3. The wallet W holds 10 tokens and the price cache is empty:
    [deductTokens] of 1 token saves the debit (consumed 1, balance 9, one
    usage entry appended after the deposit entry) and then throws the
    oracle's 'No price data' error; no usage record exists afterwards.  The
    call has failed, the failure is not InsufficientBalance, and the
    wallet's balances and log have changed. *)
Theorem deductTokens_debits_then_throws :
  exists doc st',
    deductTokens 1 (PriceOracle.defaultService []) "W" 1 chat (1 # 10) walletWithTen
      = (Throw NoPriceData, st') /\
    TokenBalance walletWithTen !! "W" <> TokenBalance st' !! "W" /\
    TokenBalance st' !! "W" = Some doc /\
    consumedAmount doc == 1 /\ currentBalance doc == 9 /\
    map tx_type (transactions doc) = [deposit; usage] /\
    UsageRecord st' = [].
Proof.
  eexists. eexists. split; [vm_compute; reflexivity|].
  split; [vm_compute; discriminate|].
  split; [vm_compute; reflexivity|].
  repeat split.
Qed.

End DeductFacts.

(** ** Deposits and replayed transaction ids *)

Section DepositFacts.

Import Ledger TokenRoutes.

Lemma hasTxHash_In txHash doc :
  hasTxHash txHash doc = true <->
  exists t, In t (transactions doc) /\ tx_txHash t = Some txHash.
Proof.
  unfold hasTxHash. rewrite existsb_exists. split.
  - intros (t & Hin & H). exists t. split; [assumption|].
    destruct (tx_txHash t) as [h|]; [|discriminate].
    apply String.eqb_eq in H. congruence.
  - intros (t & Hin & H). exists t. split; [assumption|].
    rewrite H. apply String.eqb_refl.
Qed.

(** The query the routes run finds a document exactly when the hash is
    in some wallet's log. *)
Lemma existingTransaction_inLog txHash st :
  existingTransaction txHash st = true <-> inLog txHash st.
Proof.
  unfold existingTransaction, inLog. rewrite existsb_exists. split.
  - intros ([w doc] & Hin & H). simpl in H.
    apply list_elem_of_In, elem_of_map_to_list in Hin.
    apply hasTxHash_In in H as (t & Ht & Hh). eauto 6.
  - intros (w & doc & t & Hl & Ht & Hh). exists (w, doc). split.
    + apply list_elem_of_In, elem_of_map_to_list, Hl.
    + simpl. apply hasTxHash_In. eauto.
Qed.

(** A recorded deposit leaves its hash in the log. *)
Lemma recordDeposit_inLog now w amount txHash st doc st' :
  recordDeposit now w amount txHash st = (Ok doc, st') -> inLog txHash st'.
Proof.
  unfold recordDeposit, bind. intros H.
  destruct (getBalance now w st) as [[b|e] st1]; [|discriminate].
  match type of H with context [save now ?d st1] =>
    destruct (save_cases now d st1) as [[_ S]|[path S]]; rewrite S in H
  end; [|discriminate].
  injection H as <- <-. eexists _, _, _. split; [|split].
  - simpl. apply lookup_insert_eq.
  - simpl. apply in_or_app. right. left. reflexivity.
  - reflexivity.
Qed.

(** Against C2 as stated: [recordDeposit] called twice with the hash T1,
    which is in W's log after the first call, returns both times and
    credits 10 tokens both times. *)
Lemma recordDeposit_replay_credits_twice :
  exists doc1 st1 doc2 st2,
    recordDeposit 0 "W" 10 "T1" emptyStore = (Ok doc1, st1) /\
    inLog "T1" st1 /\
    recordDeposit 1 "W" 10 "T1" st1 = (Ok doc2, st2) /\
    currentBalance doc1 == 10 /\
    currentBalance doc2 == 20 /\ depositedAmount doc2 == 20.
Proof.
  eexists _, _, _, _. split; [vm_compute; reflexivity|].
  split; [apply existingTransaction_inLog; vm_compute; reflexivity|].
  split; [vm_compute; reflexivity|].
  repeat split.
Qed.

Section WithPublicKey.

Variable PublicKey : string -> result string.

Lemma postDeposit_existing now mint rpc body st txHash :
  b_txHash body = Some txHash -> inLog txHash st ->
  exists r, postDeposit PublicKey now mint rpc body st = (r, st) /\ rejected txHash r /\
    (Verifier.truthy (b_walletAddress body) = true ->
     falsyAmount (b_amount body) = false ->
     txHash <> "" ->
     Verifier.isValid
       (Verifier.verifyDepositTransaction PublicKey rpc
          (default "" (b_walletAddress body)) (Some (default 0 (b_amount body)))
          mint None) = true ->
     r = AlreadyProcessed txHash).
Proof.
  intros Hh Hlog. apply existingTransaction_inLog in Hlog.
  unfold postDeposit, rejected. rewrite Hh. simpl default.
  destruct (Verifier.truthy (b_walletAddress body)); simpl.
  2:{ eexists; split; [reflexivity|]. split; [auto|]. discriminate. }
  destruct (falsyAmount (b_amount body)); simpl.
  { eexists; split; [reflexivity|]. split; [auto|]. discriminate. }
  destruct (String.eqb_spec txHash "") as [E|E]; simpl.
  { eexists; split; [reflexivity|]. split; [auto|]. intros; contradiction. }
  destruct (Verifier.isValid _); simpl.
  - rewrite Hlog. eexists; split; [reflexivity|]. split; [auto|]. reflexivity.
  - eexists; split; [reflexivity|]. split; [eauto|]. discriminate.
Qed.

Lemma postDeposit_success_inLog now mint rpc body st c d st' :
  postDeposit PublicKey now mint rpc body st = (Success c d, st') ->
  exists txHash, b_txHash body = Some txHash /\ txHash <> "" /\
                 ~ inLog txHash st /\ inLog txHash st'.
Proof.
  unfold postDeposit. intros H.
  destruct (Verifier.truthy (b_walletAddress body)); simpl in H; [|discriminate].
  destruct (falsyAmount (b_amount body)); simpl in H; [discriminate|].
  destruct (b_txHash body) as [txHash|] eqn:Hh; simpl in H; [|discriminate].
  destruct (String.eqb_spec txHash "") as [E|E]; simpl in H; [discriminate|].
  destruct (Verifier.isValid _); simpl in H; [|discriminate].
  destruct (existingTransaction txHash st) eqn:X; [discriminate|].
  match type of H with context [recordDeposit ?a ?b ?c ?d st] =>
    destruct (recordDeposit a b c d st) as [[doc|e] st1] eqn:R
  end; [|discriminate].
  injection H as <- <- <-. exists txHash. repeat split; try assumption.
  - intros Hlog. apply existingTransaction_inLog in Hlog. congruence.
  - eapply recordDeposit_inLog, R.
Qed.

(** C2 (as the code has it). The duplicate check is the deposit route's,
    not [recordDeposit]'s.  A request whose txHash is already in some
    wallet's log is answered with a rejection and leaves the store, hence
    every wallet's depositedAmount and currentBalance, as it was; the
    rejection is 'Transaction has already been processed' once the fields
    are present and the verification passes.  So of two requests with the
    same txHash the first that succeeds is the only one credited: the
    store after it rejects every later one. *)
Theorem postDeposit_rejects_replay :
  (forall now mint rpc body st txHash,
      b_txHash body = Some txHash -> inLog txHash st ->
      exists r, postDeposit PublicKey now mint rpc body st = (r, st) /\
                rejected txHash r /\
                (Verifier.truthy (b_walletAddress body) = true ->
                 falsyAmount (b_amount body) = false ->
                 txHash <> "" ->
                 Verifier.isValid
                   (Verifier.verifyDepositTransaction PublicKey rpc
                      (default "" (b_walletAddress body))
                      (Some (default 0 (b_amount body))) mint None) = true ->
                 r = AlreadyProcessed txHash)) /\
  (forall now1 mint1 rpc1 body1 st c d st1 now2 mint2 rpc2 body2,
      postDeposit PublicKey now1 mint1 rpc1 body1 st = (Success c d, st1) ->
      b_txHash body2 = b_txHash body1 ->
      exists r txHash,
        b_txHash body1 = Some txHash /\ ~ inLog txHash st /\
        postDeposit PublicKey now2 mint2 rpc2 body2 st1 = (r, st1) /\
        rejected txHash r).
Proof.
  split.
  - intros. apply postDeposit_existing; assumption.
  - intros now1 mint1 rpc1 body1 st c d st1 now2 mint2 rpc2 body2 H Hsame.
    apply postDeposit_success_inLog in H as (txHash & Hh & Hne & Hnot & Hlog).
    rewrite Hh in Hsame.
    destruct (postDeposit_existing now2 mint2 rpc2 body2 st1 txHash Hsame Hlog)
      as (r & Hr & Hrej & _).
    exists r, txHash. auto.
Qed.

End WithPublicKey.

Lemma postDeposit_rejects_replay_witness :
  exists r txHash,
    b_txHash sampleBody = Some txHash /\ ~ inLog txHash emptyStore /\
    postDeposit Verifier.textKey 1 (Some "MINT") (Ok (Some Verifier.sampleDeposit))
      sampleBody storeAfterSample = (r, storeAfterSample) /\
    rejected txHash r.
Proof.
  refine (proj2 (postDeposit_rejects_replay Verifier.textKey)
            0%Z (Some "MINT") (Ok (Some Verifier.sampleDeposit)) sampleBody
            emptyStore 10 10 storeAfterSample
            1%Z (Some "MINT") (Ok (Some Verifier.sampleDeposit)) sampleBody _ eq_refl).
  vm_compute. reflexivity.
Defined.

(** The replayed request is answered 'Transaction has already been
    processed'. *)
Example postDeposit_replay_response :
  postDeposit Verifier.textKey 1 (Some "MINT") (Ok (Some Verifier.sampleDeposit))
    sampleBody storeAfterSample = (AlreadyProcessed "T1", storeAfterSample).
Proof. vm_compute. reflexivity. Qed.

End DepositFacts.

(** ** Deposit transaction verifier *)

Section VerifierFacts.

Import Verifier.

Lemma truthy_Some a : truthy a = true -> exists s, a = Some s /\ s <> "".
Proof.
  destruct a as [s|]; simpl; [|discriminate].
  destruct (String.eqb_spec s ""); [discriminate|]. eauto.
Qed.

Lemma strictEq_true a s : strictEq a s = true <-> a = Some s.
Proof.
  destruct a as [x|]; simpl.
  - rewrite String.eqb_eq. split; congruence.
  - split; discriminate.
Qed.

Lemma strictEq_default a e :
  truthy e = true -> (strictEq a (default "" e) = true <-> a = e).
Proof.
  intros H. apply truthy_Some in H as (s & -> & _). simpl. apply strictEq_true.
Qed.

(** The instruction loop stops at a transfer to the recipient if there
    is one, and otherwise leaves the locals alone. *)
Lemma scanInstructions_spec recipient l acc locals :
  scanInstructions recipient l acc = Ok locals ->
  (existsb (isTransferTo recipient) l = false /\ locals = acc) \/
  (existsb (isTransferTo recipient) l = true /\
   exists instruction p i,
     In instruction l /\ isTransferTo recipient instruction = true /\
     parsed instruction = Some p /\ info p = Some i /\ locals = readTransfer i).
Proof.
  induction l as [|instruction rest IH]; simpl; intros H.
  - left. split; [reflexivity|congruence].
  - unfold isTransferTo at 1 3.
    destruct (String.eqb (programId instruction) TOKEN_PROGRAM_ID) eqn:Eprog; simpl.
    2:{ destruct (IH H) as [[? ?]|(? & x & p & i & ? & ?)];
          [left; auto | right; split; [assumption|]; exists x, p, i; tauto]. }
    destruct (parsed instruction) as [p|] eqn:Eparsed; simpl.
    2:{ destruct (IH H) as [[? ?]|(? & x & p & i & ? & ?)];
          [left; auto | right; split; [assumption|]; exists x, p, i; tauto]. }
    destruct (isTransferType (type p)) eqn:Etype; simpl.
    2:{ destruct (IH H) as [[? ?]|(? & x & p' & i & ? & ?)];
          [left; auto | right; split; [assumption|]; exists x, p', i; tauto]. }
    destruct (info p) as [i|] eqn:Einfo; [|discriminate].
    destruct (strictEq (or_else (destination i) (to i)) recipient) eqn:Edest; simpl.
    + right. split; [reflexivity|]. exists instruction, p, i.
      injection H as <-. repeat split; auto.
      unfold isTransferTo. rewrite Eprog, Eparsed, Etype, Einfo, Edest. reflexivity.
    + destruct (IH H) as [[? ?]|(? & x & p' & i' & ? & ?)];
        [left; auto | right; split; [assumption|]; exists x, p', i'; tauto].
Qed.

Lemma scanBalances_spec expectedRecipient pre post acc :
  let owned := fun b => strictEq (tb_owner b) expectedRecipient in
  (existsb owned post = false /\
   scanBalances expectedRecipient pre post acc = acc) \/
  (existsb owned post = true /\
   exists b, In b post /\ owned b = true /\
     tokenTransferFound (scanBalances expectedRecipient pre post acc) = true /\
     l_actualAmount (scanBalances expectedRecipient pre post acc) =
       match uiAmount (uiTokenAmount b) with Some q => q | None => 0 end
       - preBalanceOf pre (accountIndex b) /\
     transferAuthority (scanBalances expectedRecipient pre post acc) =
       transferAuthority acc).
Proof.
  intros owned. induction post as [|b rest IH]; simpl.
  - left. auto.
  - unfold owned at 1 3. destruct (strictEq (tb_owner b) expectedRecipient) eqn:E; simpl.
    + right. split; [reflexivity|]. exists b. repeat split; auto.
    + destruct IH as [[? ?]|(? & x & ? & ?)];
        [left; auto | right; split; [assumption|]; exists x; tauto].
Qed.

Lemma existsb_false_forall {A} (f : A -> bool) (l : list A) :
  existsb f l = false <-> forall x, In x l -> f x = false.
Proof.
  induction l as [|a l IH]; simpl.
  - split; [intros _ x []|reflexivity].
  - rewrite orb_false_iff, IH. split.
    + intros [Ha Hl] x [<-|Hx]; auto.
    + intros H. split; [apply H; auto|]. intros x Hx. apply H. auto.
Qed.

(** No transfer is found exactly when neither loop has anything to stop
    at. *)
Lemma locateTransfer_not_found recipientPubkey expectedRecipient transaction locals :
  locateTransfer recipientPubkey expectedRecipient transaction = Ok locals ->
  (tokenTransferFound locals = false <->
   noInstructionTo recipientPubkey transaction /\
   noBalanceOf expectedRecipient transaction).
Proof.
  unfold locateTransfer, noInstructionTo, noBalanceOf. intros H.
  destruct (instructions transaction) as [l|] eqn:Ei.
  - destruct (scanInstructions recipientPubkey l initialLocals) as [loc|e] eqn:S;
      [|discriminate].
    apply scanInstructions_spec in S
      as [[Hex ->]|(Hex & x & p & i & Hin & Hx & _ & _ & ->)].
    + simpl in H. rewrite existsb_false_forall in Hex.
      destruct (meta transaction) as [m|] eqn:Em.
      * destruct (postTokenBalances m) as [post|] eqn:Ep.
        -- injection H as <-.
           destruct (scanBalances_spec expectedRecipient (preTokenBalances m) post
                       initialLocals) as [[Hb ->]|(Hb & b & Hinb & Hob & Hf & _)].
           ++ rewrite existsb_false_forall in Hb. simpl. split; [|reflexivity].
              intros _. split.
              ** intros ? [= <-]. exact Hex.
              ** intros ? ? [= <-] Hp. rewrite Ep in Hp. injection Hp as <-. exact Hb.
           ++ rewrite Hf. split; [discriminate|]. intros [_ Hno].
              rewrite (Hno m post eq_refl Ep b Hinb) in Hob. discriminate.
        -- injection H as <-. simpl. split; [|reflexivity]. intros _. split.
           ++ intros ? [= <-]. exact Hex.
           ++ intros ? ? [= <-] Hp. congruence.
      * injection H as <-. simpl. split; [|reflexivity]. intros _. split.
        -- intros ? [= <-]. exact Hex.
        -- intros ? ? Hm. discriminate.
    + simpl in H. injection H as <-. simpl. split; [discriminate|].
      intros [Hno _]. rewrite (Hno l eq_refl x Hin) in Hx. discriminate.
  - simpl in H. destruct (meta transaction) as [m|] eqn:Em.
    + destruct (postTokenBalances m) as [post|] eqn:Ep.
      * injection H as <-.
        destruct (scanBalances_spec expectedRecipient (preTokenBalances m) post
                    initialLocals) as [[Hb ->]|(Hb & b & Hinb & Hob & Hf & _)].
        -- rewrite existsb_false_forall in Hb. simpl. split; [|reflexivity].
           intros _. split; [discriminate|].
           intros ? ? [= <-] Hp. rewrite Ep in Hp. injection Hp as <-. exact Hb.
        -- rewrite Hf. split; [discriminate|]. intros [_ Hno].
           rewrite (Hno m post eq_refl Ep b Hinb) in Hob. discriminate.
      * injection H as <-. simpl. split; [|reflexivity]. intros _.
        split; [discriminate|]. intros ? ? [= <-] Hp. congruence.
    + injection H as <-. simpl. split; [|reflexivity]. intros _.
      split; discriminate.
Qed.

Lemma checkTransfer_isValid locals expectedAmount expectedTokenMint expectedSender :
  isValid (checkTransfer locals expectedAmount expectedTokenMint expectedSender) =
  tokenTransferFound locals
  && negb (truthy expectedSender && negb (truthy (transferAuthority locals)))
  && negb (truthy expectedSender
           && negb (strictEq (transferAuthority locals) (default "" expectedSender)))
  && negb (truthy expectedTokenMint
           && negb (strictEq (tokenMint locals) (default "" expectedTokenMint)))
  && match expectedAmount with
     | Some expected => negb (Qgtb (Qabs (l_actualAmount locals - expected)) tolerance)
     | None => true
     end.
Proof.
  unfold checkTransfer.
  destruct (tokenTransferFound locals); [|reflexivity]. cbn [negb andb].
  destruct (truthy expectedSender && negb (truthy (transferAuthority locals)));
    [reflexivity|]. cbn [negb andb].
  destruct (truthy expectedSender
            && negb (strictEq (transferAuthority locals) (default "" expectedSender)));
    [reflexivity|]. cbn [negb andb].
  destruct (truthy expectedTokenMint
            && negb (strictEq (tokenMint locals) (default "" expectedTokenMint)));
    [reflexivity|]. cbn [negb andb].
  destruct expectedAmount as [expected|]; [|reflexivity].
  destruct (Qgtb (Qabs (l_actualAmount locals - expected)) tolerance); reflexivity.
Qed.

Lemma expectation_met found expected :
  (truthy expected && negb (truthy found) = false /\
   truthy expected && negb (strictEq found (default "" expected)) = false) <->
  matches found expected.
Proof.
  unfold matches. destruct (truthy expected) eqn:E; simpl.
  - rewrite !negb_false_iff, (strictEq_default _ _ E). split.
    + intros [_ H] _. exact H.
    + intros H. specialize (H eq_refl). subst found. auto.
  - split; [discriminate|auto].
Qed.

(** [checkTransfer] accepts exactly when a transfer was found and every
    supplied expectation is met. *)
Lemma checkTransfer_valid locals expectedAmount expectedTokenMint expectedSender :
  isValid (checkTransfer locals expectedAmount expectedTokenMint expectedSender) = true <->
  tokenTransferFound locals = true /\
  matches (transferAuthority locals) expectedSender /\
  matches (tokenMint locals) expectedTokenMint /\
  withinTolerance (l_actualAmount locals) expectedAmount.
Proof.
  rewrite checkTransfer_isValid, !andb_true_iff, !negb_true_iff.
  rewrite <- (expectation_met (transferAuthority locals) expectedSender).
  assert (Hm : truthy expectedTokenMint
               && negb (strictEq (tokenMint locals) (default "" expectedTokenMint)) = false
               <-> matches (tokenMint locals) expectedTokenMint).
  { unfold matches. destruct (truthy expectedTokenMint) eqn:E; simpl.
    - rewrite negb_false_iff, (strictEq_default _ _ E). split; auto.
    - split; [discriminate|auto]. }
  rewrite Hm.
  assert (Ha : match expectedAmount with
               | Some expected =>
                   negb (Qgtb (Qabs (l_actualAmount locals - expected)) tolerance)
               | None => true
               end = true <-> withinTolerance (l_actualAmount locals) expectedAmount).
  { unfold withinTolerance. destruct expectedAmount as [a|].
    - rewrite negb_true_iff. unfold Qgtb. rewrite Qltb_ge. split.
      + intros H ? [= <-]. exact H.
      + intros H. apply H. reflexivity.
    - split; [discriminate|reflexivity]. }
  rewrite Ha. tauto.
Qed.

(** A valid result carries the amount found and no error; an invalid one
    carries an error. *)
Lemma checkTransfer_shape locals a m s :
  let r := checkTransfer locals a m s in
  (isValid r = true ->
   r = {| isValid := true; actualAmount := Some (l_actualAmount locals);
          error := None |}) /\
  (isValid r = false -> error r <> None).
Proof.
  unfold checkTransfer.
  repeat match goal with
         | |- context [if ?c then _ else _] => destruct c
         | |- context [match ?c with Some _ => _ | None => _ end] => destruct c
         end; simpl; split; intros; try discriminate; reflexivity.
Qed.

Section WithPublicKey.

Variable PublicKey : string -> result string.

Lemma verify_located rpc transaction key locals recipient a m s :
  rpc = Ok (Some transaction) -> txError transaction = None ->
  PublicKey recipient = Ok key ->
  locateTransfer key recipient transaction = Ok locals ->
  verifyDepositTransaction PublicKey rpc recipient a m s = checkTransfer locals a m s.
Proof.
  intros -> He Hk Hl. unfold verifyDepositTransaction, verifyBody.
  rewrite He, Hk, Hl. reflexivity.
Qed.

(** The instruction loop stops at the first transfer to the recipient
    and reads it. *)
Lemma scanInstructions_first recipient before instruction after acc p i :
  Forall (fun x => VerifierReads.passedOver recipient x = true) before ->
  isTransferTo recipient instruction = true ->
  parsed instruction = Some p -> info p = Some i ->
  scanInstructions recipient (before ++ instruction :: after) acc = Ok (readTransfer i).
Proof.
  intros Hb Hi Hp Hinfo. induction Hb as [|x before Hx _ IH]; simpl.
  - unfold isTransferTo in Hi. rewrite Hp, Hinfo in Hi.
    destruct (String.eqb (programId instruction) TOKEN_PROGRAM_ID); [|discriminate].
    rewrite Hp. destruct (isTransferType (type p)); [|discriminate].
    rewrite Hinfo. simpl in Hi. rewrite Hi. reflexivity.
  - unfold VerifierReads.passedOver, VerifierReads.unreadable, isTransferTo in Hx.
    destruct (String.eqb (programId x) TOKEN_PROGRAM_ID); [|exact IH].
    destruct (parsed x) as [px|]; [|exact IH].
    destruct (isTransferType (type px)); [|exact IH].
    destruct (info px) as [ix|]; [|discriminate].
    simpl in Hx. destruct (strictEq (or_else (destination ix) (to ix)) recipient);
      [discriminate|exact IH].
Qed.

Lemma scanInstructions_passed recipient l acc :
  Forall (fun x => VerifierReads.passedOver recipient x = true) l ->
  scanInstructions recipient l acc = Ok acc.
Proof.
  induction 1 as [|x l Hx _ IH]; simpl; [reflexivity|].
  unfold VerifierReads.passedOver, VerifierReads.unreadable, isTransferTo in Hx.
  destruct (String.eqb (programId x) TOKEN_PROGRAM_ID); [|exact IH].
  destruct (parsed x) as [px|]; [|exact IH].
  destruct (isTransferType (type px)); [|exact IH].
  destruct (info px) as [ix|]; [|discriminate].
  simpl in Hx. destruct (strictEq (or_else (destination ix) (to ix)) recipient);
    [discriminate|exact IH].
Qed.

(** The balance loop stops at the first balance the recipient owns. *)
Lemma scanBalances_first recipient pre before b after acc :
  Forall (fun x => strictEq (tb_owner x) recipient = false) before ->
  strictEq (tb_owner b) recipient = true ->
  scanBalances recipient pre (before ++ b :: after) acc
  = {| tokenTransferFound := true;
       l_actualAmount :=
         match uiAmount (uiTokenAmount b) with Some q => q | None => 0 end
         - preBalanceOf pre (accountIndex b);
       tokenMint := or_else (Some (tb_mint b)) None;
       transferAuthority := transferAuthority acc |}.
Proof.
  intros Hb Ho. induction Hb as [|x before Hx _ IH]; simpl.
  - rewrite Ho. reflexivity.
  - rewrite Hx. exact IH.
Qed.

(** C8. For a fetched transaction, [verifyDepositTransaction] answers
    isValid = false when the transaction does not exist, when it carries
    an execution error, when neither the parsed instructions nor the
    token-balance snapshots show a transfer to the expected recipient,
    when the mint found differs from a supplied expectedTokenMint, when
    the authority found differs from a supplied expectedSender, and when
    the amount found is further than the tolerance 0.0001 from a supplied
    expectedAmount.  When a transfer is found and every supplied
    expectation is met, it answers isValid = true with the amount found.
    The amount found is, for the first transfer instruction to the
    recipient, its [amount] (or else its [tokenAmount.amount], or else
    0) divided by ten to the power [tokenAmount.decimals] (9 when absent
    or 0), and, when no instruction is a transfer to the recipient, the
    [uiAmount] of the first post-balance the recipient owns minus the
    [uiAmount] of the pre-balance with the same account index (0 when
    there is none); the mint and the authority are read from the same
    place. *)
Theorem verifyDepositTransaction_checks :
  forall (fetched : option ParsedTransactionWithMeta) (expectedRecipient : string)
         (expectedAmount : option Q) (expectedTokenMint expectedSender : option string),
    let r := verifyDepositTransaction PublicKey (Ok fetched) expectedRecipient
               expectedAmount expectedTokenMint expectedSender in
    (fetched = None -> isValid r = false) /\
    (forall transaction, fetched = Some transaction ->
       (txError transaction <> None -> isValid r = false) /\
       (forall key locals,
           txError transaction = None ->
           PublicKey expectedRecipient = Ok key ->
           locateTransfer key expectedRecipient transaction = Ok locals ->
           (tokenTransferFound locals = false <->
              noInstructionTo key transaction /\
              noBalanceOf expectedRecipient transaction) /\
           (tokenTransferFound locals = false -> isValid r = false) /\
           (truthy expectedTokenMint = true ->
              tokenMint locals <> expectedTokenMint -> isValid r = false) /\
           (truthy expectedSender = true ->
              transferAuthority locals <> expectedSender -> isValid r = false) /\
           (forall expected, expectedAmount = Some expected ->
              tolerance < Qabs (l_actualAmount locals - expected) ->
              isValid r = false) /\
           (tokenTransferFound locals = true ->
            matches (transferAuthority locals) expectedSender ->
            matches (tokenMint locals) expectedTokenMint ->
            withinTolerance (l_actualAmount locals) expectedAmount ->
            r = {| isValid := true; actualAmount := Some (l_actualAmount locals);
                   error := None |}))) /\
    (forall transaction key before instruction after p i,
        fetched = Some transaction -> txError transaction = None ->
        PublicKey expectedRecipient = Ok key ->
        instructions transaction = Some (before ++ instruction :: after) ->
        Forall (fun x => VerifierReads.passedOver key x = true) before ->
        isTransferTo key instruction = true ->
        parsed instruction = Some p -> info p = Some i ->
        let raw :=
          match amount i with
          | Some a => a
          | None =>
              match tokenAmount i with
              | Some ta => match ta_amount ta with Some a => a | None => 0 end
              | None => 0
              end
          end in
        let decimals :=
          match tokenAmount i with
          | Some ta =>
              match ta_decimals ta with
              | Some d => if (d =? 0)%N then 9%N else d
              | None => 9%N
              end
          | None => 9%N
          end in
        let actual := raw / inject_Z (10 ^ Z.of_N decimals) in
        let foundMint :=
          if truthy (mint i) then mint i
          else if truthy (mintAccount i) then mintAccount i else None in
        let foundAuthority :=
          match authority i with
          | Some x => Some x
          | None => match owner i with Some x => Some x | None => source i end
          end in
        (isValid r = true <->
           matches foundAuthority expectedSender /\
           matches foundMint expectedTokenMint /\
           (forall expected, expectedAmount = Some expected ->
              Qabs (actual - expected) <= tolerance)) /\
        (isValid r = true ->
           r = {| isValid := true; actualAmount := Some actual; error := None |})) /\
    (forall transaction key m before b after,
        fetched = Some transaction -> txError transaction = None ->
        PublicKey expectedRecipient = Ok key ->
        (instructions transaction = None \/
         exists l, instructions transaction = Some l /\
                   Forall (fun x => VerifierReads.passedOver key x = true) l) ->
        meta transaction = Some m ->
        postTokenBalances m = Some (before ++ b :: after) ->
        Forall (fun x => strictEq (tb_owner x) expectedRecipient = false) before ->
        strictEq (tb_owner b) expectedRecipient = true ->
        let postBalance :=
          match uiAmount (uiTokenAmount b) with Some q => q | None => 0 end in
        let preBalance :=
          match preTokenBalances m with
          | None => 0
          | Some pre =>
              match List.find (fun x => Nat.eqb (accountIndex x) (accountIndex b)) pre with
              | Some x => match uiAmount (uiTokenAmount x) with Some q => q | None => 0 end
              | None => 0
              end
          end in
        let actual := postBalance - preBalance in
        let foundMint := if String.eqb (tb_mint b) "" then None else Some (tb_mint b) in
        (isValid r = true <->
           truthy expectedSender = false /\
           matches foundMint expectedTokenMint /\
           (forall expected, expectedAmount = Some expected ->
              Qabs (actual - expected) <= tolerance)) /\
        (isValid r = true ->
           r = {| isValid := true; actualAmount := Some actual; error := None |})).
Proof.
  intros fetched recipient a m s r. split; [|split; [|split]].
  - intros ->. reflexivity.
  - intros transaction ->. split.
    + intros He. subst r. unfold verifyDepositTransaction, verifyBody.
      destruct (txError transaction); [reflexivity|congruence].
    + intros key locals He Hk Hl.
      assert (Hr : r = checkTransfer locals a m s)
        by (eapply verify_located; eauto).
      split; [apply locateTransfer_not_found, Hl|].
      split; [|split; [|split; [|split]]].
      * intros Hf. destruct (isValid r) eqn:V; [|reflexivity]. exfalso.
        rewrite Hr in V. apply checkTransfer_valid in V as (V & _). congruence.
      * intros Ht Hne. destruct (isValid r) eqn:V; [|reflexivity]. exfalso.
        rewrite Hr in V. apply checkTransfer_valid in V as (_ & _ & V & _). auto.
      * intros Ht Hne. destruct (isValid r) eqn:V; [|reflexivity]. exfalso.
        rewrite Hr in V. apply checkTransfer_valid in V as (_ & V & _ & _). auto.
      * intros expected -> Hgt. destruct (isValid r) eqn:V; [|reflexivity]. exfalso.
        rewrite Hr in V. apply checkTransfer_valid in V as (_ & _ & _ & V).
        specialize (V expected eq_refl). lra.
      * intros Hf Hs Hm Ha. rewrite Hr.
        apply (checkTransfer_shape locals a m s), checkTransfer_valid. auto.
  - intros transaction key before instruction after p i -> He Hk Hins Hb Hi Hp Hinfo
      raw decimals actual foundMint foundAuthority.
    assert (Hl : locateTransfer key recipient transaction = Ok (readTransfer i)).
    { unfold locateTransfer. rewrite Hins.
      rewrite (scanInstructions_first key before instruction after initialLocals p i
                 Hb Hi Hp Hinfo). reflexivity. }
    assert (Hr : r = checkTransfer (readTransfer i) a m s)
      by (eapply verify_located; eauto).
    assert (Hmint : tokenMint (readTransfer i) = foundMint).
    { subst foundMint. unfold readTransfer, or_else. cbn [tokenMint].
      destruct (truthy (mint i)) eqn:T1; cbn match; [rewrite T1; reflexivity|].
      destruct (truthy (mintAccount i)) eqn:T2; reflexivity. }
    assert (Hauth : transferAuthority (readTransfer i) = foundAuthority).
    { subst foundAuthority. unfold readTransfer, nullish. cbn [transferAuthority].
      destruct (authority i); [reflexivity|].
      destruct (owner i); [reflexivity|]. destruct (source i); reflexivity. }
    assert (Hamount : l_actualAmount (readTransfer i) = actual) by reflexivity.
    rewrite Hr. split.
    + rewrite checkTransfer_valid, Hmint, Hauth, Hamount.
      unfold withinTolerance. cbn [tokenTransferFound readTransfer]. tauto.
    + intros V. rewrite <- Hamount.
      apply (checkTransfer_shape (readTransfer i) a m s), V.
  - intros transaction key mt before b after -> He Hk Hins Hmeta Hpost Hb Ho
      postBalance preBalance actual foundMint.
    set (locals := {| tokenTransferFound := true;
                      l_actualAmount := actual;
                      tokenMint := foundMint;
                      transferAuthority := None |}).
    assert (Hl : locateTransfer key recipient transaction = Ok locals).
    { unfold locateTransfer.
      assert (Hscan : match instructions transaction with
                      | Some l => scanInstructions key l initialLocals
                      | None => Ok initialLocals
                      end = Ok initialLocals).
      { destruct Hins as [->|(l & -> & Hl)]; [reflexivity|].
        apply scanInstructions_passed, Hl. }
      rewrite Hscan. cbn [tokenTransferFound initialLocals]. rewrite Hmeta, Hpost.
      rewrite (scanBalances_first recipient (preTokenBalances mt) before b after
                 initialLocals Hb Ho).
      subst locals actual postBalance preBalance foundMint. unfold preBalanceOf.
      unfold or_else, truthy. cbn [transferAuthority initialLocals].
      destruct (String.eqb (tb_mint b) ""); reflexivity. }
    assert (Hr : r = checkTransfer locals a m s)
      by (eapply verify_located; eauto).
    rewrite Hr. split.
    + rewrite checkTransfer_valid. unfold withinTolerance, matches.
      cbn [tokenTransferFound tokenMint transferAuthority l_actualAmount locals].
      split.
      * intros (_ & Hs & Hm & Ha). split; [|auto].
        destruct (truthy s) eqn:T; [|reflexivity]. specialize (Hs eq_refl).
        subst s. discriminate.
      * intros (Hs & Hm & Ha). split; [reflexivity|]. split; [|auto].
        intros T. congruence.
    + intros V. apply (checkTransfer_shape locals a m s), V.
Qed.

(** C10. [verifyDepositTransaction] always returns a result object: an
    error thrown inside it (by the RPC call, by the parsing of the
    recipient address, or by the reading of a malformed instruction) is
    caught and reported as isValid = false with the error attached; a
    result with isValid = true only comes from a body that ran to its
    end, and every invalid result carries an error. *)
Theorem verifyDepositTransaction_total :
  forall (rpc : result (option ParsedTransactionWithMeta)) (expectedRecipient : string)
         (expectedAmount : option Q) (expectedTokenMint expectedSender : option string),
    let r := verifyDepositTransaction PublicKey rpc expectedRecipient
               expectedAmount expectedTokenMint expectedSender in
    (forall e, verifyBody PublicKey rpc expectedRecipient expectedAmount
                 expectedTokenMint expectedSender = Throw e ->
               r = invalid (VerificationFailed e)) /\
    (forall e, rpc = Throw e -> r = invalid (VerificationFailed e)) /\
    (forall transaction e,
        rpc = Ok (Some transaction) -> txError transaction = None ->
        PublicKey expectedRecipient = Throw e ->
        r = invalid (VerificationFailed e)) /\
    (forall transaction key e,
        rpc = Ok (Some transaction) -> txError transaction = None ->
        PublicKey expectedRecipient = Ok key ->
        locateTransfer key expectedRecipient transaction = Throw e ->
        r = invalid (VerificationFailed e)) /\
    (isValid r = true ->
       error r = None /\
       exists transaction key locals,
         rpc = Ok (Some transaction) /\ txError transaction = None /\
         PublicKey expectedRecipient = Ok key /\
         locateTransfer key expectedRecipient transaction = Ok locals /\
         tokenTransferFound locals = true /\
         actualAmount r = Some (l_actualAmount locals)) /\
    (isValid r = false -> error r <> None).
Proof.
  intros rpc recipient a m s r. subst r.
  unfold verifyDepositTransaction, verifyBody.
  split; [|split; [|split; [|split; [|split]]]].
  - intros e ->. reflexivity.
  - intros e ->. reflexivity.
  - intros transaction e -> -> ->. reflexivity.
  - intros transaction key e -> -> -> ->. reflexivity.
  - destruct rpc as [[transaction|]|e]; simpl; try discriminate.
    destruct (txError transaction) eqn:He; simpl; try discriminate.
    destruct (PublicKey recipient) as [key|e] eqn:Hk; simpl; try discriminate.
    destruct (locateTransfer key recipient transaction) as [locals|e] eqn:Hl; simpl;
      try discriminate.
    intros V. pose proof (proj1 (checkTransfer_shape locals a m s) V) as Hshape.
    apply checkTransfer_valid in V as (Hf & _).
    rewrite Hshape. simpl. split; [reflexivity|].
    exists transaction, key, locals. auto 7.
  - destruct rpc as [[transaction|]|e]; simpl; try discriminate.
    destruct (txError transaction) eqn:He; simpl; try discriminate.
    destruct (PublicKey recipient) as [key|e] eqn:Hk; simpl; try discriminate.
    destruct (locateTransfer key recipient transaction) as [locals|e] eqn:Hl; simpl;
      try discriminate.
    apply (checkTransfer_shape locals a m s).
Qed.

End WithPublicKey.

(** An address the key parser rejects (here the empty text) gives an
    invalid result, not an exception. *)
Lemma verifyDepositTransaction_total_witness :
  verifyDepositTransaction textKey (Ok (Some sampleDeposit)) "" None None None
  = invalid (VerificationFailed (External "Invalid public key input")).
Proof.
  apply (verifyDepositTransaction_total textKey (Ok (Some sampleDeposit)) "" None None None)
    with (transaction := sampleDeposit); reflexivity.
Defined.

(** The instruction of the sample transfer is read, not the snapshots:
    2500000 base units with 6 decimals are 2.5 tokens, accepted for an
    expected amount of 2.50005 from sender S. *)
Lemma verifyDepositTransaction_checks_witness :
  verifyDepositTransaction textKey (Ok (Some VerifierReads.sampleTransferChecked)) "W"
    (Some (250005 # 100000)) (Some "MINT") (Some "S")
  = {| isValid := true; actualAmount := Some (2500000 / inject_Z (10 ^ 6));
       error := None |}.
Proof.
  destruct (verifyDepositTransaction_checks textKey
              (Some VerifierReads.sampleTransferChecked) "W"
              (Some (250005 # 100000)) (Some "MINT") (Some "S")) as (_ & _ & H & _).
  destruct (H VerifierReads.sampleTransferChecked "W"
              [ {| programId := "ComputeBudget111111111111111111111111111111";
                   parsed := None |} ] _ [] _ _
              eq_refl eq_refl eq_refl eq_refl
              ltac:(repeat constructor) eq_refl eq_refl eq_refl)
    as [Hiff Hshape].
  apply Hshape, Hiff. split; [intros _; reflexivity|].
    split; [intros _; reflexivity|].
    intros ? [= <-]. vm_compute. discriminate.
Defined.

(** Without instructions the snapshots decide: W's account grew by
    7 - 4 = 3 tokens; an expected sender cannot be checked there. *)
Example verifyDepositTransaction_reads_snapshots :
  verifyDepositTransaction textKey (Ok (Some VerifierReads.sampleSnapshots)) "W"
    (Some 3) (Some "MINT") None
  = {| isValid := true; actualAmount := Some (7 - 4); error := None |} /\
  isValid (verifyDepositTransaction textKey (Ok (Some VerifierReads.sampleSnapshots)) "W"
             (Some 3) (Some "MINT") (Some "S")) = false.
Proof. split; reflexivity. Qed.

(** Beyond the tolerance the same transaction is rejected. *)
Example verifyDepositTransaction_rejects_amount :
  isValid (verifyDepositTransaction textKey (Ok (Some sampleDeposit)) "W"
             (Some (10001 # 1000)) (Some "MINT") None) = false /\
  isValid (verifyDepositTransaction textKey (Ok (Some sampleDeposit)) "W"
             (Some (100001 # 10000)) (Some "MINT") None) = true.
Proof. split; reflexivity. Qed.

End VerifierFacts.

(** ** Settlement service *)

Section SettlementFacts.

Import Ledger Settlement.

Lemma insertByTimestamp_Permutation r l :
  Permutation (insertByTimestamp r l) (r :: l).
Proof.
  induction l as [|x l IH]; simpl; [reflexivity|].
  destruct (ur_timestamp r <=? ur_timestamp x)%Z; [reflexivity|].
  rewrite IH. apply perm_swap.
Qed.

Lemma sortByTimestamp_Permutation l : Permutation (sortByTimestamp l) l.
Proof.
  induction l as [|x l IH]; simpl; [reflexivity|].
  rewrite insertByTimestamp_Permutation. constructor. exact IH.
Qed.

Lemma unsettled_In r l : In r (unsettled l) <-> In r l /\ settled r = false.
Proof.
  unfold unsettled. rewrite filter_In, negb_true_iff. reflexivity.
Qed.

Lemma In_take {A} (x : A) n l : In x (take n l) -> In x l.
Proof.
  revert l. induction n as [|n IH]; intros [|y l]; simpl; try tauto.
  intros [->|H]; auto.
Qed.

(** What the query returns is unsettled and in the store. *)
Lemma fetched_unsettled limit records r :
  In r (take limit (sortByTimestamp (unsettled records))) ->
  In r records /\ settled r = false.
Proof.
  intros H. apply In_take in H.
  apply (Permutation_in _ (sortByTimestamp_Permutation _)) in H.
  apply unsettled_In, H.
Qed.

Lemma existsb_eqb_In (i : nat) (ids : list nat) :
  existsb (Nat.eqb i) ids = true <-> In i ids.
Proof.
  rewrite existsb_exists. split.
  - intros (x & Hx & E). apply Nat.eqb_eq in E. subst. exact Hx.
  - intros H. exists i. split; [exact H|apply Nat.eqb_refl].
Qed.

(** The bulk update touches exactly the records whose id was given. *)
Lemma markOne_markedBy ids txHash (records : list IUsageRecord) :
  Forall2 (markedBy ids txHash) records (map (markOne ids txHash) records).
Proof.
  induction records as [|r records IH]; simpl; constructor; [|exact IH].
  unfold markedBy, markOne. destruct (existsb (Nat.eqb (_id r)) ids) eqn:E.
  - left. split; [apply existsb_eqb_In, E|reflexivity].
  - right. split; [|reflexivity]. intros H. apply existsb_eqb_In in H. congruence.
Qed.

Lemma awaitUnsettledRecords_ok limit w :
  awaitUnsettledRecords None limit w =
    (Ok (take limit (sortByTimestamp (unsettled (UsageRecord (store w))))),
     addEvent (Find limit) w).
Proof. reflexivity. Qed.

Lemma awaitUnsettledRecords_error e limit w :
  awaitUnsettledRecords (Some e) limit w = (Throw e, addEvent (Find limit) w).
Proof. reflexivity. Qed.

Section WithChainLibrary.

Variable PublicKey : string -> result string.
Variable getAssociatedTokenAddress : string -> string -> result string.

Abbreviation executeOnChainSettlement :=
  (Settlement.executeOnChainSettlement PublicKey getAssociatedTokenAddress).
Abbreviation executeBatchSettlement :=
  (Settlement.executeBatchSettlement PublicKey getAssociatedTokenAddress).
Abbreviation checkAndSettleIfNeeded :=
  (Settlement.checkAndSettleIfNeeded PublicKey getAssociatedTokenAddress).
Abbreviation step := (Settlement.step PublicKey getAssociatedTokenAddress).
Abbreviation stepAt := (Settlement.stepAt PublicKey getAssociatedTokenAddress).
Abbreviation runSchedule := (Settlement.runSchedule PublicKey getAssociatedTokenAddress).

(** The inner [try] either throws before anything was submitted, or
    submits one transaction built from the two amounts. *)
Lemma onChainTry_cases env mint treasury backend burnAmount treasuryAmount w :
  (exists e, onChainTry getAssociatedTokenAddress env mint treasury backend
               burnAmount treasuryAmount w = (Throw e, w)) \/
  (exists tx backendAccount treasuryAccount decimals,
      sendAndConfirm env = Ok (signature tx) /\
      tx_instructions tx =
        instructionsFor backendAccount mint treasuryAccount backend
          burnAmount treasuryAmount decimals /\
      onChainTry getAssociatedTokenAddress env mint treasury backend
        burnAmount treasuryAmount w = (Ok (signature tx), addEvent (Submit tx) w)).
Proof.
  unfold onChainTry, bind, lift, ret, throw, emit.
  destruct (getAssociatedTokenAddress mint backend) as [ba|e]; [|left; eauto].
  destruct (getAssociatedTokenAddress mint treasury) as [ta|e]; [|left; eauto].
  destruct (backendAccountAmount env) as [amount|e]; [|left; eauto].
  destruct (Qltb _ (burnAmount + treasuryAmount)); [left; eauto|].
  destruct (latestBlockhash env) as [blockhash|e]; [|left; eauto].
  destruct (sendAndConfirm env) as [sig|e]; [|left; eauto].
  right. eexists {| signature := sig |}, ba, ta, _. simpl.
  split; [reflexivity|]. split; reflexivity.
Qed.

Lemma executeOnChainSettlement_cases env burnAmount treasuryAmount w :
  (exists e, executeOnChainSettlement env burnAmount treasuryAmount w = (Throw e, w)) \/
  (exists tx backendAccount mint treasuryAccount backend decimals,
      sendAndConfirm env = Ok (signature tx) /\
      tx_instructions tx =
        instructionsFor backendAccount mint treasuryAccount backend
          burnAmount treasuryAmount decimals /\
      executeOnChainSettlement env burnAmount treasuryAmount w =
        (Ok (signature tx), addEvent (Submit tx) w)).
Proof.
  unfold Settlement.executeOnChainSettlement.
  destruct (backendWallet (service w)) as [backend|]; [|left; eauto].
  destruct (String.eqb (tokenMintAddress (service w)) ""); [left; eauto|].
  destruct (String.eqb (treasuryWalletAddress (service w)) ""); [left; eauto|].
  destruct (PublicKey (tokenMintAddress (service w))) as [mint|e]; [|left; eauto].
  destruct (PublicKey (treasuryWalletAddress (service w))) as [treasury|e];
    [|left; eauto].
  destruct (onChainTry_cases env mint treasury backend burnAmount treasuryAmount w)
    as [[e H]|(tx & ba & ta & d & Hs & Hi & H)]; rewrite H.
  - left. eauto.
  - right. exists tx, ba, mint, ta, backend, d. auto.
Qed.

(** *** The in-progress flag *)

Lemma step_Start_busy env w :
  isSettling (service w) = true -> step env Start w = (Done (Ok tt), w).
Proof. intros H. simpl. rewrite H. reflexivity. Qed.

Lemma setSettling_flag b w : isSettling (service (setSettling b w)) = b.
Proof. reflexivity. Qed.

Lemma executeOnChainSettlement_flag env b t w r w' :
  executeOnChainSettlement env b t w = (r, w') ->
  isSettling (service w') = isSettling (service w).
Proof.
  intros H.
  destruct (executeOnChainSettlement_cases env b t w)
    as [[e Hc]|(tx & ? & ? & ? & ? & ? & _ & _ & Hc)];
    rewrite Hc in H; injection H as <- <-; reflexivity.
Qed.

Lemma awaitUnsettledRecords_flag err limit w r w' :
  awaitUnsettledRecords err limit w = (r, w') ->
  isSettling (service w') = isSettling (service w).
Proof. destruct err; intros [= <- <-]; reflexivity. Qed.

Lemma awaitMarkAsSettled_flag err ids txHash w r w' :
  awaitMarkAsSettled err ids txHash w = (r, w') ->
  isSettling (service w') = isSettling (service w).
Proof. destruct err as [[e written]|]; intros [= <- <-]; reflexivity. Qed.

(** One step of a task, by what the task was doing: a call that starts
    takes the flag or returns at once; a call in flight keeps the flag
    while it awaits and clears it in the step in which it ends. *)
Lemma step_flag env t w t' w' :
  step env t w = (t', w') ->
  match t with
  | Start =>
      (isSettling (service w) = true /\ t' = Done (Ok tt) /\ w' = w) \/
      (isSettling (service w) = false /\ t' = AwaitRecords /\
       isSettling (service w') = true)
  | Done r => t' = Done r /\ w' = w
  | _ =>
      (running t' = true /\ isSettling (service w') = isSettling (service w)) \/
      (finished t' = true /\ isSettling (service w') = false)
  end.
Proof.
  destruct t as [| |recs b tr|recs tx|r]; simpl; intros H.
  - destruct (isSettling (service w)) eqn:E; injection H as <- <-; auto.
  - destruct (awaitUnsettledRecords (findError env) 100 w) as [[recs|e] w1] eqn:A;
      apply awaitUnsettledRecords_flag in A.
    + destruct (length recs =? 0)%nat; injection H as <- <-; auto.
    + injection H as <- <-. auto.
  - destruct (executeOnChainSettlement (chainEnv env) b tr w) as [[sig|e] w1] eqn:A;
      apply executeOnChainSettlement_flag in A; injection H as <- <-; auto.
  - destruct (awaitMarkAsSettled (updateError env) (map _id recs) tx w) as [r w1] eqn:A.
    injection H as <- <-. auto.
  - injection H as <- <-. auto.
Qed.

Lemma countRunning_insert tasks i t t' :
  tasks !! i = Some t ->
  (countRunning (<[i := t']> tasks) + (if running t then 1 else 0)
   = countRunning tasks + (if running t' then 1 else 0))%nat.
Proof.
  unfold countRunning. revert i. induction tasks as [|x tasks IH]; intros [|i] H;
    try discriminate; simpl in *.
  - injection H as ->. destruct (running t), (running t'); simpl; lia.
  - specialize (IH i H). destruct (running x); simpl; lia.
Qed.

Lemma finished_not_running tasks :
  Forall (fun t => finished t = true) tasks -> countRunning tasks = 0%nat.
Proof.
  unfold countRunning. induction 1 as [|t tasks Ht _ IH]; [reflexivity|].
  simpl. destruct t; try discriminate. exact IH.
Qed.

Lemma stepAt_guarded i env sys : guarded sys -> guarded (stepAt i env sys).
Proof.
  destruct sys as [tasks w]. unfold guarded, Settlement.stepAt. simpl.
  destruct (tasks !! i) as [t|] eqn:Ht; [|auto].
  destruct (step env t w) as [t' w'] eqn:Hs. simpl. intros G.
  pose proof (countRunning_insert tasks i t t' Ht) as C.
  apply step_flag in Hs.
  destruct t as [| |recs b tr|recs tx|r]; simpl in *.
  - destruct Hs as [(E & -> & ->)|(E & -> & E')]; simpl in C.
    + lia.
    + rewrite E in G. rewrite E'. lia.
  - destruct Hs as [[R E]|[F E]]; rewrite E.
    + rewrite R in C. lia.
    + destruct t'; try discriminate. simpl in C.
      destruct (isSettling (service w)); lia.
  - destruct Hs as [[R E]|[F E]]; rewrite E.
    + rewrite R in C. lia.
    + destruct t'; try discriminate. simpl in C.
      destruct (isSettling (service w)); lia.
  - destruct Hs as [[R E]|[F E]]; rewrite E.
    + rewrite R in C. lia.
    + destruct t'; try discriminate. simpl in C.
      destruct (isSettling (service w)); lia.
  - destruct Hs as [-> ->]. simpl in C. lia.
Qed.

Lemma runSchedule_guarded schedule sys : guarded sys -> guarded (runSchedule schedule sys).
Proof.
  revert sys. induction schedule as [|[i env] schedule IH]; intros sys G; simpl.
  - exact G.
  - apply IH, stepAt_guarded, G.
Qed.

Lemma countRunning_repeat_Start n : countRunning (repeat Start n) = 0%nat.
Proof. unfold countRunning. induction n; simpl; auto. Qed.

Lemma executeBatchSettlement_flag env w :
  isSettling (service (snd (executeBatchSettlement env w))) = isSettling (service w).
Proof.
  unfold Settlement.executeBatchSettlement.
  destruct (isSettling (service w)) eqn:E; [exact E|].
  destruct (settlementTry _ _ _ _) as [r w']. reflexivity.
Qed.

(** A call that finds the flag clear gets past the guard: the first thing
    the collaborators see of it is the query for unsettled records. *)
Lemma executeBatchSettlement_reads env w :
  isSettling (service w) = false ->
  exists events,
    trace (snd (executeBatchSettlement env w)) = trace w ++ Find 100 :: events.
Proof.
  intros H. unfold Settlement.executeBatchSettlement. rewrite H.
  unfold settlementTry, bind.
  destruct (findError env) as [e|].
  { rewrite awaitUnsettledRecords_error. exists []. reflexivity. }
  rewrite awaitUnsettledRecords_ok.
  destruct (length _ =? 0)%nat.
  { exists []. reflexivity. }
  match goal with |- context [executeOnChainSettlement ?e ?b ?t ?w0] =>
    destruct (executeOnChainSettlement_cases e b t w0)
      as [[e' Hc]|(tx & ? & ? & ? & ? & ? & _ & _ & Hc)]; rewrite Hc
  end.
  { exists []. reflexivity. }
  unfold awaitMarkAsSettled. destruct (updateError env) as [[e' written]|].
  - exists [Submit tx; UpdateMany
              (map _id (take 100 (sortByTimestamp
                                    (unsettled (UsageRecord (store w))))))
              (signature tx)].
    simpl. rewrite <- !app_assoc. reflexivity.
  - exists [Submit tx; UpdateMany
              (map _id (take 100 (sortByTimestamp
                                    (unsettled (UsageRecord (store w))))))
              (signature tx)].
    simpl. rewrite <- !app_assoc. reflexivity.
Qed.

(** Stepping one task from [Start] to [Done] with no other call in
    between is [executeBatchSettlement]. *)
Lemma step_by_step env w :
  runSchedule [(0%nat, env); (0%nat, env); (0%nat, env); (0%nat, env)] ([Start], w)
  = ([Done (fst (executeBatchSettlement env w))], snd (executeBatchSettlement env w)).
Proof.
  unfold Settlement.runSchedule, Settlement.stepAt, Settlement.executeBatchSettlement.
  cbn [fold_left fst snd lookup list_lookup Settlement.step].
  destruct (isSettling (service w)) eqn:E.
  { reflexivity. }
  cbn [insert list_insert fst snd lookup list_lookup Settlement.step].
  unfold settlementTry, bind.
  destruct (awaitUnsettledRecords (findError env) 100 (setSettling true w))
    as [[recs|e] w1] eqn:A.
  2:{ reflexivity. }
  destruct (length recs =? 0)%nat.
  { reflexivity. }
  cbn [insert list_insert fst snd lookup list_lookup Settlement.step].
  destruct (Settlement.executeOnChainSettlement _ _ _ _ _ w1) as [[sig|e] w2].
  2:{ reflexivity. }
  cbn [insert list_insert fst snd lookup list_lookup Settlement.step].
  destruct (awaitMarkAsSettled _ _ _ w2) as [r w3]. reflexivity.
Qed.

(** C5. A call of [executeBatchSettlement] that finds the flag set
    returns at once and leaves the world (records, trace of queries,
    submitted transactions and bulk updates, and the flag) as it was.
    Under any interleaving of any number of calls, the flag is set
    exactly while one call is between its first and its last step, so no
    second call gets past the guard in the meantime; a call that takes
    the flag clears it in the step in which it ends, whether it returns
    or throws, so a call made after it gets past the guard and queries
    the records; once every call has ended the flag is clear. *)
Theorem settlement_flag_guard :
  (forall env w,
      isSettling (service w) = true ->
      step env Start w = (Done (Ok tt), w) /\
      executeBatchSettlement env w = (Ok tt, w)) /\
  (forall env w,
      isSettling (service w) = false ->
      isSettling (service (snd (executeBatchSettlement env w))) = false /\
      exists events,
        trace (snd (executeBatchSettlement env w)) = trace w ++ Find 100 :: events) /\
  (forall schedule n w,
      isSettling (service w) = false ->
      let sys := runSchedule schedule (repeat Start n, w) in
      guarded sys /\
      (countRunning (fst sys) <= 1)%nat /\
      (countRunning (fst sys) = 1%nat ->
         forall env, step env Start (snd sys) = (Done (Ok tt), snd sys)) /\
      (Forall (fun t => finished t = true) (fst sys) ->
         isSettling (service (snd sys)) = false)).
Proof.
  split; [|split].
  - intros env w H. split; [apply step_Start_busy, H|].
    unfold Settlement.executeBatchSettlement. rewrite H. reflexivity.
  - intros env w H. split; [rewrite executeBatchSettlement_flag; exact H|].
    apply executeBatchSettlement_reads, H.
  - intros schedule n w H sys.
    assert (G : guarded sys).
    { apply runSchedule_guarded. unfold guarded. simpl.
      rewrite countRunning_repeat_Start, H. reflexivity. }
    split; [exact G|]. unfold guarded in G. split; [|split].
    + rewrite G. destruct (isSettling (service (snd sys))); lia.
    + intros One env. apply step_Start_busy.
      rewrite One in G. destruct (isSettling (service (snd sys))); congruence.
    + intros F. apply finished_not_running in F. rewrite F in G.
      destruct (isSettling (service (snd sys))); congruence.
Qed.

(** *** The threshold check *)

Lemma Qgeb_Qeq a a' b : a == a' -> Qgeb a b = Qgeb a' b.
Proof.
  intros H. destruct (Qgeb a' b) eqn:E.
  - apply Qgeb_ge in E. apply Qgeb_ge. lra.
  - destruct (Qgeb a b) eqn:E'; [|reflexivity].
    apply Qgeb_ge in E'. assert (F : Qgeb a' b = true) by (apply Qgeb_ge; lra).
    congruence.
Qed.

Lemma Qgeb_lt a b : Qgeb a b = false <-> a < b.
Proof.
  unfold Qgeb. split.
  - intros H. apply Qnot_le_lt. intros L. apply Qle_bool_iff in L. congruence.
  - intros H. destruct (Qle_bool b a) eqn:E; [|reflexivity].
    apply Qle_bool_iff in E. lra.
Qed.

(** C9 (as the code has it). [checkAndSettleIfNeeded threshold] sums
    tokensBurned over the oldest unsettled records, at most 1000 of them,
    which are all of them when there are at most 1000; it calls
    [executeBatchSettlement] exactly when that sum is at least the
    threshold, returning true when the call returns and passing on its
    error when it throws, and returns false without calling it
    otherwise. *)
Theorem checkAndSettleIfNeeded_spec :
  forall (env : Env) (threshold : Q) (w : World),
    let pending := unsettled (UsageRecord (store w)) in
    let pendingAmount := Qsum (map tokensBurned (take 1000 (sortByTimestamp pending))) in
    let queried := addEvent (Find 1000) w in
    ((length pending <= 1000)%nat ->
       pendingAmount == Qsum (map tokensBurned pending)) /\
    (threshold <= pendingAmount ->
       checkAndSettleIfNeeded None env threshold w =
         match executeBatchSettlement env queried with
         | (Ok _, w') => (Ok true, w')
         | (Throw e, w') => (Throw e, w')
         end) /\
    (pendingAmount < threshold ->
       checkAndSettleIfNeeded None env threshold w = (Ok false, queried)).
Proof.
  intros env threshold w pending pendingAmount queried.
  assert (Hsum : reduce_sum tokensBurned (take 1000 (sortByTimestamp pending))
                 == pendingAmount) by apply reduce_sum_Qsum.
  split; [|split].
  - intros Hlen. subst pendingAmount. rewrite take_ge.
    + apply Qsum_Permutation, Permutation_map, sortByTimestamp_Permutation.
    + rewrite (Permutation_length (sortByTimestamp_Permutation pending)). exact Hlen.
  - intros Hle. unfold Settlement.checkAndSettleIfNeeded, bind.
    rewrite awaitUnsettledRecords_ok. fold pending. fold queried.
    rewrite (Qgeb_Qeq _ _ _ Hsum).
    assert (E : Qgeb pendingAmount threshold = true) by (apply Qgeb_ge, Hle).
    rewrite E. destruct (executeBatchSettlement env queried) as [[[]|e] w']; reflexivity.
  - intros Hlt. unfold Settlement.checkAndSettleIfNeeded, bind.
    rewrite awaitUnsettledRecords_ok. fold pending. fold queried.
    rewrite (Qgeb_Qeq _ _ _ Hsum).
    assert (E : Qgeb pendingAmount threshold = false) by (apply Qgeb_lt, Hlt).
    rewrite E. reflexivity.
Qed.

End WithChainLibrary.

(** Against C9 as stated: with 1001 unsettled records of one token each
    and a threshold of 1001, the sum over all unsettled records reaches
    the threshold, yet no settlement is triggered and the answer is
    false: the query stops at 1000 records. *)
Lemma checkAndSettleIfNeeded_stops_at_1000 :
  Qsum (map tokensBurned
          (unsettled (UsageRecord (store (worldOf (unitRecords 1001)))))) == 1001 /\
  Settlement.checkAndSettleIfNeeded Verifier.textKey ataOf None goodEnv 1001
    (worldOf (unitRecords 1001))
  = (Ok false, addEvent (Find 1000) (worldOf (unitRecords 1001))).
Proof. split; vm_compute; reflexivity. Qed.

Lemma checkAndSettleIfNeeded_spec_witness :
  Settlement.checkAndSettleIfNeeded Verifier.textKey ataOf None goodEnv 5
    (worldOf (unitRecords 3))
  = (Ok false, addEvent (Find 1000) (worldOf (unitRecords 3))).
Proof.
  apply (checkAndSettleIfNeeded_spec Verifier.textKey ataOf goodEnv 5
           (worldOf (unitRecords 3))).
  vm_compute. reflexivity.
Defined.

Lemma settlement_flag_guard_witness :
  isSettling
    (service (snd (Settlement.executeBatchSettlement Verifier.textKey ataOf
                     {| findError := None;
                        chainEnv := {| mintInfoDecimals := Ok None;
                                       backendAccountAmount := Throw (External "rpc");
                                       latestBlockhash := Ok "BLOCKHASH";
                                       sendAndConfirm := Ok "SIG" |};
                        updateError := None |}
                     (worldOf (unitRecords 3))))) = false.
Proof.
  apply (settlement_flag_guard Verifier.textKey ataOf). reflexivity.
Defined.

End SettlementFacts.

(** * Further properties: the price feed, the ledger queries, settlement and the routes *)

(** ** The price feed *)

Section PriceFeedFacts.

Import PriceOracle PriceFeed.

Lemma length_pos_Q {A} (l : list A) : l <> [] -> 0 < inject_Z (Z.of_nat (length l)).
Proof.
  intros H. destruct l; [congruence|].
  change 0 with (inject_Z 0). rewrite <- Zlt_Qlt. simpl length. lia.
Qed.

Lemma last_In {A} (l : list A) (x : A) : last l = Some x -> In x l.
Proof.
  intros H. apply last_Some in H as [l' ->]. apply in_or_app. right. left. reflexivity.
Qed.

Lemma Qsum_pos (l : list Q) :
  l <> [] -> Forall (fun x => 0 < x) l -> 0 < Qsum l.
Proof.
  intros Hne H. induction H as [|x l Hx H IH]; [congruence|].
  simpl. destruct l as [|y l'].
  - simpl. lra.
  - assert (0 < Qsum (y :: l')) by (apply IH; discriminate). lra.
Qed.

Lemma positivePrices_TWAP now o p :
  positivePrices o -> getTWAPPrice now o = Ok p -> 0 < p.
Proof.
  unfold positivePrices. intros Hpos H.
  destruct (List.filter (inWindow now o) (priceCache o)) as [|x rel] eqn:Hrel.
  - destruct (last (priceCache o)) as [entry|] eqn:Hlast.
    + rewrite (getTWAPPrice_out_of_window now o entry Hlast Hrel) in H.
      injection H as <-. rewrite Forall_forall in Hpos.
      apply Hpos, list_elem_of_In, last_In, Hlast.
    + apply last_None in Hlast. rewrite (getTWAPPrice_empty now o Hlast) in H.
      discriminate.
  - destruct (getTWAPPrice_in_window now o) as (q & Hq & Hm).
    { rewrite Hrel. discriminate. }
    rewrite Hq in H. injection H as <-. rewrite Hm. unfold mean.
    apply Qlt_shift_div_l.
    + apply length_pos_Q. rewrite Hrel. discriminate.
    + rewrite Qmult_0_l. apply Qsum_pos; [rewrite Hrel; discriminate|].
      apply Forall_forall. intros y Hy. apply list_elem_of_In in Hy.
      apply in_map_iff in Hy as (entry & <- & He). apply filter_In in He as [He _].
      rewrite Forall_forall in Hpos. apply Hpos, list_elem_of_In, He.
Qed.

Lemma parseAnswer_positive mint answer p : parseAnswer mint answer = Ok p -> 0 < p.
Proof.
  unfold parseAnswer. destruct (String.eqb mint ""); [discriminate|].
  destruct answer as [e| | | | |q]; try discriminate.
  destruct (Qle_bool q 0) eqn:E; [discriminate|]. intros [= <-].
  apply Qnot_le_lt. intros L. apply Qle_bool_iff in L. congruence.
Qed.

Lemma fetchCurrentPrice_positive stamped cleaned mint answer o :
  positivePrices o ->
  positivePrices (snd (fetchCurrentPrice stamped cleaned mint answer o)).
Proof.
  unfold positivePrices, fetchCurrentPrice. intros H.
  destruct (parseAnswer mint answer) as [p|e] eqn:P.
  - simpl. apply Forall_forall. intros entry He. apply list_elem_of_In in He.
    apply filter_In in He as [He _]. apply in_app_or in He as [He|[<-|[]]].
    + rewrite Forall_forall in H. apply H, list_elem_of_In, He.
    + simpl. eapply parseAnswer_positive, P.
  - destruct (last (priceCache o)); exact H.
Qed.

Lemma fetchAll_positive mint fetches o :
  positivePrices o -> positivePrices (fetchAll mint fetches o).
Proof.
  unfold fetchAll. revert o.
  induction fetches as [|[[stamped cleaned] answer] fetches IH]; intros o H; simpl.
  - exact H.
  - apply IH, fetchCurrentPrice_positive, H.
Qed.

(** X2. Whatever the price API answers, [fetchCurrentPrice] only ever
    caches positive prices; hence on a cache filled by fetches the TWAP
    is positive and [calculateTokenBurn] never throws 'Invalid token
    price'. *)
Theorem fetched_prices_positive :
  forall (tokenMintAddress : string) (fetches : list (Z * Z * ApiAnswer))
         (o : PriceOracleService),
    positivePrices o ->
    positivePrices (fetchAll tokenMintAddress fetches o) /\
    forall now,
      (forall p, getTWAPPrice now (fetchAll tokenMintAddress fetches o) = Ok p -> 0 < p) /\
      (forall usdCost,
          calculateTokenBurn now (fetchAll tokenMintAddress fetches o) usdCost
          <> Throw InvalidTokenPrice).
Proof.
  intros mint fetches o H.
  pose proof (fetchAll_positive mint fetches o H) as H'.
  split; [exact H'|]. intros now. split.
  - intros p. apply positivePrices_TWAP, H'.
  - intros usd. unfold calculateTokenBurn.
    destruct (getTWAPPrice now (fetchAll mint fetches o)) as [p|e] eqn:T.
    + apply positivePrices_TWAP in T; [|exact H'].
      destruct (Qle_bool p 0) eqn:E; [|discriminate].
      apply Qle_bool_iff in E. lra.
    + apply getTWAPPrice_throws in T as [->| ->]; discriminate.
Qed.

Lemma fetched_prices_positive_witness :
  positivePrices
    (fetchAll "MINT"
       [ (0%Z, 1%Z, Price (1 # 10)); (60000%Z, 60000%Z, Price (-1));
         (120000%Z, 120002%Z, EmptyBody) ]
       (defaultService [])).
Proof.
  apply (fetched_prices_positive "MINT"
           [ (0%Z, 1%Z, Price (1 # 10)); (60000%Z, 60000%Z, Price (-1));
             (120000%Z, 120002%Z, EmptyBody) ]
           (defaultService [])).
  constructor.
Defined.

(** X3. A failed fetch (no mint configured, request rejected, unusable
    body, price not a positive number) never touches the cache: it
    answers with the last cached price when there is one and throws the
    error only when the cache is empty. *)
Theorem fetchCurrentPrice_fallback :
  forall (stamped cleaned : Z) (tokenMintAddress : string) (answer : ApiAnswer)
         (o : PriceOracleService) (error : Error),
    parseAnswer tokenMintAddress answer = Throw error ->
    snd (fetchCurrentPrice stamped cleaned tokenMintAddress answer o) = o /\
    (priceCache o = [] ->
       fst (fetchCurrentPrice stamped cleaned tokenMintAddress answer o) = Throw error) /\
    (forall entry, last (priceCache o) = Some entry ->
       fst (fetchCurrentPrice stamped cleaned tokenMintAddress answer o)
       = Ok (price entry)) /\
    (forall e, fst (fetchCurrentPrice stamped cleaned tokenMintAddress answer o) = Throw e ->
       priceCache o = []).
Proof.
  intros stamped cleaned mint answer o error P. unfold fetchCurrentPrice. rewrite P.
  destruct (last (priceCache o)) as [entry|] eqn:L; simpl.
  - split; [reflexivity|]. split; [|split].
    + intros E. rewrite E in L. discriminate.
    + intros ? [= <-]. reflexivity.
    + discriminate.
  - apply last_None in L. split; [reflexivity|]. split; [|split]; auto. discriminate.
Qed.

Lemma fetchCurrentPrice_fallback_witness :
  fst (fetchCurrentPrice 700000 700001 "MINT" (Price 0)
         (defaultService [ {| price := 2; timestamp := 0 |} ])) = Ok 2.
Proof.
  destruct (fetchCurrentPrice_fallback 700000 700001 "MINT" (Price 0)
              (defaultService [ {| price := 2; timestamp := 0 |} ])
              (External "Invalid price value") eq_refl) as (_ & _ & Hlast & _).
  apply (Hlast {| price := 2; timestamp := 0 |}). reflexivity.
Defined.

Lemma windowMs_setCache cache o : windowMs (setCache cache o) = windowMs o.
Proof. reflexivity. Qed.

(** The cache after a price was pushed and the cache pruned. *)
Lemma cleanCache_of_push stamped cleaned o p :
  priceCache (cleanCache cleaned
                (setCache (priceCache o ++ [ {| price := p; timestamp := stamped |} ]) o))
  = List.filter (fun entry => (cleaned - timestamp entry <=? windowMs o * 2)%Z)
      (priceCache o ++ [ {| price := p; timestamp := stamped |} ]).
Proof. reflexivity. Qed.

(** When no more than two windows pass between the push and the
    pruning, the pushed sample stays. *)
Lemma cleanCache_after_push stamped cleaned o p :
  (cleaned - stamped <= 2 * windowMs o)%Z ->
  priceCache (cleanCache cleaned
                (setCache (priceCache o ++ [ {| price := p; timestamp := stamped |} ]) o))
  = List.filter (fun entry => (cleaned - timestamp entry <=? windowMs o * 2)%Z)
      (priceCache o) ++ [ {| price := p; timestamp := stamped |} ].
Proof.
  intros Hw. rewrite cleanCache_of_push, List.filter_app. cbn [List.filter timestamp].
  destruct (Z.leb_spec (cleaned - stamped) (windowMs o * 2)); [reflexivity|lia].
Qed.

(** Otherwise it is pruned with the rest. *)
Lemma cleanCache_drops_push stamped cleaned o p :
  (2 * windowMs o < cleaned - stamped)%Z ->
  priceCache (cleanCache cleaned
                (setCache (priceCache o ++ [ {| price := p; timestamp := stamped |} ]) o))
  = List.filter (fun entry => (cleaned - timestamp entry <=? windowMs o * 2)%Z)
      (priceCache o).
Proof.
  intros Hw. rewrite cleanCache_of_push, List.filter_app. cbn [List.filter timestamp].
  destruct (Z.leb_spec (cleaned - stamped) (windowMs o * 2)); [lia|].
  apply app_nil_r.
Qed.

(** A fetch that returns, and does not prune its own sample, leaves a
    cache on which the TWAP is defined. *)
Lemma fetchCurrentPrice_TWAP_defined stamped cleaned later mint answer o r :
  (cleaned - stamped <= 2 * windowMs o)%Z ->
  fst (fetchCurrentPrice stamped cleaned mint answer o) = Ok r ->
  exists t,
    getTWAPPrice later (snd (fetchCurrentPrice stamped cleaned mint answer o)) = Ok t.
Proof.
  intros Hw H. apply getTWAPPrice_nonempty. unfold fetchCurrentPrice in *.
  destruct (parseAnswer mint answer) as [p|e].
  - cbn [snd]. rewrite (cleanCache_after_push stamped cleaned o p Hw).
    destruct (List.filter _ (priceCache o)); discriminate.
  - destruct (last (priceCache o)) as [entry|] eqn:L; [|discriminate].
    cbn [snd]. intros C. rewrite C in L. discriminate.
Qed.

(** X4. A successful fetch returns the fetched price and leaves no
    sample that was, when the cache was pruned, more than two TWAP
    windows old.  When no more than two windows pass between the clock
    read that dates the new sample and the one that prunes, the new
    sample is the newest of the cache, after the samples of the old
    cache that were kept (in their order), so that the cache is not
    empty, [getCachedPrice] within the expiry time is the fetched price
    and the TWAP is defined; otherwise the new sample is pruned with the
    older ones. *)
Theorem fetchCurrentPrice_success :
  forall (stamped cleaned : Z) (tokenMintAddress : string) (answer : ApiAnswer)
         (o : PriceOracleService) (p : Q),
    parseAnswer tokenMintAddress answer = Ok p ->
    let kept := fun entry => (cleaned - timestamp entry <=? windowMs o * 2)%Z in
    let o' := snd (fetchCurrentPrice stamped cleaned tokenMintAddress answer o) in
    fst (fetchCurrentPrice stamped cleaned tokenMintAddress answer o) = Ok p /\
    (forall entry, In entry (priceCache o') ->
       (cleaned - timestamp entry <= 2 * windowMs o)%Z) /\
    ((cleaned - stamped <= 2 * windowMs o)%Z ->
       priceCache o'
       = List.filter kept (priceCache o) ++ [ {| price := p; timestamp := stamped |} ] /\
       (forall now, (now - stamped <= cacheExpiryMs)%Z -> getCachedPrice now o' = Some p) /\
       (forall now, exists twap, getTWAPPrice now o' = Ok twap)) /\
    ((2 * windowMs o < cleaned - stamped)%Z ->
       priceCache o' = List.filter kept (priceCache o)).
Proof.
  intros stamped cleaned mint answer o p P kept o'. subst o'.
  unfold fetchCurrentPrice. rewrite P. cbn [fst snd].
  split; [reflexivity|]. split; [|split].
  - intros entry He. rewrite cleanCache_of_push in He.
    apply filter_In in He as [_ He]. apply Z.leb_le in He. lia.
  - intros Hw. pose proof (cleanCache_after_push stamped cleaned o p Hw) as Hcache.
    split; [exact Hcache|]. split.
    + intros now Hnow. unfold getCachedPrice. rewrite Hcache, last_snoc.
      cbn [timestamp price].
      destruct (Z.gtb_spec (now - stamped) cacheExpiryMs); [lia|reflexivity].
    + intros now. apply getTWAPPrice_nonempty. rewrite Hcache.
      destruct (List.filter _ (priceCache o)); discriminate.
  - intros Hw. apply cleanCache_drops_push, Hw.
Qed.

Lemma fetchCurrentPrice_success_witness :
  getCachedPrice 5000040 (snd (fetchCurrentPrice 5000000 5000003 "MINT" (Price (3 # 2))
                                 (defaultService [ {| price := 2; timestamp := 0 |} ])))
  = Some (3 # 2).
Proof.
  destruct (fetchCurrentPrice_success 5000000 5000003 "MINT" (Price (3 # 2))
              (defaultService [ {| price := 2; timestamp := 0 |} ]) (3 # 2) eq_refl)
    as (_ & _ & H & _).
  apply H; vm_compute; discriminate.
Defined.

(** With a window of 0 minutes, a clock that ticks between the two
    reads makes the fetch prune the sample it has just pushed: the
    fetch returns the price and leaves the cache empty. *)
Example fetchCurrentPrice_prunes_own_sample :
  fetchCurrentPrice 1000 1001 "MINT" (Price (3 # 2))
    {| priceCache := []; twapWindowMinutes := 0; burnFloor := 5 # 100; burnCeiling := 50 |}
  = (Ok (3 # 2),
     {| priceCache := []; twapWindowMinutes := 0; burnFloor := 5 # 100;
        burnCeiling := 50 |}).
Proof. reflexivity. Qed.

Lemma filter_filter_implied {A} (f g : A -> bool) (l : list A) :
  (forall x, f x = true -> g x = true) ->
  List.filter f (List.filter g l) = List.filter f l.
Proof.
  intros H. induction l as [|x l IH]; [reflexivity|]. cbn [List.filter].
  destruct (g x) eqn:G.
  - cbn [List.filter]. destruct (f x); [f_equal|]; exact IH.
  - destruct (f x) eqn:F; [|exact IH]. apply H in F. congruence.
Qed.

Lemma filter_inWindow_clean now o :
  (0 <= windowMs o)%Z ->
  List.filter (inWindow now (cleanCache now o)) (priceCache (cleanCache now o))
  = List.filter (inWindow now o) (priceCache o).
Proof.
  intros Hw. unfold cleanCache. cbn [priceCache setCache].
  change (inWindow now (setCache ?c o)) with (inWindow now o).
  apply filter_filter_implied. intros entry H. unfold inWindow in H.
  apply Z.leb_le in H. apply Z.leb_le. lia.
Qed.

(** X5. Pruning does not move the TWAP: with a non-negative window and
    at least one sample inside it, [getTWAPPrice] is the same before and
    after [cleanCache] at that instant. *)
Theorem cleanCache_keeps_TWAP :
  forall (now : Z) (o : PriceOracleService),
    (0 <= twapWindowMinutes o)%Z ->
    List.filter (inWindow now o) (priceCache o) <> [] ->
    getTWAPPrice now (cleanCache now o) = getTWAPPrice now o.
Proof.
  intros now o Hw Hne.
  assert (Hwin : (0 <= windowMs o)%Z) by (unfold windowMs; lia).
  pose proof (filter_inWindow_clean now o Hwin) as F.
  unfold getTWAPPrice. rewrite F.
  destruct (List.filter (inWindow now o) (priceCache o)) as [|x rel] eqn:R;
    [congruence|].
  assert (C : priceCache (cleanCache now o) <> []).
  { intros E. rewrite E in F. discriminate. }
  assert (C' : priceCache o <> []).
  { intros E. rewrite E in R. discriminate. }
  destruct (priceCache (cleanCache now o)); [congruence|].
  destruct (priceCache o); [congruence|]. reflexivity.
Qed.

Lemma cleanCache_keeps_TWAP_witness :
  getTWAPPrice 1300000
    (cleanCache 1300000
       (defaultService [ {| price := 2; timestamp := 0 |};
                         {| price := 4; timestamp := 1000000 |} ]))
  = getTWAPPrice 1300000
      (defaultService [ {| price := 2; timestamp := 0 |};
                        {| price := 4; timestamp := 1000000 |} ]).
Proof.
  apply cleanCache_keeps_TWAP.
  - discriminate.
  - simpl. discriminate.
Defined.

(** X6. GET /api/token/price, when no more than two TWAP windows pass
    between the two clock reads of a fetch (so that a fetch does not
    prune the sample it has just pushed), fails exactly when the cache
    is empty and the fetch yields no usable price; with any sample in
    the cache it answers with a current price and a TWAP, both positive
    when the cached prices are. *)
Theorem getPrice_answers :
  forall (now stamped cleaned later : Z) (tokenMintAddress : string)
         (answer : ApiAnswer) (o : PriceOracleService),
    (cleaned - stamped <= 2 * windowMs o)%Z ->
    (fst (getPrice now stamped cleaned later tokenMintAddress answer o) = PriceFailed <->
     priceCache o = [] /\ exists e, parseAnswer tokenMintAddress answer = Throw e) /\
    (forall currentPrice twapPrice,
        positivePrices o ->
        fst (getPrice now stamped cleaned later tokenMintAddress answer o)
        = PriceOk currentPrice twapPrice ->
        0 < currentPrice /\ 0 < twapPrice).
Proof.
  intros now stamped cleaned later mint answer o Hw.
  assert (Fetch : forall e,
            fst (fetchCurrentPrice stamped cleaned mint answer o) = Throw e ->
            priceCache o = [] /\ parseAnswer mint answer = Throw e).
  { intros e H. unfold fetchCurrentPrice in H.
    destruct (parseAnswer mint answer) as [p|e'] eqn:P; [discriminate|].
    destruct (last (priceCache o)) eqn:L; [discriminate|].
    apply last_None in L. injection H as <-. auto. }
  assert (Twap : forall r, fst (fetchCurrentPrice stamped cleaned mint answer o) = Ok r ->
            exists t, getTWAPPrice later
                        (snd (fetchCurrentPrice stamped cleaned mint answer o)) = Ok t).
  { intros r H.
    exact (fetchCurrentPrice_TWAP_defined stamped cleaned later mint answer o r Hw H). }
  assert (Cached : forall p, getCachedPrice now o = Some p ->
            exists t, getTWAPPrice later o = Ok t).
  { intros p H. apply getTWAPPrice_nonempty. intros C. unfold getCachedPrice in H.
    rewrite C in H. discriminate. }
  assert (CachedIn : forall p, getCachedPrice now o = Some p ->
            exists entry, In entry (priceCache o) /\ price entry = p).
  { intros p H. unfold getCachedPrice in H.
    destruct (last (priceCache o)) as [entry|] eqn:L; [|discriminate].
    destruct (_ >? _)%Z; [discriminate|]. injection H as <-.
    exists entry. split; [apply last_In, L|reflexivity]. }
  split.
  - unfold getPrice. split.
    + intros H. destruct (getCachedPrice now o) as [p|] eqn:G.
      * destruct (Qeq_bool p 0).
        -- destruct (fetchCurrentPrice stamped cleaned mint answer o) as [[r|e] o'] eqn:F.
           ++ destruct (Twap r) as [t T]; [reflexivity|].
              simpl in T. rewrite T in H. discriminate.
           ++ destruct (Fetch e) as [C P]; [reflexivity|]. eauto.
        -- destruct (Cached p eq_refl) as [t T]. rewrite T in H. discriminate.
      * destruct (fetchCurrentPrice stamped cleaned mint answer o) as [[r|e] o'] eqn:F.
        -- destruct (Twap r) as [t T]; [reflexivity|].
           simpl in T. rewrite T in H. discriminate.
        -- destruct (Fetch e) as [C P]; [reflexivity|]. eauto.
    + intros [C [e P]]. unfold getCachedPrice, fetchCurrentPrice. rewrite C, P.
      reflexivity.
  - intros c t Hpos H. unfold getPrice in H.
    assert (FromFetch :
      match fetchCurrentPrice stamped cleaned mint answer o with
      | (Ok price, o') =>
          match getTWAPPrice later o' with
          | Ok twapPrice => (PriceOk price twapPrice, o')
          | Throw _ => (PriceFailed, o')
          end
      | (Throw _, o') => (PriceFailed, o')
      end.1 = PriceOk c t -> 0 < c /\ 0 < t).
    { intros H'.
      destruct (fetchCurrentPrice stamped cleaned mint answer o) as [[r|e] o'] eqn:F;
        [|discriminate].
      pose proof (fetchCurrentPrice_positive stamped cleaned mint answer o Hpos) as Hpos'.
      rewrite F in Hpos'. simpl in Hpos'.
      destruct (getTWAPPrice later o') as [t'|] eqn:T; [|discriminate].
      injection H' as <- <-. split; [|eapply positivePrices_TWAP; eauto].
      unfold fetchCurrentPrice in F.
      destruct (parseAnswer mint answer) as [p|e] eqn:P.
      - injection F as <- _. eapply parseAnswer_positive, P.
      - destruct (last (priceCache o)) as [entry|] eqn:L; [|discriminate].
        injection F as <- _. unfold positivePrices in Hpos.
        rewrite Forall_forall in Hpos. apply Hpos, list_elem_of_In, last_In, L. }
    destruct (getCachedPrice now o) as [p|] eqn:G; [|apply FromFetch, H].
    destruct (Qeq_bool p 0); [apply FromFetch, H|].
    destruct (getTWAPPrice later o) as [t'|] eqn:T; [|discriminate].
    injection H as <- <-. split; [|eapply positivePrices_TWAP; eauto].
    destruct (CachedIn p eq_refl) as (entry & He & <-).
    unfold positivePrices in Hpos. rewrite Forall_forall in Hpos.
    apply Hpos, list_elem_of_In, He.
Qed.

Lemma getPrice_answers_witness :
  fst (getPrice 0 1 2 3 "" EmptyBody (defaultService [])) = PriceFailed.
Proof.
  apply (getPrice_answers 0 1 2 3 "" EmptyBody (defaultService [])).
  - vm_compute. discriminate.
  - split; [reflexivity|]. eexists. reflexivity.
Defined.

(** With a window of 0 minutes and a clock that ticks inside the fetch,
    the route answers 500 although the API gave a price. *)
Example getPrice_fails_after_tick :
  fst (getPrice 1000 1000 1001 1001 "MINT" (Price (3 # 2))
         {| priceCache := []; twapWindowMinutes := 0; burnFloor := 5 # 100;
            burnCeiling := 50 |})
  = PriceFailed.
Proof. reflexivity. Qed.

(** X8. A dearer token burns fewer tokens: for a non-negative USD cost
    and the same floor and ceiling, the burn computed at a higher
    positive TWAP is at most the burn computed at a lower one. *)
Theorem calculateTokenBurn_antitone_in_price :
  forall (now1 now2 : Z) (o1 o2 : PriceOracleService) (twap1 twap2 usdCost burn1 burn2 : Q),
    burnFloor o1 = burnFloor o2 -> burnCeiling o1 = burnCeiling o2 ->
    getTWAPPrice now1 o1 = Ok twap1 -> getTWAPPrice now2 o2 = Ok twap2 ->
    0 < twap1 -> twap1 <= twap2 -> 0 <= usdCost ->
    calculateTokenBurn now1 o1 usdCost = Ok burn1 ->
    calculateTokenBurn now2 o2 usdCost = Ok burn2 ->
    burn2 <= burn1.
Proof.
  intros now1 now2 o1 o2 twap1 twap2 usd burn1 burn2 Hf Hc T1 T2 Hpos Hle Husd H1 H2.
  rewrite (calculateTokenBurn_ok now1 o1 twap1 usd T1 Hpos) in H1.
  rewrite (calculateTokenBurn_ok now2 o2 twap2 usd T2) in H2 by lra.
  injection H1 as <-. injection H2 as <-. rewrite Hf, Hc.
  apply Q.max_le_compat_l, Q.min_le_compat_r.
  apply Qle_shift_div_l; [lra|].
  assert (E : usd / twap2 * twap1 == usd * (twap1 / twap2)) by (field; lra).
  rewrite E.
  assert (R : twap1 / twap2 <= 1) by (apply Qle_shift_div_r; lra).
  nra.
Qed.

Lemma calculateTokenBurn_antitone_in_price_witness :
  exists burn1 burn2,
    calculateTokenBurn 0 (defaultService [ {| price := 1 # 10; timestamp := 0 |} ])
      1 = Ok burn1 /\
    calculateTokenBurn 0 (defaultService [ {| price := 2 # 10; timestamp := 0 |} ])
      1 = Ok burn2 /\
    burn2 <= burn1.
Proof.
  eexists. eexists. split; [reflexivity|]. split; [reflexivity|].
  apply (calculateTokenBurn_antitone_in_price 0 0
           (defaultService [ {| price := 1 # 10; timestamp := 0 |} ])
           (defaultService [ {| price := 2 # 10; timestamp := 0 |} ])
           (1 # 10) (2 # 10) 1); try reflexivity; discriminate.
Defined.

End PriceFeedFacts.

(** ** The balance tracker: checks, frames and the append-only log *)

Section LedgerMoreFacts.

Import Ledger LedgerQueries.

Lemma getBalance_again now now' w st doc st1 :
  getBalance now w st = (Ok doc, st1) -> getBalance now' w st1 = (Ok doc, st1).
Proof.
  intros H.
  destruct (getBalance_cases now w st) as [(d & E & G)|[(E & Hw & G)|(E & Hw & G)]];
    rewrite G in H; try discriminate; injection H as <- <-.
  - destruct (getBalance_cases now' w st) as [(d' & E' & G')|[(E' & _)|(E' & _)]];
      congruence.
  - unfold getBalance, bind, findOne, ret. simpl. rewrite lookup_insert_eq. reflexivity.
Qed.

(** X9. The balance check and the debit agree: [hasSufficientBalance]
    answers true exactly when [deductTokens] of the same amount on the
    same store does not fail for an insufficient balance, and a second
    [getBalance] returns the same document without touching the store. *)
Theorem hasSufficientBalance_agrees :
  forall (now : Z) (priceOracle : PriceOracle.PriceOracleService) (w : string)
         (amount : Q) (requestType : RequestType) (usdCost : Q) (st : Store)
         (doc : ITokenBalance) (st1 : Store),
    getBalance now w st = (Ok doc, st1) ->
    hasSufficientBalance now w amount st = (Ok (Qgeb (currentBalance doc) amount), st1) /\
    (fst (hasSufficientBalance now w amount st) = Ok true <->
     fst (deductTokens now priceOracle w amount requestType usdCost st)
       <> Throw InsufficientTokenBalance) /\
    (forall now', getBalance now' w st1 = (Ok doc, st1)) /\
    (forall now', hasSufficientBalance now' w amount st1
                  = (Ok (Qgeb (currentBalance doc) amount), st1)).
Proof.
  intros now oracle w amount rt usd st doc st1 G.
  assert (H1 : hasSufficientBalance now w amount st
               = (Ok (Qgeb (currentBalance doc) amount), st1)).
  { unfold hasSufficientBalance, bind. rewrite G. reflexivity. }
  split; [exact H1|]. split; [|split].
  - rewrite H1. cbn [fst].
    destruct (deductTokens_insufficient now oracle w amount rt usd st doc st1 G)
      as [Hiff _].
    split.
    + intros [= E] Hthrow. apply Qgeb_ge in E. apply Hiff in Hthrow. lra.
    + intros Hno. destruct (Qgeb (currentBalance doc) amount) eqn:E; [reflexivity|].
      exfalso. apply Hno, Hiff. apply Qgeb_lt, E.
  - intros now'. eapply getBalance_again, G.
  - intros now'. unfold hasSufficientBalance, bind.
    rewrite (getBalance_again now now' w st doc st1 G). reflexivity.
Qed.

Lemma hasSufficientBalance_agrees_witness :
  exists doc,
    getBalance 5 "W" walletWithTen = (Ok doc, walletWithTen) /\
    hasSufficientBalance 5 "W" 3 walletWithTen
    = (Ok (Qgeb (currentBalance doc) 3), walletWithTen).
Proof.
  eexists. split; [vm_compute; reflexivity|].
  apply (hasSufficientBalance_agrees 5 (PriceOracle.defaultService []) "W" 3 chat 0).
  vm_compute. reflexivity.
Defined.

Lemma touchesOnly_trans w (m0 m1 m2 : gmap string ITokenBalance) :
  touchesOnly w m0 m1 -> touchesOnly w m1 m2 -> touchesOnly w m0 m2.
Proof.
  intros [->|(d1 & -> & A1 & S1)] [->|(d2 & -> & A2 & S2)].
  - left. reflexivity.
  - right. exists d2. auto.
  - right. exists d1. auto.
  - right. exists d2. split; [apply insert_insert_eq|]. split; [exact A2|].
    intros doc Hdoc. destruct (S1 doc Hdoc) as [s1 E1].
    destruct (S2 d1) as [s2 E2]; [apply lookup_insert_eq|].
    exists (s1 ++ s2). rewrite E2, E1, app_assoc. reflexivity.
Qed.

Lemma touchesOnly_wellKeyed w st st' :
  touchesOnly w (TokenBalance st) (TokenBalance st') -> wellKeyed st -> wellKeyed st'.
Proof.
  intros [E|(d & E & A & _)] K w' doc; rewrite E.
  - apply K.
  - rewrite lookup_insert. case_decide; [intros [= <-]; congruence|apply K].
Qed.

Lemma getBalance_touches now w st r st' :
  getBalance now w st = (r, st') ->
  touchesOnly w (TokenBalance st) (TokenBalance st') /\
  UsageRecord st' = UsageRecord st /\ nextId st' = nextId st /\
  (forall doc, r = Ok doc -> TokenBalance st' !! w = Some doc).
Proof.
  intros H.
  destruct (getBalance_cases now w st) as [(d & E & G)|[(E & Hw & G)|(E & Hw & G)]];
    rewrite G in H; injection H as <- <-.
  - split; [left; reflexivity|]. repeat split; auto. intros ? [= <-]. exact E.
  - split.
    + right. exists (zeroBalance now w). split; [reflexivity|]. split; [reflexivity|].
      intros doc Hdoc. congruence.
    + repeat split; auto. intros ? [= <-]. simpl. apply lookup_insert_eq.
  - split; [left; reflexivity|]. repeat split; auto. discriminate.
Qed.

Lemma save_touches now doc st r st' old :
  save now doc st = (r, st') ->
  TokenBalance st !! walletAddress doc = Some old ->
  (exists suffix, transactions doc = transactions old ++ suffix) ->
  touchesOnly (walletAddress doc) (TokenBalance st) (TokenBalance st') /\
  UsageRecord st' = UsageRecord st /\ nextId st' = nextId st.
Proof.
  intros H Hold Hsuffix.
  destruct (save_cases now doc st) as [[_ S]|[path S]]; rewrite S in H;
    injection H as <- <-.
  - split; [|split; reflexivity]. right. exists (preSave now doc).
    split; [reflexivity|]. split; [reflexivity|].
    intros d Hd. assert (d = old) by congruence. subst d. exact Hsuffix.
  - split; [left; reflexivity|]. split; reflexivity.
Qed.

Lemma runOp_touches op st :
  wellKeyed st ->
  touchesOnly (opWallet op) (TokenBalance st) (TokenBalance (runOp op st)).
Proof.
  intros K. destruct op as [now w|now w amount txHash|now oracle w amount rt usd];
    cbn [runOp opWallet].
  - destruct (getBalance now w st) as [r st'] eqn:G.
    apply getBalance_touches in G as [T _]. exact T.
  - unfold recordDeposit, bind.
    destruct (getBalance now w st) as [[doc|e] st1] eqn:G;
      apply getBalance_touches in G as (T & _ & _ & L); [|exact T].
    specialize (L doc eq_refl).
    assert (A : walletAddress doc = w) by (eapply touchesOnly_wellKeyed; eauto).
    match goal with |- context [save now ?d st1] =>
      destruct (save now d st1) as [r st2] eqn:S;
      apply (save_touches now d st1 r st2 doc) in S as [T2 _]
    end.
    + simpl in T2. rewrite A in T2. eapply touchesOnly_trans; eauto.
    + simpl. rewrite A. exact L.
    + simpl. eauto.
  - unfold deductTokens, bind.
    destruct (getBalance now w st) as [[doc|e] st1] eqn:G;
      apply getBalance_touches in G as (T & _ & _ & L); [|exact T].
    specialize (L doc eq_refl).
    assert (A : walletAddress doc = w) by (eapply touchesOnly_wellKeyed; eauto).
    destruct (Qltb (currentBalance doc) amount); [exact T|].
    match goal with |- context [save now ?d st1] =>
      destruct (save now d st1) as [[saved|e] st2] eqn:S;
      apply (save_touches now d st1 _ st2 doc) in S as [T2 _];
      try (simpl; rewrite A; exact L); try (simpl; eauto)
    end.
    + simpl in T2. rewrite A in T2.
      unfold lift, ret. destruct (PriceOracle.getTWAPPrice now oracle) as [p|e].
      * destruct (create now w rt usd p amount false st2) as [[u|e] st3] eqn:C;
          apply create_TokenBalance in C; cbn [snd]; rewrite C;
          eapply touchesOnly_trans; eauto.
      * cbn [snd]. eapply touchesOnly_trans; eauto.
    + simpl in T2. rewrite A in T2. cbn [snd]. eapply touchesOnly_trans; eauto.
Qed.

Lemma runOps_wellKeyed ops st : wellKeyed st -> wellKeyed (runOps ops st).
Proof.
  revert st. induction ops as [|op ops IH]; intros st K; simpl; [exact K|].
  apply IH. eapply touchesOnly_wellKeyed; [apply runOp_touches|]; exact K.
Qed.

Lemma emptyStore_wellKeyed : wellKeyed emptyStore.
Proof. intros w doc. simpl. rewrite lookup_empty. discriminate. Qed.

(** X10. Operations on one wallet leave every other wallet alone: after
    any sequence of [getBalance], [recordDeposit] and [deductTokens]
    calls none of which names wallet [w], the document of [w] (or its
    absence) is what it was.  Documents stay stored under their own
    address. *)
Theorem other_wallets_untouched :
  forall (ops : list Op) (st : Store) (w : string),
    wellKeyed st ->
    Forall (fun op => opWallet op <> w) ops ->
    TokenBalance (runOps ops st) !! w = TokenBalance st !! w /\
    wellKeyed (runOps ops st).
Proof.
  intros ops st w K F. split; [|apply runOps_wellKeyed, K].
  revert st K. induction F as [|op ops Hop F IH]; intros st K; simpl; [reflexivity|].
  rewrite IH by (eapply touchesOnly_wellKeyed; [apply runOp_touches|]; exact K).
  destruct (runOp_touches op st K) as [E|(d & E & _)]; rewrite E; [reflexivity|].
  apply lookup_insert_ne, Hop.
Qed.

Lemma other_wallets_untouched_witness :
  TokenBalance (runOps sampleOps walletWithTen) !! "V" = TokenBalance walletWithTen !! "V".
Proof.
  apply (other_wallets_untouched sampleOps walletWithTen "V").
  - intros w doc. unfold walletWithTen. intros H.
    apply (runOps_wellKeyed [RecordDeposit 0 "W" 10 "T1"] emptyStore emptyStore_wellKeyed).
    exact H.
  - repeat constructor; discriminate.
Defined.

(** X11. A wallet is never deleted and its transaction log is
    append-only: after any sequence of operations the wallet still has a
    document, stored under the same address, whose log is the old log
    followed by the new entries. *)
Theorem log_append_only :
  forall (ops : list Op) (st : Store) (w : string) (doc : ITokenBalance),
    wellKeyed st ->
    TokenBalance st !! w = Some doc ->
    exists doc' suffix,
      TokenBalance (runOps ops st) !! w = Some doc' /\
      walletAddress doc' = w /\
      transactions doc' = transactions doc ++ suffix.
Proof.
  induction ops as [|op ops IH]; intros st w doc K Hdoc; simpl.
  - exists doc, []. rewrite app_nil_r. auto.
  - assert (K' : wellKeyed (runOp op st))
      by (eapply touchesOnly_wellKeyed; [apply runOp_touches|]; exact K).
    assert (Step : exists doc1 s1,
               TokenBalance (runOp op st) !! w = Some doc1 /\
               transactions doc1 = transactions doc ++ s1).
    { destruct (runOp_touches op st K) as [E|(d & E & A & S)]; rewrite E.
      - exists doc, []. rewrite app_nil_r. auto.
      - rewrite lookup_insert. case_decide as Hw.
        + subst w. destruct (S doc Hdoc) as [s E']. exists d, s. auto.
        + exists doc, []. rewrite app_nil_r. auto. }
    destruct Step as (doc1 & s1 & H1 & E1).
    destruct (IH (runOp op st) w doc1 K' H1) as (doc' & s2 & H2 & A2 & E2).
    exists doc', (s1 ++ s2). split; [exact H2|]. split; [exact A2|].
    rewrite E2, E1, app_assoc. reflexivity.
Qed.

Lemma log_append_only_witness :
  exists doc',
    TokenBalance (runOps sampleOps walletWithTen) !! "W" = Some doc' /\
    walletAddress doc' = "W".
Proof.
  destruct (TokenBalance walletWithTen !! "W") as [doc|] eqn:Hdoc;
    [|vm_compute in Hdoc; discriminate].
  destruct (log_append_only sampleOps walletWithTen "W" doc) as (doc' & suffix & H & A & _).
  - apply (runOps_wellKeyed [RecordDeposit 0 "W" 10 "T1"] emptyStore emptyStore_wellKeyed).
  - exact Hdoc.
  - exists doc'. split; assumption.
Defined.

End LedgerMoreFacts.

(** ** The usage-record queries and the bulk update *)

Section UsageRecordFacts.

Import Ledger LedgerQueries.

Lemma insertByTimestamp_Forall (P : IUsageRecord -> Prop) r l :
  P r -> Forall P l -> Forall P (insertByTimestamp r l).
Proof.
  intros Hr Hl. induction Hl as [|x l Hx Hl IH]; simpl.
  - constructor; [exact Hr|constructor].
  - destruct (ur_timestamp r <=? ur_timestamp x)%Z; repeat constructor; assumption.
Qed.

Lemma insertByTimestamp_oldestFirst r l :
  oldestFirst l -> oldestFirst (insertByTimestamp r l).
Proof.
  induction l as [|x l IH]; simpl; intros H.
  - split; [constructor|exact I].
  - destruct H as [Hx Hl].
    destruct (Z.leb_spec (ur_timestamp r) (ur_timestamp x)) as [L|L]; simpl.
    + split; [|split; assumption]. constructor; [exact L|].
      eapply Forall_impl; [exact Hx|]. intros y Hy. simpl in Hy. lia.
    + split; [|apply IH, Hl]. apply insertByTimestamp_Forall; [lia|exact Hx].
Qed.

Lemma sortByTimestamp_oldestFirst l : oldestFirst (sortByTimestamp l).
Proof.
  induction l as [|x l IH]; simpl; [exact I|].
  apply insertByTimestamp_oldestFirst, IH.
Qed.

Lemma oldestFirst_take_drop n l :
  oldestFirst l ->
  oldestFirst (take n l) /\
  forall x y, In x (take n l) -> In y (drop n l) ->
              (ur_timestamp x <= ur_timestamp y)%Z.
Proof.
  revert n. induction l as [|a l IH]; intros [|n] H.
  - split; [exact I|]. intros x y [].
  - split; [exact I|]. intros x y [].
  - split; [exact I|]. intros x y [].
  - destruct H as [Ha Hl]. destruct (IH n Hl) as [IH1 IH2]. cbn [take drop]. split.
    + split; [|exact IH1]. rewrite Forall_forall in Ha. apply Forall_forall.
      intros y Hy. apply Ha. apply list_elem_of_In. apply list_elem_of_In in Hy.
      eapply In_take, Hy.
    + intros x y [<-|Hx] Hy.
      * rewrite Forall_forall in Ha. apply Ha, list_elem_of_In.
        rewrite <- (take_drop n l). apply in_or_app. right. exact Hy.
      * apply IH2; assumption.
Qed.

(** X12. [getUnsettledRecords limit] is a read: it returns at most
    [limit] records, all of them unsettled records of the store, in
    ascending order of timestamp, and they are the oldest ones: every
    unsettled record left out is at least as recent as every record
    returned. *)
Theorem getUnsettledRecords_oldest_first :
  forall (limit : nat) (st : Store),
    exists result rest,
      getUnsettledRecords limit st = (Ok result, st) /\
      length result = Nat.min limit (length (unsettled (UsageRecord st))) /\
      oldestFirst result /\
      (forall r, In r result -> In r (UsageRecord st) /\ settled r = false) /\
      Permutation (result ++ rest) (unsettled (UsageRecord st)) /\
      (forall x y, In x result -> In y rest ->
                   (ur_timestamp x <= ur_timestamp y)%Z).
Proof.
  intros limit st.
  exists (take limit (sortByTimestamp (unsettled (UsageRecord st)))),
         (drop limit (sortByTimestamp (unsettled (UsageRecord st)))).
  destruct (oldestFirst_take_drop limit (sortByTimestamp (unsettled (UsageRecord st)))
              (sortByTimestamp_oldestFirst _)) as [S1 S2].
  split; [reflexivity|]. split; [|split; [exact S1|split; [|split; [|exact S2]]]].
  - rewrite length_take.
    rewrite (Permutation_length (sortByTimestamp_Permutation _)). reflexivity.
  - intros r. apply fetched_unsettled.
  - rewrite take_drop. apply sortByTimestamp_Permutation.
Qed.

Lemma markOne_id ids txHash r : _id (markOne ids txHash r) = _id r.
Proof. unfold markOne. destruct (existsb _ ids); reflexivity. Qed.

Lemma markOne_twice ids tx1 tx2 r :
  markOne ids tx2 (markOne ids tx1 r) = markOne ids tx2 r.
Proof.
  unfold markOne at 1. rewrite markOne_id. unfold markOne.
  destruct (existsb (Nat.eqb (_id r)) ids); reflexivity.
Qed.

Lemma markOne_sameButSettled ids txHash (l : list IUsageRecord) :
  Forall2 sameButSettled l (map (markOne ids txHash) l).
Proof.
  induction l as [|r l IH]; simpl; constructor; [|exact IH].
  unfold sameButSettled, markOne. destruct (existsb _ ids); simpl; tauto.
Qed.

(** X13. The bulk update [markAsSettled ids txHash] changes nothing of a
    record but its settled flag and transaction id, never turns a
    settled record back into an unsettled one, and leaves the wallets
    alone; afterwards no record with one of the ids is returned as
    unsettled.  Run twice it is as run once, but with a second hash the
    later hash replaces the earlier one on every listed record, settled
    before or not. *)
Theorem markAsSettled_effects :
  forall (ids : list nat) (txHash : string) (st : Store),
    let st' := snd (markAsSettled ids txHash st) in
    Forall2 sameButSettled (UsageRecord st) (UsageRecord st') /\
    TokenBalance st' = TokenBalance st /\
    (forall limit r,
        In r (take limit (sortByTimestamp (unsettled (UsageRecord st')))) ->
        ~ In (_id r) ids) /\
    snd (markAsSettled ids txHash st') = st' /\
    (forall txHash2,
        snd (markAsSettled ids txHash2 st') = snd (markAsSettled ids txHash2 st)) /\
    (forall r, In r (UsageRecord st') -> In (_id r) ids ->
               settled r = true /\ ur_txHash r = Some txHash).
Proof.
  intros ids txHash st st'. subst st'. unfold markAsSettled. cbn [snd UsageRecord
    TokenBalance nextId].
  assert (Marked : forall r, In r (map (markOne ids txHash) (UsageRecord st)) ->
                     In (_id r) ids -> settled r = true /\ ur_txHash r = Some txHash).
  { intros r Hr Hid. apply in_map_iff in Hr as (r0 & <- & _).
    rewrite markOne_id in Hid. unfold markOne.
    apply existsb_eqb_In in Hid. rewrite Hid. split; reflexivity. }
  split; [|split; [reflexivity|split; [|split; [|split; [|exact Marked]]]]].
  - apply markOne_sameButSettled.
  - intros limit r Hr Hid. apply fetched_unsettled in Hr as [Hr Hs].
    destruct (Marked r Hr Hid). congruence.
  - f_equal. rewrite map_map. apply map_ext. intros r. apply markOne_twice.
  - intros txHash2. f_equal. rewrite map_map. apply map_ext. intros r.
    apply markOne_twice.
Qed.

Lemma insertNewestFirst_Permutation r l :
  Permutation (insertNewestFirst r l) (r :: l).
Proof.
  induction l as [|x l IH]; simpl; [reflexivity|].
  destruct (ur_timestamp x <=? ur_timestamp r)%Z; [reflexivity|].
  rewrite IH. apply perm_swap.
Qed.

Lemma sortNewestFirst_Permutation l : Permutation (sortNewestFirst l) l.
Proof.
  induction l as [|x l IH]; simpl; [reflexivity|].
  rewrite insertNewestFirst_Permutation. constructor. exact IH.
Qed.

Lemma insertNewestFirst_Forall (P : IUsageRecord -> Prop) r l :
  P r -> Forall P l -> Forall P (insertNewestFirst r l).
Proof.
  intros Hr Hl. induction Hl as [|x l Hx Hl IH]; simpl.
  - constructor; [exact Hr|constructor].
  - destruct (ur_timestamp x <=? ur_timestamp r)%Z; repeat constructor; assumption.
Qed.

Lemma insertNewestFirst_newestFirst r l :
  newestFirst l -> newestFirst (insertNewestFirst r l).
Proof.
  induction l as [|x l IH]; simpl; intros H.
  - split; [constructor|exact I].
  - destruct H as [Hx Hl].
    destruct (Z.leb_spec (ur_timestamp x) (ur_timestamp r)) as [L|L]; simpl.
    + split; [|split; assumption]. constructor; [exact L|].
      eapply Forall_impl; [exact Hx|]. intros y Hy. simpl in Hy. lia.
    + split; [|apply IH, Hl]. apply insertNewestFirst_Forall; [lia|exact Hx].
Qed.

Lemma sortNewestFirst_newestFirst l : newestFirst (sortNewestFirst l).
Proof.
  induction l as [|x l IH]; simpl; [exact I|].
  apply insertNewestFirst_newestFirst, IH.
Qed.

Lemma newestFirst_take_drop n l :
  newestFirst l ->
  newestFirst (take n l) /\
  forall x y, In x (take n l) -> In y (drop n l) ->
              (ur_timestamp y <= ur_timestamp x)%Z.
Proof.
  revert n. induction l as [|a l IH]; intros [|n] H.
  - split; [exact I|]. intros x y [].
  - split; [exact I|]. intros x y [].
  - split; [exact I|]. intros x y [].
  - destruct H as [Ha Hl]. destruct (IH n Hl) as [IH1 IH2]. cbn [take drop]. split.
    + split; [|exact IH1]. rewrite Forall_forall in Ha. apply Forall_forall.
      intros y Hy. apply Ha. apply list_elem_of_In. apply list_elem_of_In in Hy.
      eapply In_take, Hy.
    + intros x y [<-|Hx] Hy.
      * rewrite Forall_forall in Ha. apply Ha, list_elem_of_In.
        rewrite <- (take_drop n l). apply in_or_app. right. exact Hy.
      * apply IH2; assumption.
Qed.

(** X14. [getUsageHistory wallet limit] is a read: it returns at most
    [limit] usage records, all of that wallet and of the store, newest
    first, and the ones it leaves out are at most as recent as the ones
    it returns. *)
Theorem getUsageHistory_newest_first :
  forall (walletAddress : string) (limit : nat) (st : Store),
    let mine := List.filter (fun r => String.eqb (ur_walletAddress r) walletAddress)
                  (UsageRecord st) in
    exists history rest,
      getUsageHistory walletAddress limit st = (Ok history, st) /\
      length history = Nat.min limit (length mine) /\
      newestFirst history /\
      (forall r, In r history ->
                 In r (UsageRecord st) /\ ur_walletAddress r = walletAddress) /\
      Permutation (history ++ rest) mine /\
      (forall x y, In x history -> In y rest ->
                   (ur_timestamp y <= ur_timestamp x)%Z).
Proof.
  intros w limit st mine.
  exists (take limit (sortNewestFirst mine)), (drop limit (sortNewestFirst mine)).
  destruct (newestFirst_take_drop limit (sortNewestFirst mine)
              (sortNewestFirst_newestFirst _)) as [S1 S2].
  split; [reflexivity|]. split; [|split; [exact S1|split; [|split; [|exact S2]]]].
  - rewrite length_take.
    rewrite (Permutation_length (sortNewestFirst_Permutation _)). reflexivity.
  - intros r Hr. apply In_take in Hr.
    apply (Permutation_in _ (sortNewestFirst_Permutation _)) in Hr.
    apply filter_In in Hr as [Hr E]. apply String.eqb_eq in E. auto.
  - rewrite take_drop. apply sortNewestFirst_Permutation.
Qed.

(** Every document an operation writes went through [save]'s
    validators. *)
Lemma save_valid now doc st r st' :
  storeValid st -> save now doc st = (r, st') -> storeValid st'.
Proof.
  intros V H.
  destruct (save_cases now doc st) as [[Hv E]|[path E]]; rewrite E in H;
    injection H as <- <-; [|exact V].
  intros w d L. simpl in L. rewrite lookup_insert in L. case_decide.
  - injection L as <-. exact Hv.
  - exact (V w d L).
Qed.

Lemma getBalance_storeValid now w st r st' :
  storeValid st -> getBalance now w st = (r, st') -> storeValid st'.
Proof.
  intros V H. unfold getBalance, bind, findOne, ret in H.
  destruct (TokenBalance st !! w); [injection H as <- <-; exact V|].
  eapply save_valid; eassumption.
Qed.

Lemma runOp_valid op st : storeValid st -> storeValid (runOp op st).
Proof.
  intros V. destruct op as [now w|now w amount txHash|now oracle w amount rt usd]; simpl.
  - destruct (getBalance now w st) as [r st'] eqn:E.
    eapply getBalance_storeValid; eassumption.
  - unfold recordDeposit, bind.
    destruct (getBalance now w st) as [[doc|e] st1] eqn:G;
      apply (getBalance_storeValid _ _ _ _ _ V) in G; [|exact G].
    match goal with |- storeValid (snd ?c) => destruct c as [r st2] eqn:S end.
    eapply save_valid; eassumption.
  - unfold deductTokens, bind.
    destruct (getBalance now w st) as [[doc|e] st1] eqn:G;
      apply (getBalance_storeValid _ _ _ _ _ V) in G; [|exact G].
    destruct (Qltb (currentBalance doc) amount); [exact G|].
    match goal with |- context [save now ?d st1] =>
      destruct (save now d st1) as [[saved|e] st2] eqn:S;
      apply (save_valid _ _ _ _ _ G) in S
    end; [|exact S].
    unfold lift, throw, ret.
    destruct (PriceOracle.getTWAPPrice now oracle) as [p|e]; [|exact S].
    destruct (create now w rt usd p amount false st2) as [[u|e] st3] eqn:C;
      apply create_TokenBalance in C; simpl; intros w' d'; rewrite C; apply S.
Qed.

Lemma runOps_valid ops st : storeValid st -> storeValid (runOps ops st).
Proof.
  revert st. induction ops as [|op ops IH]; intros st V; simpl; [exact V|].
  apply IH, runOp_valid, V.
Qed.

Lemma emptyStore_valid : storeValid emptyStore.
Proof. intros w doc. simpl. rewrite lookup_empty. discriminate. Qed.

Lemma validateTokenBalance_amounts doc :
  validateTokenBalance doc = Ok tt ->
  0 <= depositedAmount doc /\ 0 <= consumedAmount doc /\ 0 <= currentBalance doc.
Proof.
  unfold validateTokenBalance. intros H.
  destruct (String.eqb (walletAddress doc) ""); [discriminate|].
  destruct (Qltb (depositedAmount doc) 0) eqn:D; [discriminate|].
  destruct (Qltb (consumedAmount doc) 0) eqn:C; [discriminate|].
  destruct (Qltb (currentBalance doc) 0) eqn:B; [discriminate|].
  apply Qltb_ge in D, C, B. auto.
Qed.

Lemma documents_valid st doc :
  storeValid st -> In doc (documents st) -> validateTokenBalance doc = Ok tt.
Proof.
  intros H Hdoc. apply in_map_iff in Hdoc as ([w d] & <- & Hin).
  apply list_elem_of_In, elem_of_map_to_list in Hin. eapply H, Hin.
Qed.

(** A sum of amounts none of which is negative is not negative and not
    below any of them. *)
Lemma Qsum_nonneg (l : list Q) :
  (forall x, In x l -> 0 <= x) ->
  0 <= Qsum l /\ forall x, In x l -> x <= Qsum l.
Proof.
  induction l as [|y l IH]; intros H; simpl.
  - split; [lra|]. intros x [].
  - destruct IH as [IH0 IH1]; [intros x Hx; apply H; right; exact Hx|].
    assert (0 <= y) by (apply H; left; reflexivity).
    split; [lra|]. intros x [<-|Hx]; [lra|]. specialize (IH1 x Hx). lra.
Qed.

(** X15. [getTotalStats] is a read that counts the wallet documents;
    on a store whose documents satisfy the schema's validators neither
    total is negative and neither is below the amount of any single
    wallet; with no wallet it answers zeros. *)
Theorem getTotalStats_totals :
  forall (st : Store),
    exists stats,
      getTotalStats st = (Ok stats, st) /\
      totalUsers stats = size (TokenBalance st) /\
      (storeValid st ->
         0 <= totalDeposited stats /\ 0 <= totalConsumed stats /\
         forall w doc, TokenBalance st !! w = Some doc ->
           depositedAmount doc <= totalDeposited stats /\
           consumedAmount doc <= totalConsumed stats) /\
      (TokenBalance st = ∅ ->
         stats = {| totalDeposited := 0; totalConsumed := 0; totalUsers := 0 |}).
Proof.
  intros st. unfold getTotalStats.
  assert (Hlen : length (documents st) = size (TokenBalance st)).
  { unfold documents. rewrite length_map. apply length_map_to_list. }
  assert (Hin : forall w doc, TokenBalance st !! w = Some doc -> In doc (documents st)).
  { intros w doc L. unfold documents. apply in_map_iff. exists (w, doc).
    split; [reflexivity|]. apply list_elem_of_In, elem_of_map_to_list, L. }
  destruct (documents st) as [|doc0 docs] eqn:D.
  - simpl. eexists. split; [reflexivity|]. split; [exact Hlen|].
    split; [|reflexivity]. intros _. simpl. split; [lra|]. split; [lra|].
    intros w doc L. destruct (Hin w doc L).
  - cbn [length Nat.eqb]. eexists. split; [reflexivity|]. cbn [totalUsers
      totalDeposited totalConsumed]. split; [exact Hlen|]. split.
    + intros V.
      assert (Hd : forall x, In x (map depositedAmount (doc0 :: docs)) -> 0 <= x).
      { intros x Hx. apply in_map_iff in Hx as (d & <- & Hin').
        apply (validateTokenBalance_amounts d), (documents_valid st d V).
        rewrite D. exact Hin'. }
      assert (Hc : forall x, In x (map consumedAmount (doc0 :: docs)) -> 0 <= x).
      { intros x Hx. apply in_map_iff in Hx as (d & <- & Hin').
        apply (validateTokenBalance_amounts d), (documents_valid st d V).
        rewrite D. exact Hin'. }
      destruct (Qsum_nonneg _ Hd) as [Hd0 Hd1].
      destruct (Qsum_nonneg _ Hc) as [Hc0 Hc1].
      split; [exact Hd0|]. split; [exact Hc0|].
      intros w doc L. apply Hin in L. split.
      * apply Hd1, in_map, L.
      * apply Hc1, in_map, L.
    + intros E. unfold documents in D. rewrite E, map_to_list_empty in D. discriminate.
Qed.

Lemma getTotalStats_totals_witness :
  exists stats,
    getTotalStats (runOps sampleOps emptyStore) = (Ok stats, runOps sampleOps emptyStore) /\
    0 <= totalDeposited stats /\ 0 <= totalConsumed stats.
Proof.
  destruct (getTotalStats_totals (runOps sampleOps emptyStore)) as (stats & H & _ & B & _).
  exists stats. split; [exact H|].
  destruct B as (D & C & _); [apply runOps_valid, emptyStore_valid|]. auto.
Defined.

End UsageRecordFacts.

(** ** The settlement service: what a run submits and what it leaves *)

Section SettlementMoreFacts.

Import Ledger LedgerQueries Settlement SettlementMore.




Section WithChainLibrary.

Variable PublicKey : string -> result string.
Variable getAssociatedTokenAddress : string -> string -> result string.

Abbreviation executeOnChainSettlement' :=
  (Settlement.executeOnChainSettlement PublicKey getAssociatedTokenAddress).
Abbreviation executeBatchSettlement' :=
  (Settlement.executeBatchSettlement PublicKey getAssociatedTokenAddress).



(** What a run does to the store: nothing, or, when it returns after
    fetching a batch, the bulk update of the fetched ids, or, when the
    bulk update fails, the part of it that was written by then. *)
Lemma executeBatchSettlement_store env w r w' :
  isSettling (service w) = false ->
  executeBatchSettlement' env w = (r, w') ->
  let fetched := take 100 (sortByTimestamp (unsettled (UsageRecord (store w)))) in
  TokenBalance (store w') = TokenBalance (store w) /\
  (r = Ok tt ->
     (fetched = [] /\ UsageRecord (store w') = UsageRecord (store w)) \/
     (fetched <> [] /\ exists sig,
        UsageRecord (store w')
        = map (markOne (map _id fetched) sig) (UsageRecord (store w)))) /\
  (forall e, r = Throw e ->
     store w' = store w \/
     exists written sig,
       updateError env = Some (e, written) /\
       UsageRecord (store w')
       = map (markOne (List.filter (fun i => existsb (Nat.eqb i) (map _id fetched))
                         written) sig)
           (UsageRecord (store w))).
Proof.
  intros Hflag H fetched. unfold Settlement.executeBatchSettlement in H.
  rewrite Hflag in H. unfold settlementTry, bind in H.
  destruct (findError env) as [e|].
  { rewrite awaitUnsettledRecords_error in H. injection H as <- <-. simpl.
    split; [reflexivity|]. split; [discriminate|left; reflexivity]. }
  rewrite awaitUnsettledRecords_ok in H.
  cbn [store addEvent setSettling service] in H. fold fetched in H.
  destruct fetched as [|x rest] eqn:F.
  { cbn in H. injection H as <- <-. simpl. split; [reflexivity|].
    split; [left; auto|left; reflexivity]. }
  cbn [length Nat.eqb] in H.
  match type of H with context [Settlement.executeOnChainSettlement _ _ ?e ?b ?t ?w0] =>
    destruct (executeOnChainSettlement_cases PublicKey getAssociatedTokenAddress e b t w0)
      as [[e' Hc]|(tx & ? & ? & ? & ? & ? & _ & _ & Hc)]; rewrite Hc in H
  end.
  { injection H as <- <-. simpl. split; [reflexivity|].
    split; [discriminate|left; reflexivity]. }
  unfold awaitMarkAsSettled in H. destruct (updateError env) as [[e' written]|].
  { unfold bind, emit, onStore, throw, Ledger.markAsSettled in H. simpl in H.
    injection H as <- <-. simpl. split; [reflexivity|]. split; [discriminate|].
    intros e [= <-]. right. exists written, (signature tx). split; reflexivity. }
  unfold bind, emit, onStore, Ledger.markAsSettled in H. simpl in H.
  injection H as <- <-. simpl. split; [reflexivity|]. split; [|discriminate].
  intros _. right. split; [discriminate|]. exists (signature tx). reflexivity.
Qed.

Lemma unsettled_marked ids sig (l : list IUsageRecord) :
  unsettled (map (markOne ids sig) l)
  = List.filter (fun r => negb (existsb (Nat.eqb (_id r)) ids)) (unsettled l).
Proof.
  unfold unsettled. induction l as [|r l IH]; [reflexivity|]. cbn [map List.filter].
  destruct (existsb (Nat.eqb (_id r)) ids) eqn:E.
  - assert (M : settled (markOne ids sig r) = true)
      by (unfold markOne; rewrite E; reflexivity).
    rewrite M. cbn [negb]. destruct (settled r); cbn [negb List.filter];
      [exact IH|]. rewrite E. exact IH.
  - assert (M : markOne ids sig r = r) by (unfold markOne; rewrite E; reflexivity).
    rewrite M. destruct (settled r); cbn [negb List.filter]; [exact IH|]. rewrite E.
    cbn [negb]. f_equal. exact IH.
Qed.

Lemma filter_length_Permutation {A} (f : A -> bool) (l1 l2 : list A) :
  Permutation l1 l2 -> length (List.filter f l1) = length (List.filter f l2).
Proof.
  induction 1 as [|x l1 l2 _ IH|x y l|l1 l2 l3 _ IH1 _ IH2]; simpl.
  - reflexivity.
  - destruct (f x); simpl; congruence.
  - destruct (f x), (f y); reflexivity.
  - congruence.
Qed.

Lemma filter_none {A} (f : A -> bool) (l : list A) :
  (forall x, In x l -> f x = false) -> List.filter f l = [].
Proof.
  induction l as [|x l IH]; intros H; [reflexivity|]. simpl.
  rewrite (H x) by (left; reflexivity). apply IH. intros y Hy. apply H. right. exact Hy.
Qed.

Lemma filter_length_le {A} (f : A -> bool) (l : list A) :
  (length (List.filter f l) <= length l)%nat.
Proof. induction l as [|x l IH]; simpl; [lia|]. destruct (f x); simpl; lia. Qed.

Lemma filter_all {A} (f : A -> bool) (l : list A) :
  (forall x, In x l -> f x = true) -> List.filter f l = l.
Proof.
  induction l as [|x l IH]; intros H; [reflexivity|]. simpl.
  rewrite (H x) by (left; reflexivity). f_equal. apply IH. intros y Hy. apply H.
  right. exact Hy.
Qed.

(** The unsettled records after a run that returned: those whose id was
    not in the batch. *)
Lemma unsettled_after_run env w w' :
  isSettling (service w) = false ->
  executeBatchSettlement' env w = (Ok tt, w') ->
  let pending := unsettled (UsageRecord (store w)) in
  let fetched := take 100 (sortByTimestamp pending) in
  unsettled (UsageRecord (store w'))
  = List.filter (fun r => negb (existsb (Nat.eqb (_id r)) (map _id fetched))) pending.
Proof.
  intros Hflag H pending fetched.
  destruct (executeBatchSettlement_store env w (Ok tt) w' Hflag H) as (_ & Hok & _).
  destruct (Hok eq_refl) as [[Hnil Hsame]|(_ & sig & Hmarked)]; clear Hok.
  - fold pending fetched in Hnil. rewrite Hsame, Hnil. fold pending.
    symmetry. apply filter_all. reflexivity.
  - rewrite Hmarked. apply unsettled_marked.
Qed.

Lemma run_empties_pending env w w' :
  isSettling (service w) = false ->
  executeBatchSettlement' env w = (Ok tt, w') ->
  (length (unsettled (UsageRecord (store w))) <= 100)%nat ->
  unsettled (UsageRecord (store w')) = [].
Proof.
  intros Hflag H Hle. rewrite (unsettled_after_run env w w' Hflag H).
  apply filter_none. intros x Hx. apply negb_false_iff, existsb_eqb_In, in_map.
  rewrite take_ge
    by (rewrite (Permutation_length (sortByTimestamp_Permutation _)); exact Hle).
  apply (Permutation_in _ (Permutation_sym (sortByTimestamp_Permutation _))), Hx.
Qed.

(** X17. A run of [executeBatchSettlement] that returns never leaves a
    fetched record to be fetched again: afterwards no unsettled record
    has one of the fetched ids, the number of unsettled records has gone
    down by at least the size of the batch, and when at most 100 records
    were pending none is left. *)
Theorem settlement_drains_pending :
  forall (env : Env) (w w' : World),
    isSettling (service w) = false ->
    executeBatchSettlement' env w = (Ok tt, w') ->
    let fetched := take 100 (sortByTimestamp (unsettled (UsageRecord (store w)))) in
    (forall limit r,
        In r (take limit (sortByTimestamp (unsettled (UsageRecord (store w'))))) ->
        ~ In (_id r) (map _id fetched)) /\
    (length (unsettled (UsageRecord (store w'))) + length fetched
     <= length (unsettled (UsageRecord (store w))))%nat /\
    ((length (unsettled (UsageRecord (store w))) <= 100)%nat ->
     unsettled (UsageRecord (store w')) = []).
Proof.
  intros env w w' Hflag H fetched.
  pose proof (unsettled_after_run env w w' Hflag H) as Hafter. cbv zeta in Hafter.
  set (pending := unsettled (UsageRecord (store w))) in *. fold fetched in Hafter.
  set (keep := fun r : IUsageRecord =>
                 negb (existsb (Nat.eqb (_id r)) (map _id fetched))) in *.
  split; [|split].
  - intros limit r Hr Hid. apply In_take in Hr.
    apply (Permutation_in _ (sortByTimestamp_Permutation _)) in Hr.
    rewrite Hafter in Hr. apply filter_In in Hr as [_ Hr]. unfold keep in Hr.
    apply negb_true_iff in Hr. apply existsb_eqb_In in Hid. congruence.
  - rewrite Hafter.
    assert (Hperm : Permutation (fetched ++ drop 100 (sortByTimestamp pending)) pending).
    { subst fetched. rewrite take_drop. apply sortByTimestamp_Permutation. }
    assert (Hfetched : List.filter keep fetched = []).
    { apply filter_none. intros x Hx. unfold keep. apply negb_false_iff.
      apply existsb_eqb_In, in_map, Hx. }
    rewrite <- (filter_length_Permutation keep _ _ Hperm).
    rewrite <- (Permutation_length Hperm), List.filter_app, Hfetched.
    rewrite !length_app. change (length (@nil IUsageRecord)) with 0%nat.
    pose proof (filter_length_le keep (drop 100 (sortByTimestamp pending))). lia.
  - apply (run_empties_pending env w w' Hflag H).
Qed.

(** X18. [getSettlementStats] reports half of all consumption as burned
    and half as sent to the treasury, whether or not it has been settled:
    a settlement run, whatever its outcome, leaves both figures as they
    were.  [pendingSettlement] is the sum over the oldest 1000 unsettled
    records; it is 0 after a run that returned when at most 100 records
    were pending, and unchanged by a run that threw, unless it was the
    bulk update that failed. *)
Theorem getSettlementStats_after_run :
  forall (env : Env) (w w' : World) (r : result unit),
    isSettling (service w) = false ->
    executeBatchSettlement' env w = (r, w') ->
    exists before after,
      getSettlementStats None w = (Ok before, addEvent (Find 1000) w) /\
      getSettlementStats None w' = (Ok after, addEvent (Find 1000) w') /\
      totalBurned before + totalToTreasury before
        == Qsum (map consumedAmount (documents (store w))) /\
      totalBurned after = totalBurned before /\
      totalToTreasury after = totalToTreasury before /\
      pendingSettlement before
        == Qsum (map tokensBurned
                   (take 1000 (sortByTimestamp (unsettled (UsageRecord (store w)))))) /\
      (r = Ok tt -> (length (unsettled (UsageRecord (store w))) <= 100)%nat ->
       pendingSettlement after == 0) /\
      (forall e, r = Throw e -> updateError env = None ->
       pendingSettlement after = pendingSettlement before).
Proof.
  intros env w w' r Hflag H.
  destruct (executeBatchSettlement_store env w r w' Hflag H) as (Hbal & _ & Hthrow).
  set (half := fun v : World =>
                 (if (length (documents (store v)) =? 0)%nat then 0
                  else Qsum (map consumedAmount (documents (store v)))) / 2).
  assert (Hstats : forall v,
             getSettlementStats None v
             = (Ok {| totalBurned := half v; totalToTreasury := half v;
                      pendingSettlement :=
                        reduce_sum tokensBurned
                          (take 1000 (sortByTimestamp (unsettled (UsageRecord (store v))))) |},
                addEvent (Find 1000) v)).
  { intros v. unfold getSettlementStats, bind. rewrite awaitUnsettledRecords_ok.
    unfold onStore, getTotalStats, ret, half. cbn [store addEvent].
    destruct (length (documents (store v)) =? 0)%nat; reflexivity. }
  assert (Hhalf : half w' = half w).
  { unfold half, documents. rewrite Hbal. reflexivity. }
  eexists; eexists. split; [apply Hstats|]. split; [apply Hstats|].
  cbn [totalBurned totalToTreasury pendingSettlement]. split.
  { unfold half. destruct (length (documents (store w)) =? 0)%nat eqn:L; [|field].
    apply Nat.eqb_eq in L. destruct (documents (store w)); [|discriminate].
    simpl. field. }
  split; [exact Hhalf|]. split; [exact Hhalf|]. split; [apply reduce_sum_Qsum|].
  split.
  - intros -> Hle. rewrite (run_empties_pending env w w' Hflag H Hle). reflexivity.
  - intros e -> Hupdate.
    destruct (Hthrow e eq_refl) as [->|(written & sig & Hsome & _)];
      [reflexivity|congruence].
Qed.

(** X19. The server's five-minute timer does what
    [checkAndSettleIfNeeded] does and swallows its error: it never
    throws and ends in the world that [checkAndSettleIfNeeded] with the
    same threshold ends in; like the scheduled settlement, it leaves the
    settling flag as it found it and never touches a wallet document. *)
Theorem automatedSettlementCheck_as_service :
  forall (checkError : option Error) (env : Env) (thresholdTokens : Q) (w : World),
    let w' := snd (Settlement.checkAndSettleIfNeeded PublicKey getAssociatedTokenAddress
                     checkError env thresholdTokens w) in
    automatedSettlementCheck PublicKey getAssociatedTokenAddress checkError env
      thresholdTokens w = (Ok tt, w') /\
    isSettling (service w') = isSettling (service w) /\
    TokenBalance (store w') = TokenBalance (store w) /\
    (fst (Settlement.checkAndSettleIfNeeded PublicKey getAssociatedTokenAddress
            checkError env thresholdTokens w) = Ok false -> store w' = store w) /\
    scheduledSettlement PublicKey getAssociatedTokenAddress env w
    = (Ok tt, snd (executeBatchSettlement' env w)) /\
    isSettling (service (snd (executeBatchSettlement' env w))) = isSettling (service w) /\
    TokenBalance (store (snd (executeBatchSettlement' env w))) = TokenBalance (store w).
Proof.
  intros checkError env threshold w.
  assert (Run : forall v,
             isSettling (service (snd (executeBatchSettlement' env v)))
             = isSettling (service v) /\
             TokenBalance (store (snd (executeBatchSettlement' env v)))
             = TokenBalance (store v)).
  { intros v. split; [apply executeBatchSettlement_flag|].
    destruct (isSettling (service v)) eqn:F.
    - unfold Settlement.executeBatchSettlement. rewrite F. reflexivity.
    - destruct (executeBatchSettlement' env v) as [r v'] eqn:E.
      apply (executeBatchSettlement_store env v r v' F E). }
  unfold automatedSettlementCheck, triggerManualSettlement, scheduledSettlement,
    Settlement.checkAndSettleIfNeeded, bind, ret.
  destruct checkError as [e|].
  - rewrite awaitUnsettledRecords_error. cbn [snd fst].
    repeat split; try apply Run; try discriminate.
    destruct (executeBatchSettlement' env w); reflexivity.
  - rewrite awaitUnsettledRecords_ok.
    destruct (Qgeb _ threshold).
    + destruct (Run (addEvent (Find 1000) w)) as [F T].
      destruct (executeBatchSettlement' env (addEvent (Find 1000) w)) as [[[]|e] v] eqn:E;
        cbn [snd fst] in *; repeat split; try apply Run; try discriminate;
        try assumption; destruct (executeBatchSettlement' env w); reflexivity.
    + cbn [snd fst]. repeat split; try apply Run.
      destruct (executeBatchSettlement' env w); reflexivity.
Qed.

End WithChainLibrary.

Lemma automatedSettlementCheck_as_service_witness :
  automatedSettlementCheck Verifier.textKey ataOf None goodEnv 5 (worldOf (unitRecords 3))
  = (Ok tt,
     snd (Settlement.checkAndSettleIfNeeded Verifier.textKey ataOf None goodEnv 5
            (worldOf (unitRecords 3)))) /\
  store (snd (Settlement.checkAndSettleIfNeeded Verifier.textKey ataOf None goodEnv 5
                (worldOf (unitRecords 3))))
  = store (worldOf (unitRecords 3)).
Proof.
  destruct (automatedSettlementCheck_as_service Verifier.textKey ataOf None goodEnv 5
              (worldOf (unitRecords 3))) as (A & _ & _ & S & _).
  split; [exact A|]. apply S. vm_compute. reflexivity.
Defined.

Lemma settlement_drains_pending_witness :
  unsettled
    (UsageRecord (store (snd (Settlement.executeBatchSettlement Verifier.textKey ataOf
                                goodEnv (worldOf (unitRecords 3)))))) = [].
Proof.
  apply (settlement_drains_pending Verifier.textKey ataOf goodEnv (worldOf (unitRecords 3))).
  - reflexivity.
  - vm_compute. reflexivity.
  - vm_compute. lia.
Defined.

Lemma getSettlementStats_after_run_witness :
  exists before after,
    fst (getSettlementStats None (worldOf (unitRecords 3))) = Ok before /\
    fst (getSettlementStats None
           (snd (Settlement.executeBatchSettlement Verifier.textKey ataOf goodEnv
                   (worldOf (unitRecords 3))))) = Ok after /\
    totalBurned after = totalBurned before /\
    pendingSettlement before == 3 /\
    pendingSettlement after == 0.
Proof.
  destruct (getSettlementStats_after_run Verifier.textKey ataOf goodEnv
              (worldOf (unitRecords 3))
              (snd (Settlement.executeBatchSettlement Verifier.textKey ataOf goodEnv
                      (worldOf (unitRecords 3))))
              (Ok tt) eq_refl)
    as (before & after & Eb & Ea & _ & Hb & _ & Pb & Pa & _).
  - vm_compute. reflexivity.
  - exists before, after. rewrite Eb, Ea. split; [reflexivity|]. split; [reflexivity|].
    split; [exact Hb|]. split.
    + rewrite Pb. vm_compute. reflexivity.
    + apply Pa; [reflexivity|]. vm_compute. lia.
Defined.

(** A bulk update that fails after writing record 0 of two pending
    records: the run throws, and [pendingSettlement] has gone down from
    the two records' sum to that of record 1. *)
Example getSettlementStats_after_partial_update :
  let run := Settlement.executeBatchSettlement Verifier.textKey ataOf
               Settlement64.halfWayEnv Settlement64.twoRecords in
  fst run = Throw (External "connection lost") /\
  (exists before,
      fst (getSettlementStats None Settlement64.twoRecords) = Ok before /\
      pendingSettlement before
      == Binary64.round64 (1 # 10) + Binary64.round64 (2 # 10)) /\
  (exists after,
      fst (getSettlementStats None (snd run)) = Ok after /\
      pendingSettlement after == Binary64.round64 (2 # 10)).
Proof.
  split; [vm_compute; reflexivity|].
  split; eexists; (split; [reflexivity|vm_compute; reflexivity]).
Qed.


End SettlementMoreFacts.

(** ** The chat route *)

Section ChatRouteFacts.

Import PriceOracle Ledger LedgerQueries PriceFeed ChatRoutes.

Lemma calculateTokenBurn_floor now o usdCost x :
  calculateTokenBurn now o usdCost = Ok x -> burnFloor o <= x.
Proof.
  unfold calculateTokenBurn. destruct (getTWAPPrice now o); [|discriminate].
  destruct (Qle_bool a 0); [discriminate|]. intros [= <-]. apply Q.le_max_l.
Qed.

Lemma truthy_nonempty (a : option string) :
  Verifier.truthy a = true -> default "" a <> "".
Proof.
  destruct a as [s|]; [|discriminate]. simpl. intros H E. subst s. discriminate.
Qed.

(** The wallet's document as the route's first read finds or creates it. *)
Lemma getBalance_valid now w st :
  storeValid st -> wellKeyed st -> w <> "" ->
  exists doc st1,
    getBalance now w st = (Ok doc, st1) /\
    validateTokenBalance doc = Ok tt /\ walletAddress doc = w /\
    (TokenBalance st !! w = Some doc \/
     TokenBalance st !! w = None /\ doc = zeroBalance now w) /\
    atMostCreated now w st st1 /\
    TokenBalance st1 !! w = Some doc.
Proof.
  intros V K Hw.
  destruct (getBalance_cases now w st) as [(doc & L & G)|[(L & _ & G)|(_ & E & _)]];
    [| |contradiction].
  - exists doc, st. split; [exact G|]. split; [exact (V w doc L)|].
    split; [exact (K w doc L)|]. split; [left; exact L|].
    split; [|exact L]. repeat split. left. reflexivity.
  - eexists; eexists. split; [exact G|]. split.
    { apply validateTokenBalance_ok. simpl. repeat split; try lra. exact Hw. }
    split; [reflexivity|]. split; [right; auto|]. split.
    + repeat split. right. auto.
    + simpl. apply lookup_insert_eq.
Qed.

(** X20. Through the chat route a debit never comes without its usage
    record.  On a store of valid, well-keyed documents, with a cost and a
    burn floor that are not negative and positive prices in a non-empty
    cache when [deductTokens] runs, the route answers 200 only after
    debiting the wallet by the burn calculated after the model's reply
    and appending exactly one unsettled usage record for that amount;
    every other answer leaves all balances and the usage records as they
    were (at most the wallet's empty document is created). *)
Theorem postMessage_debits_with_record :
  forall (cost : Q) (now : Z) (oracle : PriceOracleService)
         (now1 : Z) (oracle1 : PriceOracleService)
         (now2 : Z) (oracle2 : PriceOracleService)
         (llm : LLMService) (body : MessageBody) (st : Store)
         (r : ChatResponse) (st' : Store),
    storeValid st -> wellKeyed st ->
    0 <= cost -> 0 <= burnFloor oracle1 ->
    priceCache oracle2 <> [] -> positivePrices oracle2 ->
    postMessage cost now oracle now1 oracle1 now2 oracle2 llm body st = (r, st') ->
    let w := default "" (m_walletAddress body) in
    match r with
    | Reply _ c usd remaining =>
        exists doc twap,
          (TokenBalance st !! w = Some doc \/
           TokenBalance st !! w = None /\ doc = zeroBalance now w) /\
          calculateTokenBurn now1 oracle1 cost = Ok c /\ usd = cost /\
          getTWAPPrice now2 oracle2 = Ok twap /\
          c <= currentBalance doc /\
          remaining = currentBalance doc - c /\
          TokenBalance st' = <[w := debited now2 doc c chat cost]> (TokenBalance st) /\
          UsageRecord st' = UsageRecord st ++
            [ {| _id := nextId st; ur_walletAddress := w; requestType := chat;
                 usdCost := cost; tokenPrice := twap; tokensBurned := c;
                 ur_timestamp := now2; settled := false; ur_txHash := None |} ]
    | _ => atMostCreated now w st st'
    end.
Proof.
  intros cost now oracle now1 oracle1 now2 oracle2 llm body st r st' V K Hcost Hfloor
    Hcache Hpos H w.
  assert (Same : atMostCreated now w st st) by (repeat split; left; reflexivity).
  unfold postMessage in H.
  destruct (Verifier.truthy (message body)); cbn [negb] in H;
    [|injection H as <- <-; exact Same].
  destruct (Verifier.truthy (m_walletAddress body)) eqn:Tw; cbn [negb] in H;
    [|injection H as <- <-; exact Same].
  apply truthy_nonempty in Tw. fold w in H, Tw.
  destruct (calculateTokenBurn now oracle cost) as [requiredTokens|e];
    [|injection H as <- <-; exact Same].
  destruct (getBalance_valid now w st V K Tw)
    as (doc & st1 & G & Vdoc & Wdoc & Hdoc & Created & L1).
  unfold hasSufficientBalance, bind, ret in H. rewrite G in H.
  destruct (Qgeb (currentBalance doc) requiredTokens).
  2:{ rewrite (getBalance_again now now w st doc st1 G) in H.
      injection H as <- <-. exact Created. }
  destruct (isModelAvailable llm _); cbn [negb] in H;
    [|injection H as <- <-; exact Created].
  destruct (generateResponse llm _ _) as [llmResponse|e];
    [|injection H as <- <-; exact Created].
  destruct (calculateTokenBurn now1 oracle1 cost) as [c|e] eqn:Burn;
    [|injection H as <- <-; exact Created].
  pose proof (getBalance_again now now2 w st doc st1 G) as G2.
  destruct (Qlt_le_dec (currentBalance doc) c) as [Hlt|Hle].
  { destruct (deductTokens_insufficient now2 oracle2 w c chat cost st1 doc st1 G2)
      as [_ Hthrow].
    rewrite (Hthrow Hlt) in H. injection H as <- <-. exact Created. }
  destruct (getTWAPPrice_nonempty now2 oracle2 Hcache) as [twap Htwap].
  pose proof (positivePrices_TWAP now2 oracle2 twap Hpos Htwap) as Ptwap.
  assert (Hc : 0 <= c).
  { apply Qle_trans with (burnFloor oracle1); [exact Hfloor|].
    eapply calculateTokenBurn_floor, Burn. }
  destruct (deductTokens_returns now2 oracle2 w c chat cost st1 doc st1 twap G2 Vdoc Tw
              Htwap (Qlt_le_weak _ _ Ptwap) Hc Hcost Hle) as [st2 D].
  rewrite D in H. injection H as <- <-.
  destruct (deductTokens_success now2 oracle2 w c chat cost st1 _ st2 D)
    as (doc0 & st0 & twap0 & G0 & _ & Htwap0 & _ & _ & HT & HU).
  rewrite G2 in G0. injection G0 as <- <-.
  rewrite Htwap in Htwap0. injection Htwap0 as <-.
  destruct Created as (U1 & N1 & T1).
  exists doc, twap. split; [exact Hdoc|]. split; [reflexivity|]. split; [reflexivity|].
  split; [exact Htwap|]. split; [exact Hle|]. split; [reflexivity|]. split.
  - rewrite HT, Wdoc. destruct T1 as [->|[_ ->]]; [reflexivity|].
    apply insert_insert_eq.
  - rewrite HU, U1, N1. reflexivity.
Qed.

Lemma postMessage_debits_with_record_witness :
  exists c remaining st',
    postMessage (2 # 100) 0 (defaultService [ {| price := 1 # 10; timestamp := 0 |} ])
      5 (defaultService [ {| price := 1 # 10; timestamp := 0 |} ])
      6 (defaultService [ {| price := 1 # 10; timestamp := 0 |} ])
      echo {| message := Some "hi"; m_walletAddress := Some "W"; modelType := None |}
      walletWithTen
    = (Reply "hi" c (2 # 100) remaining, st') /\
    c == 2 # 10 /\ remaining == 98 # 10 /\
    length (UsageRecord st') = 1%nat.
Proof.
  assert (E : exists c remaining st',
             postMessage (2 # 100)
               0 (defaultService [ {| price := 1 # 10; timestamp := 0 |} ])
               5 (defaultService [ {| price := 1 # 10; timestamp := 0 |} ])
               6 (defaultService [ {| price := 1 # 10; timestamp := 0 |} ])
               echo {| message := Some "hi"; m_walletAddress := Some "W";
                       modelType := None |}
               walletWithTen
             = (Reply "hi" c (2 # 100) remaining, st') /\
             c == 2 # 10 /\ remaining == 98 # 10).
  { eexists; eexists; eexists. split; [vm_compute; reflexivity|].
    split; reflexivity. }
  destruct E as (c & remaining & st' & E & Hc & Hr).
  exists c, remaining, st'. split; [exact E|]. split; [exact Hc|]. split; [exact Hr|].
  pose proof (postMessage_debits_with_record (2 # 100)
                0 (defaultService [ {| price := 1 # 10; timestamp := 0 |} ])
                5 (defaultService [ {| price := 1 # 10; timestamp := 0 |} ])
                6 (defaultService [ {| price := 1 # 10; timestamp := 0 |} ])
                echo {| message := Some "hi"; m_walletAddress := Some "W";
                        modelType := None |}
                walletWithTen (Reply "hi" c (2 # 100) remaining) st') as H.
  cbv beta iota zeta in H.
  destruct H as (doc & twap & _ & _ & _ & _ & _ & _ & _ & HU).
  - apply (runOps_valid [RecordDeposit 0 "W" 10 "T1"] emptyStore emptyStore_valid).
  - apply (runOps_wellKeyed [RecordDeposit 0 "W" 10 "T1"] emptyStore emptyStore_wellKeyed).
  - lra.
  - simpl. lra.
  - discriminate.
  - repeat constructor.
  - exact E.
  - rewrite HU, length_app. reflexivity.
Defined.

End ChatRouteFacts.

(** ** The deposit routes *)

Section DepositRouteFacts.

Import Ledger LedgerQueries TokenRoutes DepositRoutes.

Section WithChainLibrary.

Variable PublicKey : string -> result string.
Variable getAssociatedTokenAddress : string -> string -> result string.
Variable recordDepositNaN : Z -> string -> string -> M Store ITokenBalance.

Abbreviation verifyDepositTransaction' := (Verifier.verifyDepositTransaction PublicKey).

(** A valid result comes from a fetched, successful transaction in which
    a transfer was located, and is what the checks say of it. *)
Lemma verify_valid_inv rpc recipient a m s :
  Verifier.isValid (verifyDepositTransaction' rpc recipient a m s) = true ->
  exists transaction key locals,
    rpc = Ok (Some transaction) /\ Verifier.txError transaction = None /\
    PublicKey recipient = Ok key /\
    Verifier.locateTransfer key recipient transaction = Ok locals /\
    verifyDepositTransaction' rpc recipient a m s
    = Verifier.checkTransfer locals a m s.
Proof.
  intros H. unfold Verifier.verifyDepositTransaction, Verifier.verifyBody in *.
  destruct rpc as [[transaction|]|e]; try discriminate.
  destruct (Verifier.txError transaction) eqn:E; try discriminate.
  destruct (PublicKey recipient) as [key|e] eqn:P; try discriminate.
  destruct (Verifier.locateTransfer key recipient transaction) as [locals|e] eqn:L;
    try discriminate.
  exists transaction, key, locals. auto.
Qed.

(** X21. Leaving an expectation out never turns an accepted transaction
    into a rejected one: when [verifyDepositTransaction] accepts a
    transaction under some expected amount, mint and sender, it returns
    the same result when any of them is not supplied. *)
Theorem verifyDepositTransaction_fewer_expectations :
  forall (rpc : result (option Verifier.ParsedTransactionWithMeta)) (recipient : string)
         (a a' : option Q) (m m' s s' : option string),
    Verifier.isValid (verifyDepositTransaction' rpc recipient a m s) = true ->
    (a' = a \/ a' = None) ->
    (m' = m \/ Verifier.truthy m' = false) ->
    (s' = s \/ Verifier.truthy s' = false) ->
    verifyDepositTransaction' rpc recipient a' m' s'
    = verifyDepositTransaction' rpc recipient a m s.
Proof.
  intros rpc recipient a a' m m' s s' H Ha Hm Hs.
  destruct (verify_valid_inv rpc recipient a m s H)
    as (transaction & key & locals & Hrpc & Herr & Hkey & Hloc & E).
  rewrite E in *.
  rewrite (verify_located PublicKey rpc transaction key locals recipient a' m' s'
             Hrpc Herr Hkey Hloc).
  destruct (checkTransfer_shape locals a m s) as [Shape _]. cbv zeta in Shape.
  rewrite (Shape H).
  destruct (checkTransfer_shape locals a' m' s') as [Shape' _]. cbv zeta in Shape'.
  apply Shape'. apply checkTransfer_valid. apply checkTransfer_valid in H.
  destruct H as (F & S & M & T). split; [exact F|]. split; [|split].
  - destruct Hs as [->|Hs]; [exact S|]. intros C. congruence.
  - destruct Hm as [->|Hm]; [exact M|]. intros C. congruence.
  - destruct Ha as [->| ->]; [exact T|]. intros x C. discriminate.
Qed.

(** What [recordDeposit] does to a well-keyed store. *)
Lemma recordDeposit_effect now w a h st r st' :
  wellKeyed st ->
  recordDeposit now w a h st = (r, st') ->
  touchesOnly w (TokenBalance st) (TokenBalance st') /\
  UsageRecord st' = UsageRecord st /\
  (forall e, r = Throw e -> exists path, e = ValidationError path) /\
  (forall doc, r = Ok doc ->
     TokenBalance st' !! w = Some doc /\
     depositedAmount doc = depositedOf w st + a).
Proof.
  intros K H.
  pose proof (runOp_touches (RecordDeposit now w a h) st K) as T. simpl in T.
  rewrite H in T. simpl in T. split; [exact T|].
  unfold recordDeposit, bind in H. unfold depositedOf.
  destruct (getBalance_cases now w st) as [(doc & L & G)|[(L & Hw & G)|(L & Hw & G)]];
    rewrite G in H.
  - match type of H with save now ?d st = _ =>
      destruct (save_cases now d st) as [[_ E]|[path E]]; rewrite E in H
    end; injection H as <- <-.
    + split; [reflexivity|]. split; [discriminate|]. intros ? [= <-]. simpl.
      rewrite (K w doc L), L. split; [apply lookup_insert_eq|reflexivity].
    + split; [reflexivity|]. split; [intros ? [= <-]; eauto|discriminate].
  - match type of H with save now ?d ?s = _ =>
      destruct (save_cases now d s) as [[_ E]|[path E]]; rewrite E in H
    end; injection H as <- <-.
    + split; [reflexivity|]. split; [discriminate|]. intros ? [= <-]. simpl.
      rewrite L. split; [apply lookup_insert_eq|reflexivity].
    + split; [reflexivity|]. split; [intros ? [= <-]; eauto|discriminate].
  - injection H as <- <-. split; [reflexivity|].
    split; [intros ? [= <-]; eauto|discriminate].
Qed.

Lemma touchesOnly_inLog w st st' h :
  touchesOnly w (TokenBalance st) (TokenBalance st') -> inLog h st -> inLog h st'.
Proof.
  intros [E|(doc' & E & _ & S)] (k & doc & t & L & I & Ht); unfold inLog; rewrite E.
  - eauto 7.
  - destruct (decide (k = w)) as [->|Hk].
    + destruct (S doc L) as [suffix Hs]. exists w, doc', t.
      rewrite lookup_insert_eq, Hs, in_app_iff. auto.
    + exists k, doc, t. rewrite lookup_insert_ne by congruence. auto.
Qed.


(** X22. POST /deposit/pay answers 200 only for a fetched, successful
    transaction in which a transfer into the treasury's associated token
    account was located whose authority is the paying wallet and whose
    mint is the configured one; it credits that wallet with the amount
    located on chain, under a transaction id that was in no wallet's
    log.  The amount located is within 0.0001 of the amount in the
    request when [parseFloat] reads a number there; when it reads NaN,
    the amount located is credited whatever it is. *)
Theorem postDepositPay_success :
  forall (now : Z) (TOKEN_MINT_ADDRESS TREASURY_WALLET_ADDRESS : option string)
         (rpc : result (option Verifier.ParsedTransactionWithMeta))
         (body : RequestBody) (st : Store) (c d : Q) (st' : Store),
    postDepositPay PublicKey getAssociatedTokenAddress recordDepositNaN now
      TOKEN_MINT_ADDRESS TREASURY_WALLET_ADDRESS rpc body st = (PaySuccess c d, st') ->
    exists wallet parsed txHash mint treasury ata transaction key locals doc,
      r_walletAddress body = Some wallet /\ r_amount body = Truthy parsed /\
      r_txHash body = Some txHash /\
      TOKEN_MINT_ADDRESS = Some mint /\ TREASURY_WALLET_ADDRESS = Some treasury /\
      treasuryAtaOf PublicKey getAssociatedTokenAddress mint treasury = Ok ata /\
      rpc = Ok (Some transaction) /\ Verifier.txError transaction = None /\
      PublicKey ata = Ok key /\
      Verifier.locateTransfer key ata transaction = Ok locals /\
      Verifier.tokenTransferFound locals = true /\
      Verifier.transferAuthority locals = Some wallet /\
      Verifier.tokenMint locals = Some mint /\
      (forall amount, parsed = Some amount ->
         Qabs (Verifier.l_actualAmount locals - amount) <= Verifier.tolerance) /\
      ~ inLog txHash st /\ inLog txHash st' /\
      recordDeposit now wallet (Verifier.l_actualAmount locals) txHash st = (Ok doc, st') /\
      c = currentBalance doc /\ d = depositedAmount doc.
Proof.
  intros now MINT TREASURY rpc body st c d st' H. unfold postDepositPay in H.
  destruct (r_amount body) as [|parsed] eqn:Ea; [discriminate|].
  destruct (Verifier.truthy (r_walletAddress body)) eqn:Tw; [|discriminate].
  destruct (Verifier.truthy (r_txHash body)) eqn:Th; [|discriminate].
  cbn [negb orb] in H.
  destruct (Verifier.truthy MINT) eqn:Tm; [|discriminate].
  destruct (Verifier.truthy TREASURY) eqn:Tt; [|discriminate].
  cbn [negb orb] in H.
  destruct (truthy_Some _ Tw) as (wallet & Ew & _).
  destruct (truthy_Some _ Th) as (txHash & Eh & _).
  destruct (truthy_Some _ Tm) as (mint & Em & _).
  destruct (truthy_Some _ Tt) as (treasury & Et & _).
  rewrite Ew, Eh in *. subst MINT TREASURY. cbn [from_option id] in H.
  destruct (treasuryAtaOf PublicKey getAssociatedTokenAddress mint treasury)
    as [ata|e] eqn:A; [|discriminate].
  match type of H with context [Verifier.verifyDepositTransaction PublicKey ?r ?x ?a ?m ?s] =>
    destruct (Verifier.isValid (Verifier.verifyDepositTransaction PublicKey r x a m s))
      eqn:V; [|discriminate];
    destruct (verify_valid_inv r x a m s V)
      as (transaction & key & locals & Hrpc & Herr & Hkey & Hloc & E)
  end.
  rewrite E in H, V. cbn [negb] in H.
  destruct (checkTransfer_shape locals parsed (Some mint) (Some wallet))
    as [Shape _]. cbv zeta in Shape. rewrite (Shape V) in H.
  cbn [Verifier.actualAmount recordVerified] in H.
  apply checkTransfer_valid in V as (F & S & M & T).
  destruct (existingTransaction txHash st) eqn:X; [discriminate|].
  destruct (recordDeposit now wallet (Verifier.l_actualAmount locals) txHash st)
    as [[doc|e] st1] eqn:R; [|discriminate].
  injection H as <- <- <-.
  exists wallet, parsed, txHash, mint, treasury, ata, transaction, key, locals, doc.
  repeat (split; [first [reflexivity|assumption]|]).
  split; [exact (S Tw)|]. split; [exact (M Tm)|]. split; [exact T|].
  split.
  { intros I. apply existingTransaction_inLog in I. congruence. }
  split; [eapply recordDeposit_inLog, R|]. auto.
Qed.

(** For a body whose amount is a JSON number the route for any body is
    the route of the replay check. *)
Lemma postDepositRequest_of_number now MINT rpc body st :
  postDepositRequest PublicKey recordDepositNaN now MINT rpc (ofDepositBody body) st
  = postDeposit PublicKey now MINT rpc body st.
Proof.
  unfold postDepositRequest, postDeposit, ofDepositBody. cbn [r_amount r_walletAddress
    r_txHash].
  destruct (falsyAmount (b_amount body)) eqn:Fa.
  { rewrite orb_true_r. reflexivity. }
  rewrite orb_false_r.
  destruct (b_amount body) as [amount|]; [|discriminate]. cbn [from_option id].
  destruct (_ || _); [reflexivity|].
  destruct (negb _); [reflexivity|].
  destruct (existingTransaction _ st); [reflexivity|].
  match goal with |- context [falsyAmount ?x] => destruct x as [actual|] eqn:A end;
    cbn [falsyAmount].
  - destruct (Qeq_bool actual 0); reflexivity.
  - reflexivity.
Qed.

(** X23. POST /deposit answers 200 only for a fetched, successful
    transaction in which a transfer to the wallet was located, of the
    configured mint when one is configured, under a transaction id that
    was in no wallet's log.  When [parseFloat] reads a number in the
    request's amount, the amount the route credits is the amount located
    on chain (the requested amount when that is 0), and both differ from
    the requested amount by at most 0.0001.  When it reads NaN, the
    route credits the amount located whatever it is, and calls
    [recordDeposit] with NaN when that amount is 0. *)
Theorem postDeposit_credits_located_amount :
  forall (now : Z) (TOKEN_MINT_ADDRESS : option string)
         (rpc : result (option Verifier.ParsedTransactionWithMeta))
         (body : RequestBody) (st : Store) (c d : Q) (st' : Store),
    postDepositRequest PublicKey recordDepositNaN now TOKEN_MINT_ADDRESS rpc body st
    = (Success c d, st') ->
    exists wallet parsed txHash transaction key locals doc,
      r_walletAddress body = Some wallet /\ r_amount body = Truthy parsed /\
      r_txHash body = Some txHash /\
      rpc = Ok (Some transaction) /\ Verifier.txError transaction = None /\
      PublicKey wallet = Ok key /\
      Verifier.locateTransfer key wallet transaction = Ok locals /\
      Verifier.tokenTransferFound locals = true /\
      Verifier.matches (Verifier.tokenMint locals) TOKEN_MINT_ADDRESS /\
      ~ inLog txHash st /\
      c = currentBalance doc /\ d = depositedAmount doc /\
      match parsed with
      | Some amount =>
          let verifiedAmount :=
            if Qeq_bool (Verifier.l_actualAmount locals) 0 then amount
            else Verifier.l_actualAmount locals in
          Qabs (Verifier.l_actualAmount locals - amount) <= Verifier.tolerance /\
          Qabs (verifiedAmount - amount) <= Verifier.tolerance /\
          recordDeposit now wallet verifiedAmount txHash st = (Ok doc, st')
      | None =>
          if Qeq_bool (Verifier.l_actualAmount locals) 0
          then recordDepositNaN now wallet txHash st = (Ok doc, st')
          else recordDeposit now wallet (Verifier.l_actualAmount locals) txHash st
               = (Ok doc, st')
      end.
Proof.
  intros now MINT rpc body st c d st' H. unfold postDepositRequest in H.
  destruct (r_amount body) as [|parsed] eqn:Ea; [discriminate|].
  destruct (Verifier.truthy (r_walletAddress body)) eqn:Tw; [|discriminate].
  destruct (Verifier.truthy (r_txHash body)) eqn:Th; [|discriminate].
  cbn [negb orb] in H.
  destruct (truthy_Some _ Tw) as (wallet & Ew & _).
  destruct (truthy_Some _ Th) as (txHash & Eh & _).
  rewrite Ew, Eh in *. cbn [from_option id] in H.
  match type of H with context [Verifier.verifyDepositTransaction PublicKey ?r ?x ?a ?m ?s] =>
    destruct (Verifier.isValid (Verifier.verifyDepositTransaction PublicKey r x a m s))
      eqn:V; [|discriminate];
    destruct (verify_valid_inv r x a m s V)
      as (transaction & key & locals & Hrpc & Herr & Hkey & Hloc & E)
  end.
  rewrite E in H, V. cbn [negb] in H.
  destruct (checkTransfer_shape locals parsed MINT None) as [Shape _].
  cbv zeta in Shape. rewrite (Shape V) in H.
  cbn [Verifier.actualAmount falsyAmount] in H.
  apply checkTransfer_valid in V as (F & _ & M & T).
  destruct (existingTransaction txHash st) eqn:X; [discriminate|].
  assert (NI : ~ inLog txHash st).
  { intros I. apply existingTransaction_inLog in I. congruence. }
  match type of H with context [recordVerified _ now wallet ?v txHash st] =>
    destruct (recordVerified recordDepositNaN now wallet v txHash st)
      as [[doc|e] st1] eqn:R; [|discriminate]
  end.
  injection H as <- <- <-.
  exists wallet, parsed, txHash, transaction, key, locals, doc.
  repeat (split; [first [reflexivity|assumption]|]).
  destruct parsed as [amount|].
  - pose proof (T amount eq_refl) as Tol. split; [exact Tol|].
    destruct (Qeq_bool (Verifier.l_actualAmount locals) 0); cbn [recordVerified] in R.
    + split; [|exact R]. apply Qabs_Qle_condition. unfold Verifier.tolerance.
      split; lra.
    + split; [exact Tol|exact R].
  - destruct (Qeq_bool (Verifier.l_actualAmount locals) 0); exact R.
Qed.

Abbreviation creditNew' := (creditNew PublicKey).
Abbreviation scanVerification' := (scanVerification PublicKey).
Abbreviation postDepositScan' := (postDepositScan PublicKey getAssociatedTokenAddress).

Lemma creditNew_ok clock tx w mint sigs :
  forall i credited already st c' a' st',
    wellKeyed st ->
    creditNew' clock tx w mint i sigs credited already st = (Ok (c', a'), st') ->
    touchesOnly w (TokenBalance st) (TokenBalance st') /\
    UsageRecord st' = UsageRecord st /\
    (forall h, In h sigs ->
       inLog h st' \/ notCreditable (scanVerification' tx w mint h) = true) /\
    exists new,
      c' = credited ++ new /\
      Forall (creditOf PublicKey tx w mint st st') new /\
      NoDup (map fst new) /\
      depositedOf w st' == depositedOf w st + Qsum (map snd new).
Proof.
  induction sigs as [|h sigs IH]; intros i credited already st c' a' st' K H;
    cbn [creditNew] in H.
  - injection H as <- <- <-. split; [left; reflexivity|]. split; [reflexivity|].
    split; [intros h []|]. exists []. rewrite app_nil_r. split; [reflexivity|].
    split; [constructor|]. split; [constructor|]. simpl. lra.
  - destruct (existingTransaction h st) eqn:X.
    { destruct (IH _ _ _ _ _ _ _ K H) as (T & U & Hall & new & E & F & N & D).
      split; [exact T|]. split; [exact U|]. split; [|exists new; auto].
      intros h' [<-|I]; [|apply Hall, I]. left.
      apply (touchesOnly_inLog w st st' h T), existingTransaction_inLog, X. }
    destruct (notCreditable (scanVerification' tx w mint h)) eqn:C.
    { destruct (IH _ _ _ _ _ _ _ K H) as (T & U & Hall & new & E & F & N & D).
      split; [exact T|]. split; [exact U|]. split; [|exists new; auto].
      intros h' [<-|I]; [|apply Hall, I]. right. exact C. }
    destruct (recordDeposit (clock i) w
                (default 0 (Verifier.actualAmount (scanVerification' tx w mint h))) h st)
      as [[doc|e] st1] eqn:R; [|discriminate].
    destruct (recordDeposit_effect _ _ _ _ _ _ _ K R) as (T1 & U1 & _ & Hdoc).
    destruct (Hdoc doc eq_refl) as [L1 D1].
    assert (K1 : wellKeyed st1) by (eapply touchesOnly_wellKeyed; eassumption).
    assert (I1 : inLog h st1) by (eapply recordDeposit_inLog, R).
    destruct (IH _ _ _ _ _ _ _ K1 H) as (T & U & Hall & new & E & F & N & D).
    split; [eapply touchesOnly_trans; eassumption|]. split; [congruence|]. split.
    { intros h' [<-|I]; [|apply Hall, I]. left.
      apply (touchesOnly_inLog w st1 st' h T), I1. }
    unfold notCreditable in C. apply orb_false_iff in C as [Cv Ca].
    apply negb_false_iff in Cv.
    destruct (Verifier.actualAmount (scanVerification' tx w mint h)) as [a|] eqn:A;
      [|discriminate].
    cbn [from_option id] in *.
    exists ((h, a) :: new). split; [rewrite E, <- app_assoc; reflexivity|]. split.
    { constructor.
      - unfold creditOf. cbn [fst snd]. split.
        { destruct (Qlt_le_dec 0 a) as [P|P]; [exact P|].
          apply Qle_bool_iff in P. congruence. }
        split; [intros I; apply existingTransaction_inLog in I; congruence|].
        split; [apply (touchesOnly_inLog w st1 st' h T), I1|]. auto.
      - eapply Forall_impl; [exact F|]. intros p (P & NI & I & V).
        split; [exact P|]. split; [|auto].
        intros I0. apply NI. apply (touchesOnly_inLog w st st1 _ T1), I0. }
    split.
    { cbn [map fst]. constructor; [|exact N]. intros I.
      apply list_elem_of_In, in_map_iff in I as (p & Ep & Ip).
      apply list_elem_of_In in Ip.
      pose proof (proj1 (Forall_forall _ _) F p Ip) as (_ & NI & _).
      apply NI. rewrite Ep. exact I1. }
    assert (E1 : depositedOf w st1 = depositedOf w st + a)
      by (unfold depositedOf at 1; rewrite L1; exact D1).
    cbn [map snd Qsum]. rewrite D, E1. ring.
Qed.

Lemma creditNew_throws clock tx w mint sigs :
  forall i credited already st e st',
    wellKeyed st ->
    creditNew' clock tx w mint i sigs credited already st = (Throw e, st') ->
    exists path, e = ValidationError path.
Proof.
  induction sigs as [|h sigs IH]; intros i credited already st e st' K H;
    cbn [creditNew] in H; [discriminate|].
  destruct (existingTransaction h st); [eapply IH; eassumption|].
  destruct (notCreditable (scanVerification' tx w mint h)); [eapply IH; eassumption|].
  destruct (recordDeposit (clock i) w
              (default 0 (Verifier.actualAmount (scanVerification' tx w mint h))) h st)
    as [[doc|e1] st1] eqn:R;
    destruct (recordDeposit_effect _ _ _ _ _ _ _ K R) as (T1 & _ & Hthrow & _).
  - eapply IH; [|exact H]. eapply touchesOnly_wellKeyed; eassumption.
  - injection H as <- <-. apply (Hthrow e1 eq_refl).
Qed.

Lemma creditNew_nothing clock tx w mint sigs :
  forall i credited already st,
    (forall h, In h sigs ->
       inLog h st \/ notCreditable (scanVerification' tx w mint h) = true) ->
    exists a',
      creditNew' clock tx w mint i sigs credited already st = (Ok (credited, a'), st).
Proof.
  induction sigs as [|h sigs IH]; intros i credited already st Hall; cbn [creditNew].
  - eauto.
  - assert (Hrest : forall h', In h' sigs ->
               inLog h' st \/ notCreditable (scanVerification' tx w mint h') = true)
      by (intros h' I; apply Hall; right; exact I).
    destruct (existingTransaction h st) eqn:X; [apply IH, Hrest|].
    destruct (Hall h (or_introl eq_refl)) as [I|C].
    + apply existingTransaction_inLog in I. congruence.
    + rewrite C. apply IH, Hrest.
Qed.

Lemma ValidationError_no_account path :
  couldNotFindAccount (ValidationError path) = false.
Proof. reflexivity. Qed.

(** The two ways the route answers 200. *)
Lemma postDepositScan_scanned clock MINT sigsOf tx wallet st credited n st' :
  wellKeyed st ->
  postDepositScan' clock MINT sigsOf tx wallet st = (Scanned credited n, st') ->
  let w := default "" wallet in
  let mint := default "" MINT in
  Verifier.truthy wallet = true /\ Verifier.truthy MINT = true /\
  ((exists mintPk walletPk userAta sigs,
      PublicKey mint = Ok mintPk /\ PublicKey w = Ok walletPk /\
      getAssociatedTokenAddress mintPk walletPk = Ok userAta /\
      sigsOf userAta 20%nat = Ok sigs /\
      creditNew' clock tx w mint 0 sigs [] 0 st = (Ok (credited, n), st')) \/
   (exists e, scanTry PublicKey getAssociatedTokenAddress clock sigsOf tx w mint st
              = (Throw e, st) /\
              (forall clock', scanTry PublicKey getAssociatedTokenAddress clock' sigsOf tx
                                w mint st = (Throw e, st)) /\
              couldNotFindAccount e = true /\
              credited = [] /\ n = 0%nat /\ st' = st)).
Proof.
  intros K H w mint. unfold postDepositScan in H.
  destruct (Verifier.truthy wallet); [|discriminate].
  destruct (Verifier.truthy MINT); [|discriminate].
  cbn [negb] in H. fold w mint in H. split; [reflexivity|]. split; [reflexivity|].
  unfold scanTry, bind, lift in *.
  destruct (PublicKey mint) as [mintPk|e] eqn:P1.
  2:{ destruct (couldNotFindAccount e) eqn:C; [|discriminate].
      injection H as <- <- <-. right. exists e. repeat split; auto. }
  destruct (PublicKey w) as [walletPk|e] eqn:P2.
  2:{ destruct (couldNotFindAccount e) eqn:C; [|discriminate].
      injection H as <- <- <-. right. exists e. repeat split; auto. }
  destruct (getAssociatedTokenAddress mintPk walletPk) as [userAta|e] eqn:A.
  2:{ destruct (couldNotFindAccount e) eqn:C; [|discriminate].
      injection H as <- <- <-. right. exists e. repeat split; auto. }
  destruct (sigsOf userAta 20%nat) as [sigs|e] eqn:S.
  2:{ destruct (couldNotFindAccount e) eqn:C; [|discriminate].
      injection H as <- <- <-. right. exists e. repeat split; auto. }
  destruct (creditNew' clock tx w mint 0 sigs [] 0 st) as [[[c' a']|e] st1] eqn:L.
  - injection H as <- <- <-. left. exists mintPk, walletPk, userAta, sigs. auto.
  - destruct (creditNew_throws _ _ _ _ _ _ _ _ _ _ _ K L) as [path ->].
    rewrite ValidationError_no_account in H. discriminate.
Qed.


(** X25. Scanning again credits nothing: after a scan that answered 200,
    a second scan of the same wallet that is given the same signatures
    and transactions answers 200 with an empty list of credits and leaves
    the store as the first scan left it. *)
Theorem postDepositScan_again_credits_nothing :
  forall (clock clock' : nat -> Z) (TOKEN_MINT_ADDRESS : option string)
         (getSignaturesForAddress : string -> nat -> result (list string))
         (getParsedTransaction :
            string -> result (option Verifier.ParsedTransactionWithMeta))
         (walletAddress : option string) (st : Store)
         (credited : list (string * Q)) (alreadyProcessed : nat) (st' : Store),
    wellKeyed st ->
    postDepositScan' clock TOKEN_MINT_ADDRESS getSignaturesForAddress
      getParsedTransaction walletAddress st = (Scanned credited alreadyProcessed, st') ->
    exists alreadyProcessed',
      postDepositScan' clock' TOKEN_MINT_ADDRESS getSignaturesForAddress
        getParsedTransaction walletAddress st' = (Scanned [] alreadyProcessed', st').
Proof.
  intros clock clock' MINT sigsOf tx wallet st credited n st' K H.
  destruct (postDepositScan_scanned _ _ _ _ _ _ _ _ _ K H)
    as (Tw & Tm & [(mintPk & walletPk & userAta & sigs & P1 & P2 & A & S & L)
                  |(e & _ & Hthrow & C & -> & -> & ->)]).
  - destruct (creditNew_ok _ _ _ _ _ _ _ _ _ _ _ _ K L) as (_ & _ & Hall & _).
    destruct (creditNew_nothing clock' tx _ _ sigs 0%nat [] 0%nat st' Hall) as [n' L'].
    exists n'. unfold postDepositScan. rewrite Tw, Tm. cbn [negb].
    unfold scanTry, bind, lift. rewrite P1, P2, A, S, L'. reflexivity.
  - exists 0%nat. unfold postDepositScan. rewrite Tw, Tm. cbn [negb].
    rewrite (Hthrow clock'), C. reflexivity.
Qed.

End WithChainLibrary.

Lemma verifyDepositTransaction_fewer_expectations_witness :
  Verifier.verifyDepositTransaction Verifier.textKey (Ok (Some Verifier.sampleDeposit))
    "W" None None None
  = Verifier.verifyDepositTransaction Verifier.textKey (Ok (Some Verifier.sampleDeposit))
      "W" (Some 10) (Some "MINT") None.
Proof.
  apply (verifyDepositTransaction_fewer_expectations Verifier.textKey).
  - vm_compute. reflexivity.
  - right. reflexivity.
  - right. reflexivity.
  - left. reflexivity.
Defined.

Lemma postDeposit_credits_located_amount_witness :
  exists c d st' doc,
    postDepositRequest Verifier.textKey rejectNaN 0 (Some "MINT")
      (Ok (Some Verifier.sampleDeposit)) sampleRequest emptyStore = (Success c d, st') /\
    recordDeposit 0 "W" 10 "T1" emptyStore = (Ok doc, st').
Proof.
  assert (E : exists c d st',
             postDepositRequest Verifier.textKey rejectNaN 0 (Some "MINT")
               (Ok (Some Verifier.sampleDeposit)) sampleRequest emptyStore
             = (Success c d, st'))
    by (eexists; eexists; eexists; vm_compute; reflexivity).
  destruct E as (c & d & st' & E).
  destruct (postDeposit_credits_located_amount Verifier.textKey rejectNaN
              _ _ _ _ _ _ _ _ E)
    as (wallet & parsed & txHash & transaction & key & locals & doc
        & Hw & Ha & Hh & Hrpc & _ & Hkey & Hloc & _ & _ & _ & _ & _ & Hcredit).
  simpl in Hw, Ha, Hh. injection Hw as <-. injection Ha as <-. injection Hh as <-.
  injection Hrpc as <-. injection Hkey as <-. vm_compute in Hloc. injection Hloc as <-.
  exists c, d, st', doc. split; [exact E|]. apply Hcredit.
Defined.

(** A request whose amount is not a number, for a transaction of 10
    tokens: the 10 tokens are credited. *)
Example postDepositRequest_credits_without_amount :
  exists st' doc,
    postDepositRequest Verifier.textKey rejectNaN 0 (Some "MINT")
      (Ok (Some Verifier.sampleDeposit)) textRequest emptyStore = (Success 10 10, st') /\
    TokenBalance st' !! "W" = Some doc /\ depositedAmount doc = 10.
Proof.
  eexists; eexists. split; [vm_compute; reflexivity|].
  split; [vm_compute; reflexivity|reflexivity].
Qed.

Lemma postDepositPay_success_witness :
  exists c d st',
    postDepositPay Verifier.textKey ataText rejectNaN 0 (Some "MINT") (Some "TREASURY")
      (Ok (Some samplePayment)) sampleRequest emptyStore = (PaySuccess c d, st') /\
    inLog "T1" st'.
Proof.
  assert (E : exists c d st',
             postDepositPay Verifier.textKey ataText rejectNaN 0 (Some "MINT")
               (Some "TREASURY") (Ok (Some samplePayment)) sampleRequest emptyStore
             = (PaySuccess c d, st'))
    by (eexists; eexists; eexists; vm_compute; reflexivity).
  destruct E as (c & d & st' & E). exists c, d, st'. split; [exact E|].
  destruct (postDepositPay_success Verifier.textKey ataText rejectNaN
              _ _ _ _ _ _ _ _ _ E)
    as (wallet & amount & txHash & mint & treasury & ata & transaction & key & locals
        & doc & _ & _ & Hh & _ & _ & _ & _ & _ & _ & _ & _ & _ & _ & _ & _ & I & _).
  simpl in Hh. injection Hh as <-. exact I.
Defined.

(** The same payment of 10 tokens, requested with an amount that is not
    a number, is credited as well. *)
Example postDepositPay_credits_without_amount :
  exists c d st',
    postDepositPay Verifier.textKey ataText rejectNaN 0 (Some "MINT") (Some "TREASURY")
      (Ok (Some samplePayment)) textRequest emptyStore = (PaySuccess c d, st') /\
    c == 10 /\ d == 10.
Proof.
  eexists; eexists; eexists. split; [vm_compute; reflexivity|]. split; reflexivity.
Qed.


Lemma postDepositScan_again_credits_nothing_witness :
  exists n',
    postDepositScan Verifier.textKey ataText (fun _ => 5%Z) (Some "MINT")
      (fun _ _ => Ok ["S1"; "S1"]) (fun _ => Ok (Some Verifier.sampleDeposit))
      (Some "W")
      (snd (postDepositScan Verifier.textKey ataText (fun _ => 0%Z) (Some "MINT")
              (fun _ _ => Ok ["S1"; "S1"]) (fun _ => Ok (Some Verifier.sampleDeposit))
              (Some "W") emptyStore))
    = (Scanned [] n',
       snd (postDepositScan Verifier.textKey ataText (fun _ => 0%Z) (Some "MINT")
              (fun _ _ => Ok ["S1"; "S1"]) (fun _ => Ok (Some Verifier.sampleDeposit))
              (Some "W") emptyStore)).
Proof.
  assert (E : exists credited n,
             postDepositScan Verifier.textKey ataText (fun _ => 0%Z) (Some "MINT")
               (fun _ _ => Ok ["S1"; "S1"]) (fun _ => Ok (Some Verifier.sampleDeposit))
               (Some "W") emptyStore
             = (Scanned credited n,
                snd (postDepositScan Verifier.textKey ataText (fun _ => 0%Z)
                       (Some "MINT") (fun _ _ => Ok ["S1"; "S1"])
                       (fun _ => Ok (Some Verifier.sampleDeposit)) (Some "W")
                       emptyStore)))
    by (eexists; eexists; vm_compute; reflexivity).
  destruct E as (credited & n & E).
  exact (postDepositScan_again_credits_nothing Verifier.textKey ataText _ (fun _ => 5%Z)
           _ _ _ _ _ _ _ _ emptyStore_wellKeyed E).
Defined.

End DepositRouteFacts.


(** * Properties on which rounding bears *)

Section Binary64Facts.

Import Binary64.

(** On every pair of the sample operands, rounding a decimal literal and
    the four operations give the double that the Standard Library's
    specification of IEEE 754 binary64 gives. *)
Lemma agrees_with_SpecFloat :
  forallb (fun x => forallb (agreesAt x) sampleOperands) sampleOperands = true.
Proof. vm_compute. reflexivity. Qed.

End Binary64Facts.

(** ** The TWAP in binary64 *)

Section PriceOracle64Facts.

Import PriceOracle.

Lemma reduce_sum64_sum {A} (f : A -> Q) (l : list A) :
  Binary64.reduce_sum f l = Binary64.sum (map f l).
Proof.
  unfold Binary64.reduce_sum, Binary64.sum. generalize 0.
  induction l as [|x l IH]; intros acc; [reflexivity|]. simpl. apply IH.
Qed.

Lemma getTWAPPrice64_in_window now o :
  List.filter (inWindow now o) (priceCache o) <> [] ->
  PriceOracle64.getTWAPPrice now o
  = Ok (PriceOracle64.mean (map price (List.filter (inWindow now o) (priceCache o)))).
Proof.
  intros H. unfold PriceOracle64.getTWAPPrice, PriceOracle64.mean.
  destruct (priceCache o) as [|x l] eqn:E; [contradiction|].
  rewrite <- E in *. assert (L : (length (priceCache o) =? 0)%nat = false)
    by (rewrite E; reflexivity).
  rewrite L.
  destruct (List.filter (inWindow now o) (priceCache o)) as [|y r] eqn:F;
    [contradiction|].
  cbn [length Nat.eqb]. rewrite reduce_sum64_sum, length_map. reflexivity.
Qed.

Lemma getTWAPPrice64_out_of_window now o e :
  last (priceCache o) = Some e ->
  List.filter (inWindow now o) (priceCache o) = [] ->
  PriceOracle64.getTWAPPrice now o = Ok (price e).
Proof.
  intros L F. unfold PriceOracle64.getTWAPPrice. rewrite F, L.
  destruct (priceCache o); [discriminate|]. reflexivity.
Qed.

Lemma getTWAPPrice64_nonempty now o :
  priceCache o <> [] -> exists p, PriceOracle64.getTWAPPrice now o = Ok p.
Proof.
  intros H.
  destruct (List.filter (inWindow now o) (priceCache o)) as [|y r] eqn:F.
  - destruct (last (priceCache o)) as [z|] eqn:L.
    + exists (price z). apply getTWAPPrice64_out_of_window; assumption.
    + apply last_None in L. contradiction.
  - eexists. apply getTWAPPrice64_in_window. rewrite F. discriminate.
Qed.

Lemma threeSamples_in_window now t0 :
  (now - t0 <= 600000)%Z ->
  List.filter (inWindow now (defaultService (PriceOracle64.threeSamples t0)))
    (PriceOracle64.threeSamples t0) = PriceOracle64.threeSamples t0.
Proof.
  intros Ht. unfold PriceOracle64.threeSamples, inWindow, windowMs.
  cbn [List.filter timestamp twapWindowMinutes defaultService].
  repeat match goal with
         | |- context [(?a <=? ?b)%Z] =>
             let E := fresh in destruct (Z.leb_spec a b) as [E|E]; [|lia]
         end.
  reflexivity.
Qed.

(** C7, as amended. [getTWAPPrice] fails exactly when the cache is empty;
    otherwise it returns the arithmetic mean of the cached samples whose
    age is at most the TWAP window, as double arithmetic computes it (the
    sum accumulated from 0 in cache order, divided by the count), or,
    when no sample is that young, the price of the last cached sample.
    With the samples 1.00, 1.10 and 1.20 inside the default window of 10
    minutes the result is 1.0999999999999999, the double next below
    1.1. *)
Theorem getTWAPPrice64_spec :
  forall (now : Z) (o : PriceOracleService),
    let relevant := List.filter (inWindow now o) (priceCache o) in
    (priceCache o = [] <-> exists e, PriceOracle64.getTWAPPrice now o = Throw e) /\
    (relevant <> [] ->
       PriceOracle64.getTWAPPrice now o
       = Ok (Binary64.div (Binary64.sum (map price relevant))
               (inject_Z (Z.of_nat (length relevant))))) /\
    (forall e, last (priceCache o) = Some e -> relevant = [] ->
       PriceOracle64.getTWAPPrice now o = Ok (price e)) /\
    (forall e, In e (priceCache o) ->
       (In e relevant <-> (now - timestamp e <= twapWindowMinutes o * 60 * 1000)%Z)) /\
    (forall t0, (now - t0 <= 600000)%Z ->
       PriceOracle64.getTWAPPrice now (defaultService (PriceOracle64.threeSamples t0))
       = Ok (4953959590107545 # 4503599627370496) /\
       Binary64.round64 (11 # 10) - (4953959590107545 # 4503599627370496)
       == 1 # 4503599627370496).
Proof.
  intros now o relevant. split; [|split; [|split; [|split]]].
  - split.
    + intros H. exists NoPriceData. unfold PriceOracle64.getTWAPPrice. rewrite H.
      reflexivity.
    + intros [e He]. destruct (priceCache o) as [|x l] eqn:E; [reflexivity|].
      destruct (getTWAPPrice64_nonempty now o) as [p Hp]; congruence.
  - intros H. rewrite (getTWAPPrice64_in_window now o H). unfold PriceOracle64.mean.
    rewrite length_map. reflexivity.
  - intros e HL HF. apply getTWAPPrice64_out_of_window; assumption.
  - intros e He. subst relevant. split.
    + intros H. apply filter_In in H as [_ H]. unfold inWindow, windowMs in H. lia.
    + intros H. apply filter_In. split; [assumption|]. unfold inWindow, windowMs. lia.
  - intros t0 Ht. split; [|vm_compute; reflexivity].
    pose proof (threeSamples_in_window now t0 Ht) as F.
    rewrite getTWAPPrice64_in_window;
      change (priceCache (defaultService (PriceOracle64.threeSamples t0)))
        with (PriceOracle64.threeSamples t0);
      rewrite F; [|discriminate].
    vm_compute. reflexivity.
Qed.

Lemma getTWAPPrice64_spec_witness :
  PriceOracle64.getTWAPPrice 1000000
    {| priceCache := [ {| price := 2; timestamp := 999000 |};
                       {| price := 4; timestamp := 0 |} ];
       twapWindowMinutes := 10; burnFloor := 5 # 100; burnCeiling := 50 |}
  = Ok (Binary64.div (Binary64.sum [2]) 1).
Proof.
  apply (getTWAPPrice64_spec 1000000
           {| priceCache := [ {| price := 2; timestamp := 999000 |};
                              {| price := 4; timestamp := 0 |} ];
              twapWindowMinutes := 10; burnFloor := 5 # 100; burnCeiling := 50 |}).
  simpl. discriminate.
Defined.

(** The specification's example, as stated, fails: two minutes after
    the first of the samples 1.00, 1.10 and 1.20 the TWAP is below 1.10,
    hence also below the double that 1.10 denotes, which is above
    1.10. *)
Lemma getTWAPPrice_example_is_not_1_10 :
  exists p,
    PriceOracle64.getTWAPPrice 120000 (defaultService (PriceOracle64.threeSamples 0))
    = Ok p /\
    p < 11 # 10 /\ 11 # 10 < Binary64.round64 (11 # 10).
Proof.
  eexists. split; [vm_compute; reflexivity|]. split; reflexivity.
Qed.

End PriceOracle64Facts.

(** ** The balance tracker in binary64 *)

Section Ledger64Facts.

Import Ledger.

Lemma storeNonNegative_insert st w doc :
  Ledger64.storeNonNegative st -> 0 <= currentBalance doc ->
  Ledger64.storeNonNegative (setTokenBalance (<[w := doc]> (TokenBalance st)) st).
Proof.
  intros Hst Hdoc w' doc'. simpl. rewrite lookup_insert.
  case_decide; [intros [= <-]; exact Hdoc | apply Hst].
Qed.

(** [save] writes only what the validators let through, and they let no
    negative balance through. *)
Lemma save_nonNegative now doc st r st' :
  Ledger64.storeNonNegative st -> save now doc st = (r, st') ->
  Ledger64.storeNonNegative st' /\ (forall saved, r = Ok saved -> 0 <= currentBalance saved).
Proof.
  intros Hst H.
  destruct (save_cases now doc st) as [[Hv G]|[path G]]; rewrite G in H;
    injection H as <- <-.
  - apply validateTokenBalance_ok in Hv as (_ & _ & _ & Hpos).
    split; [apply storeNonNegative_insert; assumption|]. intros ? [= <-]. exact Hpos.
  - split; [assumption|discriminate].
Qed.

Lemma getBalance_nonNegative now w st r st' :
  Ledger64.storeNonNegative st -> getBalance now w st = (r, st') ->
  Ledger64.storeNonNegative st' /\ (forall doc, r = Ok doc -> 0 <= currentBalance doc).
Proof.
  intros Hst H.
  destruct (getBalance_cases now w st) as [(doc & E & G)|[(E & Hw & G)|(E & Hw & G)]];
    rewrite G in H; injection H as <- <-.
  - split; [assumption|]. intros ? [= <-]. eapply Hst, E.
  - split; [apply storeNonNegative_insert; [assumption|simpl; lra]|].
    intros ? [= <-]. simpl. lra.
  - split; [assumption|discriminate].
Qed.

Lemma runOp64_nonNegative op st :
  Ledger64.storeNonNegative st -> Ledger64.storeNonNegative (Ledger64.runOp op st).
Proof.
  intros Hst. destruct op as [now w|now w amount txHash|now oracle w amount rt usd]; simpl.
  - destruct (getBalance now w st) as [r st'] eqn:E.
    apply getBalance_nonNegative in E as [H _]; assumption.
  - unfold Ledger64.recordDeposit, bind.
    destruct (getBalance now w st) as [[doc|e] st1] eqn:G;
      apply (getBalance_nonNegative _ _ _ _ _ Hst) in G as [H1 _]; [|exact H1].
    match goal with |- Ledger64.storeNonNegative (snd ?c) => destruct c as [r st2] eqn:S end.
    apply (save_nonNegative _ _ _ _ _ H1) in S as [H2 _]. exact H2.
  - unfold Ledger64.deductTokens, bind.
    destruct (getBalance now w st) as [[doc|e] st1] eqn:G;
      apply (getBalance_nonNegative _ _ _ _ _ Hst) in G as [H1 _]; [|exact H1].
    destruct (Qltb (currentBalance doc) amount); [exact H1|].
    match goal with |- context [save now ?d st1] =>
      destruct (save now d st1) as [[saved|e] st2] eqn:S;
      apply (save_nonNegative _ _ _ _ _ H1) in S as [H2 _]
    end; [|exact H2].
    unfold lift, throw, ret.
    destruct (PriceOracle64.getTWAPPrice now oracle) as [p|e]; [|exact H2].
    destruct (create now w rt usd p amount false st2) as [[u|e] st3] eqn:C;
      apply create_TokenBalance in C; simpl; intros w' d'; rewrite C; apply H2.
Qed.

Lemma runOps64_nonNegative ops st :
  Ledger64.storeNonNegative st -> Ledger64.storeNonNegative (Ledger64.runOps ops st).
Proof.
  revert st. induction ops as [|op ops IH]; intros st Hst; simpl; [assumption|].
  apply IH, runOp64_nonNegative, Hst.
Qed.

(** An operation that rounds nothing keeps the balance equation. *)
Lemma runOp64_balanced op st :
  storeBalanced st -> Ledger64.exactOp op st -> storeBalanced (Ledger64.runOp op st).
Proof.
  intros Hst Hex.
  destruct op as [now w|now w amount txHash|now oracle w amount rt usd]; simpl in *.
  - destruct (getBalance now w st) as [r st'] eqn:E.
    apply getBalance_balanced in E as [H _]; assumption.
  - unfold Ledger64.recordDeposit, bind.
    destruct (getBalance now w st) as [[doc|e] st1] eqn:G.
    2:{ apply getBalance_balanced in G as [H1 _]; assumption. }
    destruct (Hex doc st1 eq_refl) as [Ed Ec].
    apply getBalance_balanced in G as [H1 Hdoc]; [|assumption].
    destruct (Hdoc doc eq_refl) as [Heq _].
    match goal with |- storeBalanced (snd ?c) => destruct c as [r st2] eqn:S end.
    eapply save_balanced in S; [apply S|assumption|]. simpl. lra.
  - unfold Ledger64.deductTokens, bind.
    destruct (getBalance now w st) as [[doc|e] st1] eqn:G.
    2:{ apply getBalance_balanced in G as [H1 _]; assumption. }
    destruct (Hex doc st1 eq_refl) as [Econs Ec].
    apply getBalance_balanced in G as [H1 Hdoc]; [|assumption].
    destruct (Hdoc doc eq_refl) as [Heq _].
    destruct (Qltb (currentBalance doc) amount); [exact H1|].
    match goal with |- context [save now ?d st1] =>
      assert (Hd : currentBalance d == depositedAmount d - consumedAmount d)
        by (simpl; lra);
      destruct (save now d st1) as [[saved|e] st2] eqn:S;
      apply (save_balanced _ _ _ _ _ H1 Hd) in S as [H2 _]
    end; [|exact H2].
    unfold lift, throw, ret.
    destruct (PriceOracle64.getTWAPPrice now oracle) as [p|e]; [|exact H2].
    destruct (create now w rt usd p amount false st2) as [[u|e] st3] eqn:C;
      apply create_TokenBalance in C; simpl; intros w' d'; rewrite C; apply H2.
Qed.

Lemma runOps64_balanced ops st :
  storeBalanced st -> Ledger64.exactRun ops st -> storeBalanced (Ledger64.runOps ops st).
Proof.
  revert st. induction ops as [|op ops IH]; intros st Hst Hex; simpl; [assumption|].
  destruct Hex as [H1 H2]. apply IH; [apply runOp64_balanced; assumption|exact H2].
Qed.

(** What a completed deposit and a completed debit write. *)
Lemma recordDeposit64_writes now w amount txHash st doc st' :
  Ledger64.recordDeposit now w amount txHash st = (Ok doc, st') ->
  exists old st1,
    getBalance now w st = (Ok old, st1) /\
    depositedAmount doc = Binary64.add (depositedAmount old) amount /\
    consumedAmount doc = consumedAmount old /\
    currentBalance doc = Binary64.add (currentBalance old) amount /\
    TokenBalance st' = <[walletAddress old := doc]> (TokenBalance st1).
Proof.
  intros H. unfold Ledger64.recordDeposit, bind in H.
  destruct (getBalance now w st) as [[old|e] st1] eqn:G; [|discriminate].
  exists old, st1. split; [reflexivity|].
  match type of H with save now ?d st1 = _ =>
    destruct (save_cases now d st1) as [[_ E]|[path E]]; rewrite E in H
  end; [|discriminate].
  injection H as <- <-. simpl. auto.
Qed.

Lemma deductTokens64_writes now oracle w amount rt usd st doc st' :
  Ledger64.deductTokens now oracle w amount rt usd st = (Ok doc, st') ->
  exists old st1,
    getBalance now w st = (Ok old, st1) /\
    amount <= currentBalance old /\
    depositedAmount doc = depositedAmount old /\
    consumedAmount doc = Binary64.add (consumedAmount old) amount /\
    currentBalance doc = Binary64.sub (currentBalance old) amount /\
    TokenBalance st' = <[walletAddress old := doc]> (TokenBalance st1) /\
    length (UsageRecord st') = S (length (UsageRecord st)).
Proof.
  intros H. unfold Ledger64.deductTokens, bind in H.
  destruct (getBalance now w st) as [[old|e] st1] eqn:G; [|discriminate].
  exists old, st1. split; [reflexivity|].
  assert (U1 : UsageRecord st1 = UsageRecord st).
  { destruct (getBalance_cases now w st) as [(d & _ & E)|[(_ & _ & E)|(_ & _ & E)]];
      rewrite E in G; try discriminate; injection G as <- <-; reflexivity. }
  destruct (Qltb (currentBalance old) amount) eqn:Lt; [discriminate|].
  apply Qltb_ge in Lt. split; [exact Lt|].
  match type of H with context [save now ?d st1] =>
    destruct (save_cases now d st1) as [[_ E]|[path E]]; rewrite E in H
  end; [|discriminate].
  unfold lift, ret in H.
  destruct (PriceOracle64.getTWAPPrice now oracle) as [p|e]; [|discriminate].
  match type of H with context [create ?a ?b ?c ?d ?e ?f ?g ?s] =>
    unfold create in H; destruct (validateUsageRecord _); [|discriminate]
  end.
  injection H as <- <-. simpl. rewrite U1, length_app. simpl.
  repeat split; try reflexivity. lia.
Qed.

(** C1, as amended. The three amounts of a wallet are kept in double
    arithmetic: a completed deposit adds the amount to depositedAmount
    and to currentBalance, a completed debit adds it to consumedAmount
    and subtracts it from currentBalance, each result rounded on its own.
    Whatever sequence of [getBalance], [recordDeposit] and [deductTokens]
    calls has run, no currentBalance is negative; currentBalance =
    depositedAmount - consumedAmount holds after every sequence none of
    whose additions and subtractions was rounded; a wallet document that
    [getBalance] creates has its three amounts equal to zero. *)
Theorem balance_invariant64 :
  forall (ops : list Op),
    Ledger64.storeNonNegative (Ledger64.runOps ops emptyStore) /\
    (forall st, Ledger64.storeNonNegative st ->
                Ledger64.storeNonNegative (Ledger64.runOps ops st)) /\
    (forall now w doc st',
        getBalance now w (Ledger64.runOps ops emptyStore) = (Ok doc, st') ->
        0 <= currentBalance doc) /\
    (forall st, storeBalanced st -> Ledger64.exactRun ops st ->
                storeBalanced (Ledger64.runOps ops st)) /\
    (Ledger64.exactRun ops emptyStore ->
     forall now w doc st',
       getBalance now w (Ledger64.runOps ops emptyStore) = (Ok doc, st') ->
       currentBalance doc == depositedAmount doc - consumedAmount doc) /\
    (forall now w amount txHash st doc st',
        Ledger64.recordDeposit now w amount txHash st = (Ok doc, st') ->
        exists old st1,
          getBalance now w st = (Ok old, st1) /\
          depositedAmount doc = Binary64.add (depositedAmount old) amount /\
          consumedAmount doc = consumedAmount old /\
          currentBalance doc = Binary64.add (currentBalance old) amount) /\
    (forall now oracle w amount rt usd st doc st',
        Ledger64.deductTokens now oracle w amount rt usd st = (Ok doc, st') ->
        exists old st1,
          getBalance now w st = (Ok old, st1) /\
          amount <= currentBalance old /\
          depositedAmount doc = depositedAmount old /\
          consumedAmount doc = Binary64.add (consumedAmount old) amount /\
          currentBalance doc = Binary64.sub (currentBalance old) amount) /\
    (forall now w st doc st',
        TokenBalance st !! w = None ->
        getBalance now w st = (Ok doc, st') ->
        depositedAmount doc = 0 /\ consumedAmount doc = 0 /\ currentBalance doc = 0 /\
        transactions doc = [] /\ TokenBalance st' !! w = Some doc).
Proof.
  intros ops.
  assert (E0 : Ledger64.storeNonNegative emptyStore).
  { intros w doc. simpl. rewrite lookup_empty. discriminate. }
  split; [apply runOps64_nonNegative, E0|]. split; [intros st; apply runOps64_nonNegative|].
  split.
  { intros now w doc st' H. apply getBalance_nonNegative in H as [_ H].
    - apply H. reflexivity.
    - apply runOps64_nonNegative, E0. }
  split; [intros st; apply runOps64_balanced|]. split.
  { intros Hex now w doc st' H. apply getBalance_balanced in H as [_ H].
    - apply H. reflexivity.
    - apply runOps64_balanced; [apply emptyStore_balanced|exact Hex]. }
  split.
  { intros now w amount txHash st doc st' H.
    destruct (recordDeposit64_writes _ _ _ _ _ _ _ H) as (old & st1 & G & D & C & B & _).
    exists old, st1. auto. }
  split.
  { intros now oracle w amount rt usd st doc st' H.
    destruct (deductTokens64_writes _ _ _ _ _ _ _ _ _ H)
      as (old & st1 & G & L & D & C & B & _).
    exists old, st1. auto. }
  intros now w st doc st' Hnone H.
  destruct (getBalance_cases now w st) as [(d & E & G)|[(E & Hw & G)|(E & Hw & G)]];
    rewrite G in H; [congruence| |discriminate].
  injection H as <- <-. simpl. rewrite lookup_insert_eq. auto.
Qed.

Lemma balance_invariant64_witness :
  storeBalanced (Ledger64.runOps Ledger64.dyadicOps emptyStore) /\
  length (UsageRecord (Ledger64.runOps Ledger64.dyadicOps emptyStore)) = 2%nat.
Proof.
  split; [|vm_compute; reflexivity].
  destruct (balance_invariant64 Ledger64.dyadicOps) as (_ & _ & _ & H & _).
  apply H; [apply emptyStore_balanced|].
  unfold Ledger64.dyadicOps. cbn [Ledger64.exactRun Ledger64.exactOp].
  split; [|split; [|split; [|exact I]]];
    intros balance st1 G; vm_compute in G; injection G as <- <-;
    split; vm_compute; reflexivity.
Defined.

(** The balance equation, as stated, fails: after a deposit of 1 and
    debits of 0.1 and 0.3, all completed, wallet W holds
    depositedAmount 1, consumedAmount 0.4 and currentBalance
    0.6000000000000001, which is neither 1 - 0.4 computed exactly nor
    1 - 0.4 computed in doubles. *)
Lemma balance_equation_fails_in_doubles :
  exists doc,
    TokenBalance (Ledger64.runOps Ledger64.roundedOps emptyStore) !! "W" = Some doc /\
    length (transactions doc) = 3%nat /\
    length (UsageRecord (Ledger64.runOps Ledger64.roundedOps emptyStore)) = 2%nat /\
    depositedAmount doc == 1 /\
    consumedAmount doc == Binary64.round64 (4 # 10) /\
    currentBalance doc == 1351079888211149 # 2251799813685248 /\
    ~ currentBalance doc == depositedAmount doc - consumedAmount doc /\
    ~ currentBalance doc == Binary64.sub (depositedAmount doc) (consumedAmount doc).
Proof.
  eexists. split; [vm_compute; reflexivity|].
  repeat split; try (vm_compute; reflexivity); vm_compute; discriminate.
Qed.

End Ledger64Facts.

(** ** The settlement run in binary64 *)

Section Settlement64Facts.

Import Ledger Settlement.

Lemma markOne_marks ids txHash (records : list IUsageRecord) :
  Settlement64.marks ids txHash records (map (markOne ids txHash) records).
Proof.
  unfold Settlement64.marks.
  induction records as [|r records IH]; simpl; constructor; [|exact IH].
  unfold markOne. destruct (existsb (Nat.eqb (_id r)) ids) eqn:E.
  - split.
    + intros _. unfold Settlement64.settledUnder, settledWith. simpl.
      repeat split; reflexivity.
    + intros H. exfalso. apply H, existsb_eqb_In, E.
  - split; [|reflexivity]. intros H. apply existsb_eqb_In in H. congruence.
Qed.

Section WithChainLibrary.

Variable PublicKey : string -> result string.
Variable getAssociatedTokenAddress : string -> string -> result string.

Abbreviation executeBatchSettlement64 :=
  (Settlement64.executeBatchSettlement PublicKey getAssociatedTokenAddress).

(** The inner [try] either throws before anything was submitted, or
    submits one transaction. *)
Lemma onChainTry64_cases env mint treasury backend burnAmount treasuryAmount w :
  (exists e, Settlement64.onChainTry getAssociatedTokenAddress env mint treasury backend
               burnAmount treasuryAmount w = (Throw e, w)) \/
  (exists backendAccount treasuryAccount blockhash sig,
      getAssociatedTokenAddress mint backend = Ok backendAccount /\
      getAssociatedTokenAddress mint treasury = Ok treasuryAccount /\
      latestBlockhash env = Ok blockhash /\
      sendAndConfirm env = Ok sig /\
      Settlement64.onChainTry getAssociatedTokenAddress env mint treasury backend
        burnAmount treasuryAmount w
      = (Ok sig,
         addEvent
           (Submit {| signature := sig;
                      tx_instructions :=
                        Settlement64.instructionsFor backendAccount mint treasuryAccount
                          backend burnAmount treasuryAmount
                          (Settlement64.tokenDecimalsOf env);
                      recentBlockhash := blockhash;
                      feePayer := backend |}) w)).
Proof.
  unfold Settlement64.onChainTry, bind, lift, ret, throw, emit.
  destruct (getAssociatedTokenAddress mint backend) as [ba|e]; [|left; eauto].
  destruct (getAssociatedTokenAddress mint treasury) as [ta|e]; [|left; eauto].
  destruct (backendAccountAmount env) as [amount|e]; [|left; eauto].
  destruct (Qltb _ (Binary64.add burnAmount treasuryAmount)); [left; eauto|].
  destruct (latestBlockhash env) as [blockhash|e]; [|left; eauto].
  destruct (sendAndConfirm env) as [sig|e]; [|left; eauto].
  right. exists ba, ta, blockhash, sig. auto.
Qed.

(** C4, as amended. A run of [executeBatchSettlement] that finds a
    non-empty batch ends in one of three ways, the in-progress flag
    cleared and no wallet touched in each.  It throws before any
    transaction is confirmed, and no record has changed.  Or one
    transaction is confirmed, paid by the backend, in which the burn and
    the transfer to the treasury are each the floor, in base units, of
    half the sum of the fetched records' tokensBurned as double
    arithmetic accumulates it (no instruction when that half is not
    positive); then either the bulk update succeeds, the run returns and
    exactly the fetched ids are settled under that transaction's
    signature, nothing else of any record changed; or the bulk update
    fails, its error is propagated, and exactly the fetched records the
    store had written by then are settled under the signature. *)
Theorem executeBatchSettlement64_outcomes :
  forall (env : Env) (w : World) (r : result unit) (w' : World),
    isSettling (service w) = false ->
    let fetched := take 100 (sortByTimestamp (unsettled (UsageRecord (store w)))) in
    let ids := map _id fetched in
    let half := Binary64.div (Binary64.sum (map tokensBurned fetched)) 2 in
    fetched <> [] ->
    executeBatchSettlement64 env w = (r, w') ->
    isSettling (service w') = false /\
    TokenBalance (store w') = TokenBalance (store w) /\
    ((exists e, r = Throw e /\ store w' = store w /\ trace w' = trace w ++ [Find 100]) \/
     (exists backend mint treasury backendAccount treasuryAccount blockhash sig,
        backendWallet (service w) = Some backend /\
        PublicKey (tokenMintAddress (service w)) = Ok mint /\
        PublicKey (treasuryWalletAddress (service w)) = Ok treasury /\
        getAssociatedTokenAddress mint backend = Ok backendAccount /\
        getAssociatedTokenAddress mint treasury = Ok treasuryAccount /\
        latestBlockhash (chainEnv env) = Ok blockhash /\
        sendAndConfirm (chainEnv env) = Ok sig /\
        let decimals := Settlement64.tokenDecimalsOf (chainEnv env) in
        let units := Qfloor (Binary64.mul half (Binary64.pow10 decimals)) in
        let tx :=
          {| signature := sig;
             tx_instructions :=
               if Qgtb half 0
               then [ BurnChecked backendAccount mint backend units decimals;
                      TransferChecked backendAccount mint treasuryAccount backend
                        units decimals ]
               else [];
             recentBlockhash := blockhash;
             feePayer := backend |} in
        trace w' = trace w ++ [Find 100; Submit tx; UpdateMany ids sig] /\
        ((r = Ok tt /\ updateError env = None /\
          Settlement64.marks ids sig (UsageRecord (store w)) (UsageRecord (store w'))) \/
         (exists e written,
            r = Throw e /\ updateError env = Some (e, written) /\
            Settlement64.marks
              (List.filter (fun i => existsb (Nat.eqb i) ids) written) sig
              (UsageRecord (store w)) (UsageRecord (store w')))))).
Proof.
  intros env w r w' Hflag fetched ids half Hne H.
  unfold Settlement64.executeBatchSettlement in H. rewrite Hflag in H.
  unfold Settlement64.settlementTry, bind in H.
  destruct (findError env) as [e|].
  { rewrite awaitUnsettledRecords_error in H. injection H as <- <-. simpl.
    split; [reflexivity|]. split; [reflexivity|]. left. exists e. auto. }
  rewrite awaitUnsettledRecords_ok in H.
  cbn [store addEvent setSettling service] in H. fold fetched in H.
  assert (Hlen : (length fetched =? 0)%nat = false).
  { destruct fetched; [congruence|reflexivity]. }
  rewrite Hlen, reduce_sum64_sum in H. fold half ids in H.
  unfold Settlement64.executeOnChainSettlement in H.
  cbn [service setSettling addEvent backendWallet tokenMintAddress
         treasuryWalletAddress] in H.
  match goal with |- ?G =>
    assert (Early : forall e, r = Throw e ->
              w' = setSettling false (addEvent (Find 100) (setSettling true w)) -> G)
  end.
  { intros e -> ->. simpl. split; [reflexivity|]. split; [reflexivity|].
    left. exists e. auto. }
  destruct (backendWallet (service w)) as [backend|] eqn:B;
    [|injection H as <- <-; eapply Early; reflexivity].
  destruct (String.eqb (tokenMintAddress (service w)) "");
    [injection H as <- <-; eapply Early; reflexivity|].
  destruct (String.eqb (treasuryWalletAddress (service w)) "");
    [injection H as <- <-; eapply Early; reflexivity|].
  destruct (PublicKey (tokenMintAddress (service w))) as [mint|e] eqn:Pm;
    [|injection H as <- <-; eapply Early; reflexivity].
  destruct (PublicKey (treasuryWalletAddress (service w))) as [treasury|e] eqn:Pt;
    [|injection H as <- <-; eapply Early; reflexivity].
  match type of H with context [Settlement64.onChainTry _ ?c ?m ?t ?b ?x ?y ?v] =>
    destruct (onChainTry64_cases c m t b x y v)
      as [[e Hc]|(ba & ta & blockhash & sig & Hba & Hta & Hbh & Hs & Hc)];
      rewrite Hc in H
  end.
  { injection H as <- <-. eapply Early; reflexivity. }
  clear Early. unfold awaitMarkAsSettled, bind, emit, onStore, throw in H.
  cbn [store addEvent setSettling service trace] in H.
  assert (Hi : Settlement64.instructionsFor ba mint ta backend half half
                 (Settlement64.tokenDecimalsOf (chainEnv env))
               = if Qgtb half 0
                 then [ BurnChecked ba mint backend
                          (Qfloor (Binary64.mul half
                             (Binary64.pow10
                                (Settlement64.tokenDecimalsOf (chainEnv env)))))
                          (Settlement64.tokenDecimalsOf (chainEnv env));
                        TransferChecked ba mint ta backend
                          (Qfloor (Binary64.mul half
                             (Binary64.pow10
                                (Settlement64.tokenDecimalsOf (chainEnv env)))))
                          (Settlement64.tokenDecimalsOf (chainEnv env)) ]
                 else []).
  { unfold Settlement64.instructionsFor, Settlement64.toBaseUnits.
    destruct (Qgtb half 0); reflexivity. }
  rewrite Hi in H.
  destruct (updateError env) as [[e written]|] eqn:U.
  - unfold Ledger.markAsSettled in H. cbn in H. injection H as <- <-.
    cbn [service setSettling isSettling store TokenBalance UsageRecord trace].
    split; [reflexivity|]. split; [reflexivity|]. right.
    exists backend, mint, treasury, ba, ta, blockhash, sig.
    repeat (split; [first [reflexivity|assumption]|]).
    cbv zeta. split; [rewrite <- !app_assoc; reflexivity|].
    right. exists e, written. split; [reflexivity|]. split; [reflexivity|].
    apply markOne_marks.
  - unfold Ledger.markAsSettled in H. cbn in H. injection H as <- <-.
    cbn [service setSettling isSettling store TokenBalance UsageRecord trace].
    split; [reflexivity|]. split; [reflexivity|]. right.
    exists backend, mint, treasury, ba, ta, blockhash, sig.
    repeat (split; [first [reflexivity|assumption]|]).
    cbv zeta. split; [rewrite <- !app_assoc; reflexivity|].
    left. split; [reflexivity|]. split; [reflexivity|]. apply markOne_marks.
Qed.

End WithChainLibrary.

Lemma executeBatchSettlement64_outcomes_witness :
  let res := Settlement64.executeBatchSettlement Verifier.textKey ataOf
               goodEnv (worldOf (unitRecords 100)) in
  isSettling (service (snd res)) = false /\
  TokenBalance (store (snd res)) = TokenBalance (store (worldOf (unitRecords 100))).
Proof.
  destruct (executeBatchSettlement64_outcomes Verifier.textKey ataOf
              goodEnv (worldOf (unitRecords 100))
              (fst (Settlement64.executeBatchSettlement Verifier.textKey ataOf
                      goodEnv (worldOf (unitRecords 100))))
              (snd (Settlement64.executeBatchSettlement Verifier.textKey ataOf
                      goodEnv (worldOf (unitRecords 100)))))
    as (F & T & _).
  - reflexivity.
  - vm_compute. discriminate.
  - apply surjective_pairing.
  - split; [exact F|exact T].
Defined.

(** "Never a partial mark", as stated, fails: with two fetched records
    and a bulk update that fails after the store has written the first,
    the run throws the update's error although a transaction was
    confirmed, record 0 is settled under its signature and record 1 is
    not. *)
Lemma settlement_partial_mark :
  let res := Settlement64.executeBatchSettlement Verifier.textKey ataOf
               Settlement64.halfWayEnv Settlement64.twoRecords in
  fst res = Throw (External "connection lost") /\
  map (fun r => (_id r, settled r, ur_txHash r)) (UsageRecord (store (snd res)))
  = [ (0%nat, true, Some "SIG"); (1%nat, false, None) ] /\
  trace (snd res)
  = [ Find 100;
      Submit {| signature := "SIG";
                tx_instructions :=
                  [ BurnChecked "BACKEND/MINT" "MINT" "BACKEND" 150000000 9;
                    TransferChecked "BACKEND/MINT" "MINT" "TREASURY/MINT" "BACKEND"
                      150000000 9 ];
                recentBlockhash := "BLOCKHASH"; feePayer := "BACKEND" |};
      UpdateMany [0%nat; 1%nat] "SIG" ].
Proof. repeat split; vm_compute; reflexivity. Qed.

(** The specification's example: records summing to 100 tokens are
    settled by one transaction that burns 50 and transfers 50 (in base
    units, with 9 decimals), and every record carries its signature. *)
Example settlement64_of_100_tokens :
  let res := Settlement64.executeBatchSettlement Verifier.textKey ataOf
               goodEnv (worldOf (unitRecords 100)) in
  fst res = Ok tt /\
  trace (snd res) =
    [ Find 100;
      Submit {| signature := "SIG";
                tx_instructions :=
                  [ BurnChecked "BACKEND/MINT" "MINT" "BACKEND" 50000000000 9;
                    TransferChecked "BACKEND/MINT" "MINT" "TREASURY/MINT" "BACKEND"
                      50000000000 9 ];
                recentBlockhash := "BLOCKHASH"; feePayer := "BACKEND" |};
      UpdateMany (seq 0 100) "SIG" ] /\
  forallb (fun r => settled r && bool_decide (ur_txHash r = Some "SIG"))
    (UsageRecord (store (snd res))) = true.
Proof. repeat split; vm_compute; reflexivity. Qed.

(** Flooring the double product can lose a base unit: half of 2.01
    tokens is burned as 1004999999 base units, not 1005000000. *)
Example settlement64_floor_of_1_005 :
  Settlement64.toBaseUnits
    (Binary64.div (Binary64.round64 (201 # 100)) 2) 9 = 1004999999%Z.
Proof. vm_compute. reflexivity. Qed.

End Settlement64Facts.
